(** * QueueBasedChat_System: the message pipeline, embedded and verified

    A shallow embedding of the Python sources

      - [models/priority_queue.py]   (PriorityMessageQueue, over [heapq])
      - [models/circular_queue.py]   (CircularQueue, over [deque(maxlen=..)])
      - [models/batch_queue.py]      (BatchQueue)
      - [models/retry_queue.py]      (RetryQueue)
      - [models/session_queue.py]    (SessionQueue)
      - [utils/message_utils.py]     (validate_message, validate_username,
                                      format_message_for_client,
                                      get_priority_stats,
                                      create_system_message)
      - [handlers/socket_handlers.py] (on_connect, on_disconnect,
                                      on_send_message, process_retry_queue,
                                      on_get_stats, broadcast_system_message)

    Conventions of the embedding.

      - A Python [str] is a [list ascii], a character being a code point
        below 256; the character database that Python consults
        ([str.isspace], case mapping, the [\w] class of [re]) is the
        class [CharTables], so that general statements hold for every
        such table; [latin1_tables] is Python's table on these code
        points, used for the concrete texts.
      - Python integers that are message data (priorities, counters) are
        [Z]; quantities that count queue entries or attempts (capacities,
        batch thresholds, retry counts) are [nat].
      - [time.time()] readings are rationals; every operation that reads
        the clock takes the reading [now] as an argument, and one run of
        a handler sees one reading.
      - An object mutated in place is passed and returned explicitly.
      - The handlers run one after the other: a call is served to its end
        before the next one starts. *)

From Equations Require Import Equations.
From Stdlib Require Import ZArith QArith Ascii Sorted Lia.
From Stdlib Require String.
From stdpp Require Import base list.
Import String.StringSyntax.
Delimit Scope string_scope with string.

Set Default Proof Using "Type".

#[local] Open Scope nat_scope.

(* ================================================================== *)
(** * Python strings *)
(* ================================================================== *)

Definition str (s : String.string) : list ascii :=
  String.list_ascii_of_string s.
Arguments str s%_string.

(** The part of the Unicode character database the sources consult. *)
Class CharTables := {
  (** [str.isspace] on one character: used by [str.strip] and by [\s]. *)
  isspace : ascii -> bool;
  (** lower-cased character, as [str.lower] maps it. *)
  to_lower : ascii -> ascii;
  (** cased characters: the upper-case ones, and the others (lower-case
      and title-case). *)
  is_upper : ascii -> bool;
  is_lower : ascii -> bool;
  (** the class [\w] of [re] on a [str] pattern. *)
  is_word : ascii -> bool
}.

Definition in_range (lo hi : N) (c : ascii) : bool :=
  (lo <=? N_of_ascii c)%N && (N_of_ascii c <=? hi)%N.

Definition code_in (codes : list N) (c : ascii) : bool :=
  existsb (N.eqb (N_of_ascii c)) codes.

(** Python's tables on the code points below 256.  White space is
    U+0009..U+000D, U+001C..U+0020, U+0085 and U+00A0; the upper-case
    letters are A..Z and U+00C0..U+00DE without the multiplication sign
    U+00D7, and their lower-case forms lie 32 code points above; the
    other cased characters are lower-case; [\w] holds of the letters,
    the digits, the underscore and the superscript digits and fractions
    of the range. *)
Definition latin1_upper (c : ascii) : bool :=
  in_range 65 90 c || (in_range 192 222 c && negb (code_in [215]%N c)).

#[export] Instance latin1_tables : CharTables := {|
  isspace c := in_range 9 13 c || in_range 28 32 c || code_in [133; 160]%N c;
  to_lower c :=
    if latin1_upper c then ascii_of_N (N_of_ascii c + 32) else c;
  is_upper := latin1_upper;
  is_lower c :=
    in_range 97 122 c || code_in [170; 181; 186]%N c
    || (in_range 223 255 c && negb (code_in [247]%N c));
  is_word c :=
    in_range 48 57 c || in_range 65 90 c || in_range 97 122 c
    || code_in [95; 170; 178; 179; 181; 185; 186; 188; 189; 190]%N c
    || (in_range 192 255 c && negb (code_in [215; 247]%N c))
|}.

(** Drop the longest prefix whose characters satisfy [p]. *)
Fixpoint dropwhile (p : ascii -> bool) (s : list ascii) : list ascii :=
  match s with
  | [] => []
  | c :: s' => if p c then dropwhile p s' else s
  end.

Section Text.
Context `{CharTables}.

(** [s.strip()] *)
Definition lstrip (s : list ascii) : list ascii := dropwhile isspace s.
Definition rstrip (s : list ascii) : list ascii :=
  rev (dropwhile isspace (rev s)).
Definition strip (s : list ascii) : list ascii := rstrip (lstrip s).

(** [s.lower()] *)
Definition lower (s : list ascii) : list ascii := map to_lower s.

(** [s.isupper()]: some cased character, and no lower-cased one. *)
Definition isupper (s : list ascii) : bool :=
  existsb is_upper s && negb (existsb is_lower s).

End Text.

Definition ascii_eqb (a b : ascii) : bool := (N_of_ascii a =? N_of_ascii b)%N.

(** [s.startswith(p)] *)
Fixpoint startswith (p s : list ascii) : bool :=
  match p, s with
  | [], _ => true
  | _ :: _, [] => false
  | a :: p', b :: s' => ascii_eqb a b && startswith p' s'
  end.

(** [p in s] on strings: [p] occurs in [s] as a substring. *)
Fixpoint contains (p s : list ascii) : bool :=
  startswith p s ||
  match s with
  | [] => false
  | _ :: s' => contains p s'
  end.

(** [s.count(c)] for a one-character [c]. *)
Definition count (c : ascii) (s : list ascii) : nat :=
  length (List.filter (ascii_eqb c) s).

(** [html.escape(s)] (with [quote=True], the default). *)
Definition html_escape_char (c : ascii) : list ascii :=
  if ascii_eqb c "&"%char then str "&amp;"
  else if ascii_eqb c "<"%char then str "&lt;"
  else if ascii_eqb c ">"%char then str "&gt;"
  else if ascii_eqb c "034"%char then str "&quot;"
  else if ascii_eqb c "'"%char then str "&#x27;"
  else [c].

Definition html_escape (s : list ascii) : list ascii :=
  flat_map html_escape_char s.

(** [re.sub(r'[^\w\-\s]', '', s)]: keep word characters, dashes and
    whitespace, delete every other character. *)
Definition allowed_in_username `{CharTables} (c : ascii) : bool :=
  is_word c || ascii_eqb c "-"%char || isspace c.

Definition re_sub_disallowed `{CharTables} (s : list ascii) : list ascii :=
  List.filter allowed_in_username s.

(* ================================================================== *)
(** * [heapq]: the array-backed binary heap of the Python library *)
(* ================================================================== *)

(** [(pos - 1) >> 1] *)
Definition parent_of (pos : nat) : nat := Nat.shiftr (pos - 1) 1.

Section Heapq.
Context {A : Type} (lt : A -> A -> bool).

(** The [while pos > startpos] loop of [_siftdown]: parents larger than
    [newitem] move down one level; returns the array and the position at
    which [newitem] belongs.  An index is always in range here; for a
    position outside the array the loop stops (Python would raise
    [IndexError]; [heappush] and [heappop] never get there). *)
Equations? siftdown_loop (heap : list A) (startpos pos : nat) (newitem : A)
    : list A * nat by wf pos Nat.lt :=
  siftdown_loop heap startpos pos newitem with decide (startpos < pos) := {
    | left _ with heap !! parent_of pos := {
        | Some parent with lt newitem parent := {
            | true := siftdown_loop (<[pos := parent]> heap) startpos
                        (parent_of pos) newitem
            | false := (heap, pos) }
        | None := (heap, pos) }
    | right _ := (heap, pos) }.
Proof.
  unfold parent_of. rewrite Nat.shiftr_div_pow2.
  change (2 ^ 1) with 2.
  assert ((pos - 1) / 2 <= pos - 1) by (apply Nat.Div0.div_le_upper_bound; lia).
  lia.
Qed.

(** [_siftdown(heap, startpos, pos)] *)
Definition _siftdown (heap : list A) (startpos pos : nat) : list A :=
  match heap !! pos with
  | Some newitem =>
      let '(heap', pos') := siftdown_loop heap startpos pos newitem in
      <[pos' := newitem]> heap'
  | None => heap
  end.

(** The choice of the child to move up:
    [rightpos = childpos + 1;
     if rightpos < endpos and not heap[childpos] < heap[rightpos]:
         childpos = rightpos] *)
Definition smaller_child (heap : list A) (endpos childpos : nat) : nat :=
  let rightpos := childpos + 1 in
  if decide (rightpos < endpos) then
    match heap !! childpos, heap !! rightpos with
    | Some l, Some r => if negb (lt l r) then rightpos else childpos
    | _, _ => childpos
    end
  else childpos.

(** The [while childpos < endpos] loop of [_siftup]: the smaller child
    moves up until the vacated position is a leaf; returns the array and
    the vacated leaf. *)
Equations? siftup_loop (heap : list A) (endpos pos : nat) : list A * nat
    by wf (endpos - pos) Nat.lt :=
  siftup_loop heap endpos pos with decide (2 * pos + 1 < endpos) := {
    | left _ with heap !! smaller_child heap endpos (2 * pos + 1) := {
        | Some child :=
            siftup_loop (<[pos := child]> heap) endpos
              (smaller_child heap endpos (2 * pos + 1))
        | None := (heap, pos) }
    | right _ := (heap, pos) }.
Proof. unfold smaller_child, Nat.lt. repeat case_match; lia. Qed.

(** [_siftup(heap, pos)] *)
Definition _siftup (heap : list A) (pos : nat) : list A :=
  match heap !! pos with
  | Some newitem =>
      let '(heap', pos') := siftup_loop heap (length heap) pos in
      _siftdown (<[pos' := newitem]> heap') pos pos'
  | None => heap
  end.

(** [heapq.heappush(heap, item)] *)
Definition heappush (heap : list A) (item : A) : list A :=
  _siftdown (heap ++ [item]) 0 (length (heap ++ [item]) - 1).

(** [heap.pop()]: the last element and the rest; [None] is [IndexError]. *)
Definition list_pop (l : list A) : option (list A * A) :=
  match last l with
  | Some x => Some (take (length l - 1) l, x)
  | None => None
  end.

(** [heapq.heappop(heap)]: the smallest item and the remaining heap;
    [None] is the [IndexError] of an empty heap. *)
Definition heappop (heap : list A) : option (A * list A) :=
  match list_pop heap with
  | None => None
  | Some (heap', lastelt) =>
      match heap' with
      | [] => Some (lastelt, heap')
      | returnitem :: _ => Some (returnitem, _siftup (<[0 := lastelt]> heap') 0)
      end
  end.

End Heapq.

(* ================================================================== *)
(** * [models/circular_queue.py] *)
(* ================================================================== *)

Module CircularQueue.

(** [self.queue = deque(maxlen=max_size)]; [queue] lists the deque from
    its left (oldest) end. *)
Record t (A : Type) := Build {
  queue : list A;
  max_size : nat
}.
Arguments Build {A}.
Arguments queue {A}.
Arguments max_size {A}.

Definition init {A} (max_size : nat) : t A :=
  {| queue := []; max_size := max_size |}.

(** [deque.append] on a bounded deque: the item is appended and, when the
    length then exceeds [maxlen], one item is removed from the left. *)
Definition deque_append {A} (maxlen : nat) (q : list A) (x : A) : list A :=
  let q' := q ++ [x] in
  if decide (maxlen < length q') then drop 1 q' else q'.

Definition enqueue {A} (message : A) (self : t A) : t A :=
  {| queue := deque_append (max_size self) (queue self) message;
     max_size := max_size self |}.

Definition get_all {A} (self : t A) : list A := queue self.

Definition latest {A} (self : t A) : option A := last (queue self).

(** Returns the number of cleared messages and the emptied queue. *)
Definition clear {A} (self : t A) : nat * t A :=
  (length (queue self), {| queue := []; max_size := max_size self |}).

End CircularQueue.

(* ================================================================== *)
(** * [models/priority_queue.py] *)
(* ================================================================== *)

(** The message object (a [dict]) that [add_message] creates. *)
Record message := {
  text : list ascii;
  priority : Z;
  priority_name : list ascii;
  user : list ascii;
  timestamp : Q;
  counter : Z;
  detection_method : list ascii
}.

(** A heap entry, the tuple [(priority, counter, message_obj)]. *)
Definition entry : Type := Z * Z * message.

(** [a < b] on heap entries.  Python compares tuples lexicographically:
    priorities, then counters.  The third components are dictionaries,
    which Python can compare for equality but not order ([TypeError]);
    they decide only between two entries that agree on priority and
    counter, and then [a < b] is false when the dictionaries are equal.
    Entries that differ never agree on their counters
    ([pending_entries_ok] below), so the [TypeError] is out of reach. *)
Definition entry_lt (a b : entry) : bool :=
  let '(p1, c1, _) := a in
  let '(p2, c2, _) := b in
  (p1 <? p2)%Z || ((p1 =? p2)%Z && (c1 <? c2)%Z).

Definition URGENT_KEYWORDS : list (list ascii) :=
  [str "urgent"; str "emergency"; str "help"; str "asap"; str "911";
   str "critical"; str "bug"; str "down"; str "broken"; str "crash"].

Definition HIGH_KEYWORDS : list (list ascii) :=
  [str "important"; str "priority"; str "meeting"; str "deadline";
   str "issue"; str "attention"; str "review"; str "approval"].

(** [self.PRIORITY_NAMES.get(priority, "NORMAL")] *)
Definition get_priority_name (priority : Z) : list ascii :=
  if (priority =? 1)%Z then str "URGENT"
  else if (priority =? 2)%Z then str "HIGH"
  else if (priority =? 3)%Z then str "NORMAL"
  else if (priority =? 4)%Z then str "LOW"
  else str "NORMAL".

Definition auto_detect_priority `{CharTables} (message : list ascii) : Z :=
  let message_lower := strip (lower message) in
  if existsb (fun keyword => contains keyword message_lower) URGENT_KEYWORDS
  then 1
  else if existsb (fun keyword => contains keyword message_lower) HIGH_KEYWORDS
  then 2
  else if contains (str "@") message && bool_decide (1 < length message)
  then 2
  else if bool_decide (5 < length message) && isupper message
  then 2
  else if bool_decide (3 <= count "!"%char message)
  then 2
  else 3.

Module PriorityMessageQueue.

Record t := Build {
  priority_queue : list entry;
  history : CircularQueue.t message;
  message_counter : Z
}.

Definition init (max_history_size : nat) : t :=
  {| priority_queue := [];
     history := CircularQueue.init max_history_size;
     message_counter := 0 |}.

(** [add_message(message, user, manual_priority)] at clock reading [now]:
    the created message object and the updated queue. *)
Definition add_message `{CharTables} (now : Q) (msg : list ascii)
    (usr : list ascii) (manual_priority : option Z) (self : t) : message * t :=
  let message_counter' := (message_counter self + 1)%Z in
  let timestamp := now in
  let '(priority, detection_method) :=
    match manual_priority with
    | Some p =>
        (* [if manual_priority:] holds for an integer other than 0 *)
        if (p =? 0)%Z then (auto_detect_priority msg, str "auto")
        else (p, str "manual")
    | None => (auto_detect_priority msg, str "auto")
    end in
  let message_obj :=
    {| text := msg;
       priority := priority;
       priority_name := get_priority_name priority;
       user := usr;
       timestamp := timestamp;
       counter := message_counter';
       detection_method := detection_method |} in
  (message_obj,
   {| priority_queue :=
        heappush entry_lt (priority_queue self)
          (priority, message_counter', message_obj);
      history := CircularQueue.enqueue message_obj (history self);
      message_counter := message_counter' |}).

Definition get_next_message (self : t) : option message * t :=
  match priority_queue self with
  | [] => (None, self)
  | _ :: _ =>
      match heappop entry_lt (priority_queue self) with
      | Some ((_, _, message_obj), heap') =>
          (Some message_obj,
           {| priority_queue := heap';
              history := history self;
              message_counter := message_counter self |})
      | None => (None, self)
      end
  end.

Definition peek_next_message (self : t) : option message :=
  match priority_queue self with
  | [] => None
  | (_, _, message_obj) :: _ => Some message_obj
  end.

Definition get_history (self : t) : list message :=
  CircularQueue.get_all (history self).

Definition clear_queue (self : t) : nat * t :=
  (length (priority_queue self),
   {| priority_queue := [];
      history := history self;
      message_counter := message_counter self |}).

(** Returns [(queue_cleared, history_cleared)] and the reset queue. *)
Definition clear_all (self : t) : (nat * nat) * t :=
  let queue_count := length (priority_queue self) in
  let history_count := length (CircularQueue.get_all (history self)) in
  ((queue_count, history_count),
   {| priority_queue := [];
      history := snd (CircularQueue.clear (history self));
      message_counter := 0 |}).

End PriorityMessageQueue.

(* ================================================================== *)
(** * [models/batch_queue.py] *)
(* ================================================================== *)

Module BatchQueue.

Record t (A : Type) := Build {
  queue : list A;
  min_batch_size : nat;
  max_batch_size : nat
}.
Arguments Build {A}.
Arguments queue {A}.
Arguments min_batch_size {A}.
Arguments max_batch_size {A}.

Definition init {A} (min_batch_size max_batch_size : nat) : t A :=
  {| queue := []; min_batch_size := min_batch_size;
     max_batch_size := max_batch_size |}.

Definition enqueue {A} (message : A) (self : t A) : t A :=
  {| queue := queue self ++ [message];
     min_batch_size := min_batch_size self;
     max_batch_size := max_batch_size self |}.

(** [while self.queue and len(batch) < self.max_batch_size:
        batch.append(self.queue.popleft())]
    returns the batch and what is left of the queue. *)
Fixpoint flush_loop {A} (max_batch_size : nat) (queue batch : list A)
    : list A * list A :=
  match queue with
  | [] => (batch, queue)
  | m :: queue' =>
      if decide (length batch < max_batch_size)
      then flush_loop max_batch_size queue' (batch ++ [m])
      else (batch, queue)
  end.

Definition flush {A} (self : t A) : list A * t A :=
  if decide (length (queue self) < min_batch_size self) then ([], self)
  else
    let '(batch, queue') := flush_loop (max_batch_size self) (queue self) [] in
    (batch,
     {| queue := queue';
        min_batch_size := min_batch_size self;
        max_batch_size := max_batch_size self |}).

Definition force_flush {A} (self : t A) : list A * t A :=
  (queue self,
   {| queue := [];
      min_batch_size := min_batch_size self;
      max_batch_size := max_batch_size self |}).

Definition size {A} (self : t A) : nat := length (queue self).

End BatchQueue.

(* ================================================================== *)
(** * [models/retry_queue.py] *)
(* ================================================================== *)

Module RetryQueue.

(** A queue item, the tuple [(message, retry_count, next_time)]. *)
Definition item (A : Type) : Type := A * nat * Q.

Record t (A : Type) := Build {
  queue : list (item A);
  max_retries : nat
}.
Arguments Build {A}.
Arguments queue {A}.
Arguments max_retries {A}.

Definition init {A} (max_retries : nat) : t A :=
  {| queue := []; max_retries := max_retries |}.

(** [time.time() + (2 ** retry_count)] at clock reading [now]. *)
Definition backoff_deadline (now : Q) (retry_count : nat) : Q :=
  now + inject_Z (2 ^ Z.of_nat retry_count).

(** [enqueue(message, retry_count)]; the Python default of [retry_count]
    is 0. *)
Definition enqueue {A} (now : Q) (message : A) (retry_count : nat)
    (self : t A) : t A :=
  let next_time := backoff_deadline now retry_count in
  {| queue := queue self ++ [(message, retry_count, next_time)];
     max_retries := max_retries self |}.

(** [time.time() >= next_time] *)
Definition time_reached (now next_time : Q) : bool := Qle_bool next_time now.

Definition get_ready_message {A} (now : Q) (self : t A)
    : option (A * nat) * t A :=
  match queue self with
  | [] => (None, self)
  | (message, retry_count, next_time) :: rest =>
      if time_reached now next_time then
        (Some (message, retry_count),
         {| queue := rest; max_retries := max_retries self |})
      else (None, self)
  end.

Definition process {A} (now : Q) (self : t A) : option A * t A :=
  let '(ready, self') := get_ready_message now self in
  match ready with
  | None => (None, self')
  | Some (message, retry_count) =>
      if decide (retry_count < max_retries self) then (Some message, self')
      else (None, self')   (* dropped after max retries *)
  end.

Definition size {A} (self : t A) : nat := length (queue self).

End RetryQueue.

(* ================================================================== *)
(** * [utils/message_utils.py] *)
(* ================================================================== *)

(** The dictionary [validate_message] returns, without the statistics
    fields that no caller reads. *)
Record message_validation := {
  valid : bool;
  error : list ascii;
  sanitized_message : list ascii
}.

Definition validate_message `{CharTables} (msg : list ascii)
    : message_validation :=
  let msg := strip msg in
  match msg with
  | [] =>
      {| valid := false;
         error := str "Message cannot be empty";
         sanitized_message := [] |}
  | _ :: _ =>
      if decide (2000 < length msg) then
        {| valid := false;
           error := str "Message too long (max 2000 characters)";
           sanitized_message := take 2000 msg |}
      else
        {| valid := true;
           error := [];
           sanitized_message := html_escape msg |}
  end.

(** The field [sanitized_username] of the dictionary [validate_username]
    returns (its other fields are the constants [True] and [False]). *)
Definition validate_username `{CharTables} (username : list ascii)
    : list ascii :=
  let username := strip username in
  let username :=
    match username with [] => str "Anonymous" | _ :: _ => username end in
  let username :=
    if decide (50 < length username) then take 50 username else username in
  let username := re_sub_disallowed username in
  html_escape username.

(** The payload sent to clients. *)
Module Wire.
Record t := Build {
  text : list ascii;
  user : list ascii;
  priority : Z;
  priority_name : list ascii;
  timestamp : Q;
  formatted_time : list ascii;
  detection_method : list ascii
}.
End Wire.

(* ================================================================== *)
(** * [handlers/socket_handlers.py] *)
(* ================================================================== *)

(** The value found under the key ['priority'] of a request. *)
Inductive pyvalue :=
| PyBool (b : bool)
| PyInt (z : Z)
| PyFloat (q : Q)
| PyInf
| PyNaN
| PyStr (s : list ascii)
| PyOther.   (* a list or a dictionary *)

(** The request dictionary [data]; [None] is an absent key (for
    ['priority'] also the value [None]). *)
Record request := {
  req_message : option (list ascii);
  req_user : option (list ascii);
  req_priority : option pyvalue
}.

Inductive int_result :=
| IntOk (z : Z)
| ValueError
| TypeError
| OverflowError.

(** What a handler emits through the socket. *)
Inductive event :=
| EmitError (type message : list ascii)            (* to the sender *)
| EmitBatch (batch : list Wire.t)                  (* [new_message_batch] *)
| EmitMessage (m : Wire.t).                        (* [new_message] *)

(** [inspect e] keeps the equation between [e] and the pattern it is
    matched against. *)
Definition inspect {A} (a : A) : {b | a = b} := exist _ a eq_refl.

Module ChatSocketHandlers.

Record t := Build {
  message_system : PriorityMessageQueue.t;
  batch_queue : BatchQueue.t Wire.t;
  retry_queue : RetryQueue.t Wire.t
}.

(** The queues as [__init__] creates them around a message system. *)
Definition init (message_system : PriorityMessageQueue.t) : t :=
  {| message_system := message_system;
     batch_queue := BatchQueue.init 5 50;
     retry_queue := RetryQueue.init 5 |}.

(** What a handler did: its return value, the events it emitted in
    order, and the handlers' state afterwards. *)
Record outcome := {
  returned : bool;
  emitted : list event;
  state : t
}.

Section Handlers.
Context `{CharTables}.
(** [int(s)] on a string ([None] is [ValueError]), and the rendering of a
    time stamp as local time [HH:MM:SS]. *)
Context (int_of_str : list ascii -> option Z).
Context (format_timestamp : Q -> list ascii).
(** [now]: the clock reading of this handler run; [send k]: whether the
    [k]-th broadcast of this run goes through ([false]: [emit] raises). *)
Context (now : Q) (send : nat -> bool).

(** [int(v)] *)
Definition py_int (v : pyvalue) : int_result :=
  match v with
  | PyBool b => IntOk (if b then 1 else 0)
  | PyInt z => IntOk z
  | PyFloat q => IntOk (Z.quot (Qnum q) (Z.pos (Qden q)))
  | PyInf => OverflowError
  | PyNaN => ValueError
  | PyStr s =>
      match int_of_str s with Some z => IntOk z | None => ValueError end
  | PyOther => TypeError
  end.

Definition format_message_for_client (message_obj : message) : Wire.t :=
  {| Wire.text := text message_obj;
     Wire.user := user message_obj;
     Wire.priority := priority message_obj;
     Wire.priority_name := priority_name message_obj;
     Wire.timestamp := timestamp message_obj;
     Wire.formatted_time := format_timestamp (timestamp message_obj);
     Wire.detection_method := detection_method message_obj |}.

(** Lines 107-114 of [on_send_message]: the priority override handed to
    [add_message]; [None] on the right of [inl] is "no override", [inr]
    is an exception that the inner [except] clause does not catch. *)
Definition priority_override (manual_priority : option pyvalue)
    : option Z + int_result :=
  match manual_priority with
  | None => inl None
  | Some v =>
      match py_int v with
      | IntOk p =>
          if (p =? 1)%Z || (p =? 2)%Z || (p =? 3)%Z || (p =? 4)%Z
          then inl (Some p) else inl None
      | ValueError | TypeError => inl None
      | OverflowError => inr OverflowError
      end
  end.

(** Number of queue items whose back-off time has passed at [now]. *)
Definition ready_count (q : list (RetryQueue.item Wire.t)) : nat :=
  length (List.filter (fun it => RetryQueue.time_reached now (snd it)) q).

(** The [while True] loop of [process_retry_queue], from the retry queue
    [rq], the events emitted so far [log] and the number [k] of
    broadcasts attempted so far.  The loop ends when [process] returns
    [None]; a message whose broadcast fails is queued again by
    [self.retry_queue.enqueue(retry_msg)], that is with the default
    [retry_count] of 0.  (A payload is a dictionary with seven keys, so
    [if not retry_msg] is false for every message.)  Every pass removes
    an item whose time has passed at [now] and adds at most one whose
    time has not, which bounds the number of passes. *)
Equations? process_retry_queue_loop (rq : RetryQueue.t Wire.t)
    (log : list event) (k : nat) : RetryQueue.t Wire.t * list event * nat
    by wf (ready_count (RetryQueue.queue rq)) Nat.lt :=
  process_retry_queue_loop rq log k with inspect (RetryQueue.process now rq) := {
    | exist _ (None, rq') _ := (rq', log, k)
    | exist _ (Some retry_msg, rq') _ with send k := {
        | true :=
            process_retry_queue_loop rq' (log ++ [EmitMessage retry_msg]) (S k)
        | false :=
            process_retry_queue_loop (RetryQueue.enqueue now retry_msg 0 rq')
              log (S k) } }.
Proof.
  all: unfold RetryQueue.process, RetryQueue.get_ready_message in *.
  all: destruct rq as [[|[[m rc] nt] rest] mx]; simpl in *; try discriminate.
  all: destruct (RetryQueue.time_reached now nt) eqn:Hnt; try discriminate.
  all: destruct (decide (rc < mx)); try discriminate.
  all: match goal with E : (_, _) = (_, _) |- _ => inversion E; subst; clear E end.
  all: unfold ready_count, Nat.lt; simpl; rewrite ?Hnt; simpl; try lia.
  rewrite List.filter_app, length_app. simpl.
  replace (RetryQueue.time_reached now (RetryQueue.backoff_deadline now 0))
    with false; [simpl; rewrite Nat.add_0_r; apply le_n|].
  symmetry. apply not_true_is_false. unfold RetryQueue.time_reached.
  rewrite Qle_bool_iff. unfold RetryQueue.backoff_deadline. simpl.
  intros Hle. apply (Qplus_le_r _ _ now) in Hle.
  revert Hle. unfold Qle. simpl. lia.
Qed.

Definition process_retry_queue (rq : RetryQueue.t Wire.t)
    (log : list event) (k : nat) : RetryQueue.t Wire.t * list event * nat :=
  process_retry_queue_loop rq log k.

(** [for msg in batch: self.retry_queue.enqueue(msg)] *)
Definition enqueue_all (batch : list Wire.t) (rq : RetryQueue.t Wire.t)
    : RetryQueue.t Wire.t :=
  foldl (fun rq msg => RetryQueue.enqueue now msg 0 rq) rq batch.

(** [on_send_message(data)].  The outer [except Exception] clause is
    reached by the one exception that the steps modelled here can raise,
    the [OverflowError] of [int] on an infinite float. *)
Definition on_send_message (data : request) (self : t) : outcome :=
  let raw_message := default (str "") (req_message data) in
  let raw_user := default (str "Anonymous") (req_user data) in
  let manual_priority := req_priority data in
  let message_validation := validate_message raw_message in
  if negb (valid message_validation) then
    {| returned := false;
       emitted := [EmitError (str "validation_error")
                     (error message_validation)];
       state := self |}
  else
    let clean_user := validate_username raw_user in
    let clean_message := sanitized_message message_validation in
    match priority_override manual_priority with
    | inr _ =>
        {| returned := false;
           emitted := [EmitError (str "processing_error")
                         (str "Failed to process message")];
           state := self |}
    | inl manual_priority =>
        let '(message_obj, ms) :=
          PriorityMessageQueue.add_message now clean_message clean_user
            manual_priority (message_system self) in
        let '(next_message, ms) := PriorityMessageQueue.get_next_message ms in
        match next_message with
        | None =>
            {| returned := false; emitted := [];
               state := {| message_system := ms;
                           batch_queue := batch_queue self;
                           retry_queue := retry_queue self |} |}
        | Some next_message =>
            let formatted_msg := format_message_for_client next_message in
            let bq := BatchQueue.enqueue formatted_msg (batch_queue self) in
            let '(batch, bq) := BatchQueue.flush bq in
            let '(rq, log, k) :=
              match batch with
              | [] => (retry_queue self, [], 0)
              | _ :: _ =>
                  if send 0 then (retry_queue self, [EmitBatch batch], 1)
                  else (enqueue_all batch (retry_queue self), [], 1)
              end in
            let '(rq, log, _) := process_retry_queue rq log k in
            {| returned := true; emitted := log;
               state := {| message_system := ms;
                           batch_queue := bq;
                           retry_queue := rq |} |}
        end
    end.

End Handlers.
End ChatSocketHandlers.

(* ================================================================== *)
(** * Vocabulary of the statements *)
(* ================================================================== *)

Section HeapShape.
Context {A : Type} (lt : A -> A -> bool).

(** The item at [i] is not smaller than the item at its parent. *)
Definition edge_ok (h : list A) (i : nat) : Prop :=
  forall x y, h !! i = Some x -> h !! parent_of i = Some y -> lt x y = false.

(** The heap invariant of [heapq]: [heap[k] <= heap[2*k+1]] and
    [heap[k] <= heap[2*k+2]] for all [k]. *)
Definition is_heap (h : list A) : Prop :=
  forall i, 0 < i -> edge_ok h i.

(** [g] is a heap except that the item at [pos] may be smaller than its
    parent; the parent of [pos] is not larger than the children of
    [pos]. *)
Definition sift_inv (g : list A) (pos : nat) : Prop :=
  (forall i, 0 < i -> i <> pos -> edge_ok g i) /\
  (0 < pos -> forall c x y, 0 < c -> parent_of c = pos ->
     g !! c = Some x -> g !! parent_of pos = Some y -> lt x y = false).

(** [h] is a heap with a vacated position [pos], whose content is
    irrelevant. *)
Definition hole_inv (h : list A) (pos : nat) : Prop :=
  (forall i, 0 < i -> i <> pos -> parent_of i <> pos -> edge_ok h i) /\
  (0 < pos -> forall c x y, 0 < c -> parent_of c = pos ->
     h !! c = Some x -> h !! parent_of pos = Some y -> lt x y = false).

End HeapShape.

(** ** Histories of a priority queue *)

(** The operations of [PriorityMessageQueue] that change it. *)
Inductive operation :=
| AddMessage (now : Q) (msg usr : list ascii) (manual_priority : option Z)
| GetNextMessage
| ClearQueue
| ClearAll.

Definition is_clear_all (op : operation) : bool :=
  match op with ClearAll => true | _ => false end.

(** One operation: the message it admitted, if it is an admission, and
    the queue afterwards. *)
Definition apply_op `{CharTables} (op : operation) (s : PriorityMessageQueue.t)
    : option message * PriorityMessageQueue.t :=
  match op with
  | AddMessage now msg usr manual_priority =>
      let '(m, s') :=
        PriorityMessageQueue.add_message now msg usr manual_priority s in
      (Some m, s')
  | GetNextMessage => (None, snd (PriorityMessageQueue.get_next_message s))
  | ClearQueue => (None, snd (PriorityMessageQueue.clear_queue s))
  | ClearAll => (None, snd (PriorityMessageQueue.clear_all s))
  end.

(** A sequence of operations: the admitted messages, in admission order,
    and the queue afterwards. *)
Fixpoint run `{CharTables} (ops : list operation) (s : PriorityMessageQueue.t)
    : list message * PriorityMessageQueue.t :=
  match ops with
  | [] => ([], s)
  | op :: ops' =>
      let '(m, s') := apply_op op s in
      let '(ms, s'') := run ops' s' in
      (match m with Some m => m :: ms | None => ms end, s'')
  end.

(** [n] successive calls of [get_next_message]: what each returned, and
    the queue afterwards. *)
Fixpoint get_next_messages (n : nat) (s : PriorityMessageQueue.t)
    : list (option message) * PriorityMessageQueue.t :=
  match n with
  | 0 => ([], s)
  | S n' =>
      let '(r, s') := PriorityMessageQueue.get_next_message s in
      let '(rs, s'') := get_next_messages n' s' in
      (r :: rs, s'')
  end.

(** The messages among a list of results. *)
Definition delivered {A} (rs : list (option A)) : list A := omap id rs.

(** [m1] is delivered no later than [m2]: smaller priority code, or the
    same and a counter that is not larger. *)
Definition msg_le (m1 m2 : message) : Prop :=
  (priority m1 < priority m2)%Z \/
  (priority m1 = priority m2 /\ (counter m1 <= counter m2)%Z).

(** The heap entry of a message. *)
Definition entry_of (m : message) : entry := (priority m, counter m, m).

(** The array of pending entries is a heap; each entry is the tuple
    [(priority, counter, message_obj)] of its message; the counters were
    assigned (they lie between 1 and [message_counter]) and are pairwise
    different. *)
Definition pending_ok (s : PriorityMessageQueue.t) : Prop :=
  is_heap entry_lt (PriorityMessageQueue.priority_queue s) /\
  Forall (fun e : entry =>
            e = entry_of e.2 /\
            (0 < counter e.2 <= PriorityMessageQueue.message_counter s)%Z)
    (PriorityMessageQueue.priority_queue s) /\
  NoDup (map (fun e : entry => e.1.2) (PriorityMessageQueue.priority_queue s)) /\
  (0 <= PriorityMessageQueue.message_counter s)%Z.

(** ** Histories of a retry queue *)

Inductive retry_op (A : Type) :=
| Enqueue (t : Q) (message : A) (retry_count : nat)
| Process (now : Q).
Arguments Enqueue {A}.
Arguments Process {A}.

(** What one [process] call did: when it ran, what it returned, and the
    item it took off the queue, if the queue got shorter. *)
Record process_record (A : Type) := {
  at_time : Q;
  result : option A;
  taken : option (RetryQueue.item A)
}.
Arguments at_time {A}.
Arguments result {A}.
Arguments taken {A}.

Fixpoint run_retry {A} (ops : list (retry_op A)) (self : RetryQueue.t A)
    : list (process_record A) * RetryQueue.t A :=
  match ops with
  | [] => ([], self)
  | Enqueue t message retry_count :: ops' =>
      run_retry ops' (RetryQueue.enqueue t message retry_count self)
  | Process now :: ops' =>
      let '(r, self') := RetryQueue.process now self in
      let '(log, final) := run_retry ops' self' in
      ({| at_time := now;
          result := r;
          taken :=
            if decide (length (RetryQueue.queue self')
                       < length (RetryQueue.queue self))
            then head (RetryQueue.queue self) else None |} :: log,
       final)
  end.


(** ** Requests *)

(** The value under ['priority'] is not usable as a priority: [int]
    converts it to an integer outside 1..4, or fails with [ValueError]
    or [TypeError]. *)
Definition invalid_priority (int_of_str : list ascii -> option Z)
    (v : pyvalue) : Prop :=
  match ChatSocketHandlers.py_int int_of_str v with
  | IntOk p => ~ (1 <= p <= 4)%Z
  | ValueError | TypeError => True
  | OverflowError => False
  end.

Definition is_error_event (e : event) : bool :=
  match e with EmitError _ _ => true | _ => false end.

(* ================================================================== *)
(** * The rest of the modules *)
(* ================================================================== *)

#[local] Instance ascii_eq_dec : EqDecision ascii := ascii_dec.

(** ** Counting into a dictionary *)

(** A dictionary from names to counts, its items in insertion order (the
    order in which Python iterates over it). *)
Definition counts : Type := list (list ascii * nat).

(** [d.get(key, default)] *)
Fixpoint dict_get (d : counts) (key : list ascii) (default : nat) : nat :=
  match d with
  | [] => default
  | (k, v) :: d' => if decide (k = key) then v else dict_get d' key default
  end.

(** [d[key] = v]: the value of a key that is present is replaced in
    place, a new key is added at the end. *)
Fixpoint dict_set (d : counts) (key : list ascii) (v : nat) : counts :=
  match d with
  | [] => [(key, v)]
  | (k, v') :: d' =>
      if decide (k = key) then (k, v) :: d' else (k, v') :: dict_set d' key v
  end.

(** [d[key] = d.get(key, 0) + 1] *)
Definition dict_incr (d : counts) (key : list ascii) : counts :=
  dict_set d key (dict_get d key 0 + 1).

(** [max(d, key=d.get)]: the first key, in insertion order, whose value
    is not exceeded; [best] is the best item met so far. *)
Fixpoint max_key_from (best : list ascii * nat) (d : counts) : list ascii :=
  match d with
  | [] => best.1
  | (k, v) :: d' =>
      if decide (best.2 < v) then max_key_from (k, v) d'
      else max_key_from best d'
  end.

(** ** [PriorityMessageQueue.get_queue_stats] *)

Record queue_stats := {
  total_messages : nat;
  history_size : nat;
  priority_breakdown : counts
}.

Definition get_queue_stats (self : PriorityMessageQueue.t) : queue_stats :=
  {| total_messages := length (PriorityMessageQueue.priority_queue self);
     history_size :=
       length (CircularQueue.get_all (PriorityMessageQueue.history self));
     priority_breakdown :=
       foldl (fun breakdown (e : entry) =>
                dict_incr breakdown (get_priority_name e.1.1))
         [] (PriorityMessageQueue.priority_queue self) |}.

(** ** [utils/message_utils.py]: statistics and system messages *)

(** The dictionary [get_priority_stats] returns; the key
    ['most_common_priority'] is absent ([None]) for an empty input, and
    holds [None] for an empty breakdown. *)
Record priority_stats := {
  total : nat;
  breakdown : counts;
  most_common_priority : option (option (list ascii))
}.

Definition get_priority_stats (messages : list message) : priority_stats :=
  match messages with
  | [] => {| total := 0; breakdown := []; most_common_priority := None |}
  | _ :: _ =>
      let breakdown :=
        foldl (fun breakdown msg => dict_incr breakdown (priority_name msg))
          [] messages in
      {| total := length messages;
         breakdown := breakdown;
         most_common_priority :=
           Some (match breakdown with
                 | [] => None
                 | item :: rest => Some (max_key_from item rest)
                 end) |}
  end.

(** The dictionary [create_system_message] returns. *)
Record system_message := {
  sys_text : list ascii;
  sys_user : list ascii;
  sys_priority : Z;
  sys_priority_name : list ascii;
  sys_timestamp : Q;
  sys_detection_method : list ascii;
  is_system : bool
}.

(** [{1: "URGENT", 2: "HIGH", 3: "NORMAL", 4: "LOW"}[priority]];
    [None] is [KeyError]. *)
Definition priority_name_of (priority : Z) : option (list ascii) :=
  if (priority =? 1)%Z then Some (str "URGENT")
  else if (priority =? 2)%Z then Some (str "HIGH")
  else if (priority =? 3)%Z then Some (str "NORMAL")
  else if (priority =? 4)%Z then Some (str "LOW")
  else None.

(** [create_system_message(text, priority)] at clock reading [now];
    [None] is the [KeyError] of the name lookup. *)
Definition create_system_message (now : Q) (text : list ascii)
    (priority : Z) : option system_message :=
  match priority_name_of priority with
  | Some name =>
      Some {| sys_text := text;
              sys_user := str "SYSTEM";
              sys_priority := priority;
              sys_priority_name := name;
              sys_timestamp := now;
              sys_detection_method := str "system";
              is_system := true |}
  | None => None
  end.

(* ================================================================== *)
(** * [models/session_queue.py] *)
(* ================================================================== *)

Module SessionQueue.

(** A session event (a [dict]). *)
Record event := Build_event {
  user : list ascii;
  event_type : list ascii;
  timestamp : Q;
  status : list ascii
}.

(** [self.queue = deque(maxlen=max_size)] *)
Record t := Build {
  queue : list event;
  maxlen : nat
}.

Definition init (max_size : nat) : t := {| queue := []; maxlen := max_size |}.

(** [enqueue(user, event_type)] at clock reading [now]: the created
    event and the queue afterwards. *)
Definition enqueue (now : Q) (usr : list ascii) (event_type : list ascii)
    (self : t) : event * t :=
  let ev := {| user := usr; event_type := event_type;
               timestamp := now; status := str "pending" |} in
  (ev, {| queue := CircularQueue.deque_append (maxlen self) (queue self) ev;
          maxlen := maxlen self |}).

(** [dequeue()]: the oldest event, marked as processed. *)
Definition dequeue (self : t) : option event * t :=
  match queue self with
  | [] => (None, self)
  | ev :: rest =>
      (Some {| user := user ev; event_type := event_type ev;
               timestamp := timestamp ev; status := str "processed" |},
       {| queue := rest; maxlen := maxlen self |})
  end.

Definition peek (self : t) : option event := head (queue self).

Definition size (self : t) : nat := length (queue self).

Definition clear (self : t) : nat * t :=
  (length (queue self), {| queue := []; maxlen := maxlen self |}).

End SessionQueue.

(* ================================================================== *)
(** * [handlers/socket_handlers.py]: the other handlers *)
(* ================================================================== *)

(** The statistics [on_get_stats] sends: those of the message system and
    the sizes of the three queues of the handlers. *)
Record detailed_stats := {
  message_stats : queue_stats;
  batch_queue_size : nat;
  retry_queue_size : nat;
  session_queue_size : nat
}.

(** What the server emits: the events of the pipeline, and the replies
    to one client. *)
Inductive output :=
| Pipeline (e : event)
| ClientMessage (m : Wire.t)                 (* [new_message], to the client *)
| ClientStats (s : queue_stats)              (* [queue_stats] of [on_connect] *)
| ClientDetailedStats (s : detailed_stats).  (* [queue_stats] of [on_get_stats] *)

Module Server.

(** The handlers object with its session queue ([self.session_queue]),
    which the submission handler does not touch. *)
Record t := Build {
  handlers : ChatSocketHandlers.t;
  session_queue : SessionQueue.t
}.

(** [app.py]: [PriorityMessageQueue(max_history_size=1000)] and the
    queues of [ChatSocketHandlers.__init__]. *)
Definition init : t :=
  {| handlers := ChatSocketHandlers.init (PriorityMessageQueue.init 1000);
     session_queue := SessionQueue.init 1000 |}.

(** The calls that reach the handlers, each with the clock reading of its
    run and, where it broadcasts, with the fate of its broadcasts. *)
Inductive call :=
| Connect (now : Q)
| Disconnect (now : Q)
| SendMessage (now : Q) (send : nat -> bool) (data : request)
| GetStats
| SystemMessage (now : Q) (send : nat -> bool) (msg : list ascii) (priority : Z).

Section Handlers.
Context `{CharTables}.
Context (int_of_str : list ascii -> option Z).
Context (format_timestamp : Q -> list ascii).

(** [broadcast_system_message(message, priority)]: the events emitted and
    the handlers afterwards.  A failing broadcast is caught by the
    [except] clause, which only prints. *)
Definition broadcast_system_message (now : Q) (send : nat -> bool)
    (msg : list ascii) (priority : Z) (self : ChatSocketHandlers.t)
    : list event * ChatSocketHandlers.t :=
  let '(system_msg, ms) :=
    PriorityMessageQueue.add_message now msg (str "SYSTEM") (Some priority)
      (ChatSocketHandlers.message_system self) in
  let '(next_message, ms) := PriorityMessageQueue.get_next_message ms in
  match next_message with
  | None =>
      ([], {| ChatSocketHandlers.message_system := ms;
              ChatSocketHandlers.batch_queue :=
                ChatSocketHandlers.batch_queue self;
              ChatSocketHandlers.retry_queue :=
                ChatSocketHandlers.retry_queue self |})
  | Some next_message =>
      let formatted_msg :=
        ChatSocketHandlers.format_message_for_client format_timestamp
          next_message in
      let bq :=
        BatchQueue.enqueue formatted_msg (ChatSocketHandlers.batch_queue self) in
      let '(batch, bq) := BatchQueue.force_flush bq in
      (if send 0 then [EmitBatch batch] else [],
       {| ChatSocketHandlers.message_system := ms;
          ChatSocketHandlers.batch_queue := bq;
          ChatSocketHandlers.retry_queue :=
            ChatSocketHandlers.retry_queue self |})
  end.

(** [on_connect()] *)
Definition on_connect (now : Q) (self : t) : bool * list output * t :=
  let '(_, sq) :=
    SessionQueue.enqueue now (str "Anonymous") (str "login")
      (session_queue self) in
  let history :=
    CircularQueue.get_all
      (PriorityMessageQueue.history
         (ChatSocketHandlers.message_system (handlers self))) in
  let stats :=
    get_queue_stats (ChatSocketHandlers.message_system (handlers self)) in
  (true,
   map (fun msg =>
          ClientMessage
            (ChatSocketHandlers.format_message_for_client format_timestamp msg))
     history ++ [ClientStats stats],
   {| handlers := handlers self; session_queue := sq |}).

(** [on_disconnect()] *)
Definition on_disconnect (now : Q) (self : t) : bool * t :=
  let '(_, sq) :=
    SessionQueue.enqueue now (str "Anonymous") (str "logout")
      (session_queue self) in
  (true, {| handlers := handlers self; session_queue := sq |}).

(** [on_get_stats()] *)
Definition on_get_stats (self : t) : list output :=
  [ClientDetailedStats
     {| message_stats :=
          get_queue_stats (ChatSocketHandlers.message_system (handlers self));
        batch_queue_size :=
          BatchQueue.size (ChatSocketHandlers.batch_queue (handlers self));
        retry_queue_size :=
          RetryQueue.size (ChatSocketHandlers.retry_queue (handlers self));
        session_queue_size := SessionQueue.size (session_queue self) |}].

(** One call: what is emitted and the server afterwards. *)
Definition step (c : call) (self : t) : list output * t :=
  match c with
  | Connect now => let '(_, out, self') := on_connect now self in (out, self')
  | Disconnect now => ([], (on_disconnect now self).2)
  | SendMessage now send data =>
      let out :=
        ChatSocketHandlers.on_send_message int_of_str format_timestamp
          now send data (handlers self) in
      (map Pipeline (ChatSocketHandlers.emitted out),
       {| handlers := ChatSocketHandlers.state out;
          session_queue := session_queue self |})
  | GetStats => (on_get_stats self, self)
  | SystemMessage now send msg priority =>
      let '(evs, h) :=
        broadcast_system_message now send msg priority (handlers self) in
      (map Pipeline evs, {| handlers := h; session_queue := session_queue self |})
  end.

(** A sequence of calls: everything emitted, in order, and the server
    afterwards. *)
Fixpoint run (calls : list call) (self : t) : list output * t :=
  match calls with
  | [] => ([], self)
  | c :: calls' =>
      let '(out, self') := step c self in
      let '(outs, self'') := run calls' self' in
      (out ++ outs, self'')
  end.

End Handlers.
End Server.

(** ** Vocabulary of the statements about the validators *)

(** The characters [html.escape] replaces, and those of them that do not
    occur in the entities it writes. *)
Definition html_special : list ascii := ["&"; "<"; ">"; "034"; "'"]%char.
Definition markup_characters : list ascii := ["<"; ">"; "034"; "'"]%char.

(** The name [validate_username] works on: the trimmed name, or the
    placeholder. *)
Definition name_or_anonymous `{CharTables} (username : list ascii)
    : list ascii :=
  match strip username with [] => str "Anonymous" | _ :: _ => strip username end.

(** ** Histories of the other queues *)

(** The longest prefix whose items satisfy [p]. *)
Fixpoint takewhile {A} (p : A -> bool) (l : list A) : list A :=
  match l with
  | [] => []
  | x :: l' => if p x then x :: takewhile p l' else []
  end.

Inductive circular_op (A : Type) :=
| CircularEnqueue (message : A)
| CircularClear.
Arguments CircularEnqueue {A}.
Arguments CircularClear {A}.

Definition run_circular {A} (ops : list (circular_op A))
    (self : CircularQueue.t A) : CircularQueue.t A :=
  foldl (fun self op =>
           match op with
           | CircularEnqueue message => CircularQueue.enqueue message self
           | CircularClear => (CircularQueue.clear self).2
           end) self ops.

(** The messages enqueued after the last [clear] of a history. *)
Definition since_last_clear {A} (ops : list (circular_op A)) : list A :=
  foldl (fun recent op =>
           match op with
           | CircularEnqueue message => recent ++ [message]
           | CircularClear => []
           end) [] ops.

Inductive batch_op (A : Type) :=
| BatchEnqueue (message : A)
| BatchFlush
| BatchForceFlush.
Arguments BatchEnqueue {A}.
Arguments BatchFlush {A}.
Arguments BatchForceFlush {A}.

(** A history of a batch queue: the batches that its [flush] and
    [force_flush] calls returned, in order, each with the mark [true]
    when it comes from [force_flush], and the queue afterwards. *)
Fixpoint run_batch {A} (ops : list (batch_op A)) (self : BatchQueue.t A)
    : list (bool * list A) * BatchQueue.t A :=
  match ops with
  | [] => ([], self)
  | BatchEnqueue message :: ops' =>
      run_batch ops' (BatchQueue.enqueue message self)
  | BatchFlush :: ops' =>
      let '(batch, self') := BatchQueue.flush self in
      let '(batches, final) := run_batch ops' self' in
      ((false, batch) :: batches, final)
  | BatchForceFlush :: ops' =>
      let '(batch, self') := BatchQueue.force_flush self in
      let '(batches, final) := run_batch ops' self' in
      ((true, batch) :: batches, final)
  end.

Definition batch_enqueued {A} (ops : list (batch_op A)) : list A :=
  omap (fun op =>
          match op with BatchEnqueue message => Some message | _ => None end)
    ops.

Inductive session_op :=
| SessionEnqueue (now : Q) (usr event_type : list ascii)
| SessionDequeue
| SessionClear.

(** What a history of a session queue produced: the events its
    [enqueue] calls returned, what its [dequeue] calls returned, and the
    queue afterwards. *)
Record session_run := {
  created : list SessionQueue.event;
  processed : list (option SessionQueue.event);
  session_final : SessionQueue.t
}.

Fixpoint run_session (ops : list session_op) (self : SessionQueue.t)
    : session_run :=
  match ops with
  | [] => {| created := []; processed := []; session_final := self |}
  | SessionEnqueue now usr event_type :: ops' =>
      let '(ev, self') := SessionQueue.enqueue now usr event_type self in
      let r := run_session ops' self' in
      {| created := ev :: created r; processed := processed r;
         session_final := session_final r |}
  | SessionDequeue :: ops' =>
      let '(ev, self') := SessionQueue.dequeue self in
      let r := run_session ops' self' in
      {| created := created r; processed := ev :: processed r;
         session_final := session_final r |}
  | SessionClear :: ops' => run_session ops' (SessionQueue.clear self).2
  end.

(** The event with the status [dequeue] gives it. *)
Definition mark_processed (ev : SessionQueue.event) : SessionQueue.event :=
  {| SessionQueue.user := SessionQueue.user ev;
     SessionQueue.event_type := SessionQueue.event_type ev;
     SessionQueue.timestamp := SessionQueue.timestamp ev;
     SessionQueue.status := str "processed" |}.

(** ** Vocabulary of the statements about the handlers *)

(** The messages that a list of events carries to the clients. *)
Definition sent_messages (evs : list event) : list Wire.t :=
  flat_map (fun e =>
              match e with
              | EmitBatch batch => batch
              | EmitMessage m => [m]
              | EmitError _ _ => []
              end) evs.

(** The item can be served at [now]: its time has passed and it has
    retries left. *)
Definition retry_ready (now : Q) (max_retries : nat)
    (it : RetryQueue.item Wire.t) : bool :=
  RetryQueue.time_reached now it.2 && bool_decide (it.1.2 < max_retries).

(** Of the items [ready], broadcast one after the other from broadcast
    number [k] on: the messages whose broadcast goes through, and the
    items that replace the others in the queue. *)
Fixpoint resent (send : nat -> bool) (k : nat)
    (ready : list (RetryQueue.item Wire.t)) : list Wire.t :=
  match ready with
  | [] => []
  | it :: ready' =>
      if send k then it.1.1 :: resent send (S k) ready'
      else resent send (S k) ready'
  end.

Fixpoint requeued (now : Q) (send : nat -> bool) (k : nat)
    (ready : list (RetryQueue.item Wire.t)) : list (RetryQueue.item Wire.t) :=
  match ready with
  | [] => []
  | it :: ready' =>
      if send k then requeued now send (S k) ready'
      else (it.1.1, 0, RetryQueue.backoff_deadline now 0)
             :: requeued now send (S k) ready'
  end.

(** The queue behind the served items once the drain has stopped: a
    first item whose time has passed (it has no retries left) is
    removed. *)
Definition after_stop (now : Q) (rest : list (RetryQueue.item Wire.t))
    : list (RetryQueue.item Wire.t) :=
  match rest with
  | [] => []
  | it :: rest' => if RetryQueue.time_reached now it.2 then rest' else rest
  end.

(** The messages waiting in a retry queue. *)
Definition queued_for_retry (rq : RetryQueue.t Wire.t) : list Wire.t :=
  (fun it : RetryQueue.item Wire.t => it.1.1) <$> RetryQueue.queue rq.

(** ** Vocabulary of the statements about the server *)



(** The session events that the calls create. *)
Definition session_events (calls : list Server.call)
    : list SessionQueue.event :=
  omap (fun c =>
          match c with
          | Server.Connect now =>
              Some {| SessionQueue.user := str "Anonymous";
                      SessionQueue.event_type := str "login";
                      SessionQueue.timestamp := now;
                      SessionQueue.status := str "pending" |}
          | Server.Disconnect now =>
              Some {| SessionQueue.user := str "Anonymous";
                      SessionQueue.event_type := str "logout";
                      SessionQueue.timestamp := now;
                      SessionQueue.status := str "pending" |}
          | _ => None
          end) calls.

(** What holds of the server between two calls: no message is pending
    in the priority queue, fewer than five wait in the batch queue, the
    items of the retry queue have the retry count 0, and the limits are
    those of the start. *)
Definition steady (s : Server.t) : Prop :=
  let h := Server.handlers s in
  let ms := ChatSocketHandlers.message_system h in
  PriorityMessageQueue.priority_queue ms = [] /\
  CircularQueue.max_size (PriorityMessageQueue.history ms) = 1000 /\
  length (CircularQueue.queue (PriorityMessageQueue.history ms)) <= 1000 /\
  BatchQueue.min_batch_size (ChatSocketHandlers.batch_queue h) = 5 /\
  BatchQueue.max_batch_size (ChatSocketHandlers.batch_queue h) = 50 /\
  length (BatchQueue.queue (ChatSocketHandlers.batch_queue h)) < 5 /\
  RetryQueue.max_retries (ChatSocketHandlers.retry_queue h) = 5 /\
  Forall (fun it : RetryQueue.item Wire.t => it.1.2 = 0)
    (RetryQueue.queue (ChatSocketHandlers.retry_queue h)) /\
  SessionQueue.maxlen (Server.session_queue s) = 1000 /\
  length (SessionQueue.queue (Server.session_queue s)) <= 1000.

(** What holds of every output of the server. *)
Definition expected_output (o : output) : Prop :=
  match o with
  | Pipeline (EmitBatch batch) => 1 <= length batch <= 5
  | ClientStats stats =>
      total_messages stats = 0 /\ priority_breakdown stats = [] /\
      history_size stats <= 1000
  | ClientDetailedStats stats =>
      total_messages (message_stats stats) = 0 /\
      priority_breakdown (message_stats stats) = [] /\
      history_size (message_stats stats) <= 1000 /\
      batch_queue_size stats < 5 /\
      session_queue_size stats <= 1000
  | _ => True
  end.


(** A text without the characters <, >, double quote and apostrophe. *)
Definition markup_free (s : list ascii) : Prop :=
  Forall (fun c => c ∉ markup_characters) s.

Definition sanitized (m : message) : Prop :=
  markup_free (text m) /\ markup_free (user m) /\ text m <> [].

Definition sanitized_payload (m : Wire.t) : Prop :=
  markup_free (Wire.text m) /\ markup_free (Wire.user m) /\ Wire.text m <> [].

(** The call comes from a client. *)
Definition client_call (c : Server.call) : Prop :=
  match c with Server.SystemMessage _ _ _ _ => False | _ => True end.

(** The messages that an output carries. *)
Definition messages_of (o : output) : list Wire.t :=
  match o with
  | Pipeline e => sent_messages [e]
  | ClientMessage m => [m]
  | ClientStats _ | ClientDetailedStats _ => []
  end.

(* ================================================================== *)
(** * The embedding on small inputs *)
(* ================================================================== *)

Example heappush_ex :
  foldl (heappush Nat.ltb) [] [5; 3; 4; 1] = [1; 3; 4; 5].
Proof. reflexivity. Qed.

Example heappop_ex :
  heappop Nat.ltb [1; 3; 4; 5; 7; 9; 6] = Some (1, [3; 5; 4; 6; 7; 9]).
Proof. reflexivity. Qed.

Example heappop_empty_ex : heappop Nat.ltb [] = None.
Proof. reflexivity. Qed.

Example deque_append_ex :
  CircularQueue.deque_append 2 [1; 2] 3 = [2; 3] /\
  CircularQueue.deque_append 2 [1] 2 = [1; 2] /\
  CircularQueue.deque_append 0 [] 1 = [].
Proof. repeat split. Qed.

Example flush_below_min_ex :
  BatchQueue.flush
    {| BatchQueue.queue := [1; 2];
       BatchQueue.min_batch_size := 3; BatchQueue.max_batch_size := 5 |}
  = ([], {| BatchQueue.queue := [1; 2];
            BatchQueue.min_batch_size := 3; BatchQueue.max_batch_size := 5 |}).
Proof. reflexivity. Qed.

Example flush_ex :
  BatchQueue.flush
    {| BatchQueue.queue := [1; 2; 3; 4];
       BatchQueue.min_batch_size := 2; BatchQueue.max_batch_size := 3 |}
  = ([1; 2; 3], {| BatchQueue.queue := [4];
                   BatchQueue.min_batch_size := 2;
                   BatchQueue.max_batch_size := 3 |}).
Proof. reflexivity. Qed.

(** An item queued at time 10 with retry count 3 is due at 18: it stays
    at 17 and is returned at 18; with [max_retries = 3] it is dropped. *)
Example process_ex :
  let rq := RetryQueue.enqueue 10 "m"%char 3 (RetryQueue.init 5) in
  RetryQueue.process 17 rq = (None, rq) /\
  RetryQueue.process 18 rq = (Some "m"%char, RetryQueue.init 5) /\
  RetryQueue.process 18 (RetryQueue.enqueue 10 "m"%char 3 (RetryQueue.init 3))
  = (None, RetryQueue.init 3).
Proof. repeat split. Qed.

Example validate_message_ex :
  validate_message (H := latin1_tables) (str "  a<b & c  ")
  = {| valid := true; error := [];
       sanitized_message := str "a&lt;b &amp; c" |}.
Proof. reflexivity. Qed.

Example validate_username_ex :
  validate_username (H := latin1_tables) (str " bob<the>builder-1 ")
  = str "bobthebuilder-1".
Proof. reflexivity. Qed.

(** A run of the handlers: five submissions, the fifth one URGENT, fill
    the batch; the broadcast of the batch fails and its five messages
    enter the retry queue with retry count 0. *)
Example on_send_message_ex :
  let submit text (self : ChatSocketHandlers.t) :=
    ChatSocketHandlers.state
      (ChatSocketHandlers.on_send_message (H := latin1_tables)
         (fun _ => None) (fun _ => str "00:00:00") 0 (fun _ => false)
         {| req_message := Some text; req_user := Some (str "al");
            req_priority := None |} self) in
  let self :=
    submit (str "help") (submit (str "d") (submit (str "c") (submit (str "b")
      (submit (str "a")
         (ChatSocketHandlers.init (PriorityMessageQueue.init 1000)))))) in
  map (fun it : RetryQueue.item Wire.t => (Wire.text it.1.1, it.1.2))
    (RetryQueue.queue (ChatSocketHandlers.retry_queue self))
  = [(str "a", 0); (str "b", 0); (str "c", 0); (str "d", 0); (str "help", 0)] /\
  BatchQueue.queue (ChatSocketHandlers.batch_queue self) = [] /\
  PriorityMessageQueue.priority_queue (ChatSocketHandlers.message_system self)
  = [] /\
  map text (PriorityMessageQueue.get_history
              (ChatSocketHandlers.message_system self))
  = [str "a"; str "b"; str "c"; str "d"; str "help"].
Proof. vm_compute. repeat split. Qed.

(** Three admissions, NORMAL, URGENT (by keyword) and NORMAL, are
    delivered URGENT first and the two NORMAL ones in admission order;
    the fourth call finds nothing. *)
Example get_next_messages_ex :
  let s := (run (H := latin1_tables)
              [AddMessage 0 (str "one") (str "al") None;
               AddMessage 1 (str "help") (str "bo") None;
               AddMessage 2 (str "two") (str "al") None]
              (PriorityMessageQueue.init 1000)).2 in
  map (fun r => (fun m => (text m, priority m, counter m)) <$> r)
    (get_next_messages 4 s).1
  = [Some (str "help", 1, 2); Some (str "one", 3, 1);
     Some (str "two", 3, 3); None]%Z.
Proof. vm_compute. reflexivity. Qed.

(** A retry queue with [max_retries = 2]: the item of count 0 queued at
    time 0 is returned at time 1; the item of count 2 queued at time 0
    is not yet due at time 3 and is dropped at time 4. *)
Example run_retry_ex :
  map (fun r => (at_time r, result r, taken r))
    (run_retry [Enqueue 0 "a"%char 0; Enqueue 0 "b"%char 2;
                Process 1; Process 3; Process 4; Process 5]
       (RetryQueue.init 2)).1
  = [(1%Q, Some "a"%char, Some ("a"%char, 0, RetryQueue.backoff_deadline 0 0));
     (3%Q, None, None);
     (4%Q, None, Some ("b"%char, 2, RetryQueue.backoff_deadline 0 2));
     (5%Q, None, None)].
Proof. vm_compute. reflexivity. Qed.
(* ================================================================== *)
(** * [heapq]: the heap invariant *)
(* ================================================================== *)

Lemma parent_of_spec i :
  0 < i -> i = 2 * parent_of i + 1 \/ i = 2 * parent_of i + 2.
Proof.
  unfold parent_of. rewrite Nat.shiftr_div_pow2. change (2 ^ 1) with 2.
  intros Hi. pose proof (Nat.div_mod_eq (i - 1) 2) as E.
  pose proof (Nat.mod_upper_bound (i - 1) 2). lia.
Qed.

Lemma parent_of_lt i : 0 < i -> parent_of i < i.
Proof. intros Hi. pose proof (parent_of_spec i Hi). lia. Qed.

Lemma parent_of_child p c : 0 < c -> parent_of c = p -> c = 2 * p + 1 \/ c = 2 * p + 2.
Proof. intros Hc <-. now apply parent_of_spec. Qed.

Lemma parent_of_left p : parent_of (2 * p + 1) = p.
Proof. pose proof (parent_of_spec (2 * p + 1)). lia. Qed.

Lemma parent_of_right p : parent_of (2 * p + 2) = p.
Proof. pose proof (parent_of_spec (2 * p + 2)). lia. Qed.

(** Writing [y] over an occurrence of [x] and [x] over an occurrence of
    [y] permutes the list. *)
Lemma insert_head_Permutation {A} (l : list A) j x y :
  l !! j = Some y -> y :: <[j := x]> l ≡ₚ x :: l.
Proof.
  revert j. induction l as [|a l IH]; intros [|j] Hj; simplify_eq/=.
  - apply perm_swap.
  - rewrite perm_swap, (IH j Hj). apply perm_swap.
Qed.

Lemma insert_swap_Permutation {A} (l : list A) i j x y :
  l !! i = Some x -> l !! j = Some y -> <[j := x]> (<[i := y]> l) ≡ₚ l.
Proof.
  revert i j. induction l as [|a l IH]; intros [|i] [|j] Hi Hj; simplify_eq/=.
  - done.
  - now apply insert_head_Permutation.
  - now apply insert_head_Permutation.
  - now rewrite (IH i j).
Qed.

Section HeapFacts.
Context {A : Type} (lt : A -> A -> bool).
Hypothesis lt_asym : forall a b, lt a b = true -> lt b a = false.
Hypothesis le_trans :
  forall a b c, lt b a = false -> lt c b = false -> lt c a = false.

Lemma lt_irrefl a : lt a a = false.
Proof using lt_asym.
  destruct (lt a a) eqn:E; [|done]. now rewrite (lt_asym _ _ E) in E.
Qed.

Lemma siftdown_loop_length heap pos newitem h' p' :
  siftdown_loop lt heap 0 pos newitem = (h', p') ->
  p' <= pos /\ length h' = length heap.
Proof.
  funelim (siftdown_loop lt heap 0 pos newitem); clear Heqcall; intros E;
    try (simplify_eq; split; [lia|done]).
  destruct (H _ _ E) as [? ->]. rewrite length_insert.
  pose proof (parent_of_lt pos). split; [lia|done].
Qed.

Lemma sift_inv_step g pos x y :
  0 < pos -> g !! pos = Some x -> g !! parent_of pos = Some y ->
  lt x y = true -> sift_inv lt g pos ->
  sift_inv lt (<[parent_of pos := x]> (<[pos := y]> g)) (parent_of pos).
Proof using lt_asym le_trans.
  intros Hpos Hx Hy Hlt [Hedges Hgrand].
  pose proof (parent_of_lt pos Hpos) as Hpp.
  split.
  - intros i Hi Hne a b Ha Hb.
    apply list_lookup_insert_Some in Ha as [(? & _)|[_ Ha]]; [done|].
    apply list_lookup_insert_Some in Ha as [(<- & <- & _)|[Hip Ha]];
    apply list_lookup_insert_Some in Hb as [(Hpi & <- & _)|[Hpi Hb]];
    try (apply list_lookup_insert_Some in Hb as [(Hpi' & <- & _)|[Hpi' Hb]]).
    + now apply lt_asym.
    + pose proof (parent_of_lt pos). lia.
    + done.
    + apply (le_trans x y a); [now apply lt_asym|].
      apply (Hedges i Hi (not_eq_sym Hip) a y Ha). now rewrite <- Hpi.
    + apply (Hgrand Hpos i a y Hi (eq_sym Hpi') Ha Hy).
    + apply (Hedges i Hi (not_eq_sym Hip) a b Ha Hb).
  - intros Hpp0 c a b Hc Hpc Ha Hb.
    pose proof (parent_of_lt c Hc). pose proof (parent_of_lt _ Hpp0).
    rewrite list_lookup_insert_ne in Ha by lia.
    rewrite !list_lookup_insert_ne in Hb by lia.
    assert (lt y b = false) as Hyb.
    { apply (Hedges (parent_of pos) Hpp0 ltac:(lia) y b Hy Hb). }
    apply list_lookup_insert_Some in Ha as [(<- & <- & _)|[Hcp Ha]]; [done|].
    apply (le_trans b y a); [done|].
    apply (Hedges c Hc (not_eq_sym Hcp) a y Ha). now rewrite Hpc.
Qed.

Lemma siftdown_loop_spec heap pos newitem h' p' :
  pos < length heap ->
  sift_inv lt (<[pos := newitem]> heap) pos ->
  siftdown_loop lt heap 0 pos newitem = (h', p') ->
  is_heap lt (<[p' := newitem]> h') /\
  <[p' := newitem]> h' ≡ₚ <[pos := newitem]> heap.
Proof using lt_asym le_trans.
  funelim (siftdown_loop lt heap 0 pos newitem); clear Heqcall;
    intros Hlen Hinv E.
  - injection E as <- <-. split; [|done]. intros i Hi. apply Hinv; lia.
  - pose proof (parent_of_lt pos l).
    apply lookup_ge_None in Heq. lia.
  - pose proof (parent_of_lt pos l) as Hpp.
    assert (<[pos := newitem]> heap !! pos = Some newitem) as Hx
      by now apply list_lookup_insert_eq.
    assert (<[pos := newitem]> heap !! parent_of pos = Some parent) as Hy
      by (rewrite list_lookup_insert_ne by lia; done).
    pose proof (sift_inv_step _ _ _ _ l Hx Hy Heq Hinv) as Hinv'.
    rewrite list_insert_insert_eq in Hinv'.
    destruct (H h' p') as [Hheap Hperm]; [rewrite length_insert; lia|done|done|].
    split; [done|]. rewrite Hperm.
    rewrite <- (list_insert_insert_eq heap pos parent newitem).
    now apply insert_swap_Permutation.
  - injection E as <- <-. split; [|done]. intros i Hi a b Ha Hb.
    destruct (decide (i = pos)) as [->|Hne]; [|now apply (proj1 Hinv i Hi Hne)].
    pose proof (parent_of_lt pos l).
    rewrite list_lookup_insert_eq in Ha by done.
    rewrite list_lookup_insert_ne in Hb by lia. congruence.
Qed.

Lemma smaller_child_spec h pos :
  2 * pos + 1 < length h ->
  let c := smaller_child lt h (length h) (2 * pos + 1) in
  (c = 2 * pos + 1 \/ c = 2 * pos + 2) /\ c < length h /\
  forall s x z, s = 2 * pos + 1 \/ s = 2 * pos + 2 ->
    h !! c = Some x -> h !! s = Some z -> lt z x = false.
Proof using lt_asym.
  intros Hlen. unfold smaller_child.
  replace (2 * pos + 1 + 1) with (2 * pos + 2) by lia.
  destruct (decide (2 * pos + 2 < length h)) as [Hr|Hr].
  - destruct (lookup_lt_is_Some_2 h (2 * pos + 1)) as [l Hl]; [lia|].
    destruct (lookup_lt_is_Some_2 h (2 * pos + 2)) as [r Hr']; [lia|].
    rewrite Hl, Hr'. destruct (lt l r) eqn:Hlr; cbn [negb].
    + split; [lia|]. split; [lia|]. intros s x z [->| ->] Hx Hz; simplify_eq.
      * apply lt_irrefl.
      * now apply lt_asym.
    + split; [lia|]. split; [lia|]. intros s x z [->| ->] Hx Hz; simplify_eq.
      * done.
      * apply lt_irrefl.
  - split; [lia|]. split; [lia|]. intros s x z [->| ->] Hx Hz; simplify_eq.
    + apply lt_irrefl.
    + apply lookup_lt_Some in Hz. lia.
Qed.

Lemma hole_inv_step h pos child :
  2 * pos + 1 < length h ->
  h !! smaller_child lt h (length h) (2 * pos + 1) = Some child ->
  hole_inv lt h pos ->
  hole_inv lt (<[pos := child]> h) (smaller_child lt h (length h) (2 * pos + 1)).
Proof using lt_asym.
  intros Hlen Hchild [Hedges Hgrand].
  destruct (smaller_child_spec h pos Hlen) as (Hc & Hclen & Hmin).
  set (c := smaller_child lt h (length h) (2 * pos + 1)) in *.
  assert (parent_of c = pos) as Hpc.
  { destruct Hc as [-> | ->]; [apply parent_of_left|apply parent_of_right]. }
  split.
  - intros i Hi Hic Hpic a b Ha Hb.
    apply list_lookup_insert_Some in Ha as [(<- & <- & _)|[Hip Ha]].
    + pose proof (parent_of_lt pos Hi).
      rewrite list_lookup_insert_ne in Hb by lia.
      apply (Hgrand Hi c child b ltac:(lia) Hpc Hchild Hb).
    + apply list_lookup_insert_Some in Hb as [(Hpi & <- & _)|[Hpi Hb]].
      * apply (Hmin i child a); [|done|done].
        apply parent_of_child; done.
      * apply (Hedges i Hi (not_eq_sym Hip) (not_eq_sym Hpi) a b Ha Hb).
  - intros Hc0 d x y Hd Hpd Hx Hy.
    pose proof (parent_of_lt d Hd).
    rewrite list_lookup_insert_ne in Hx by lia.
    rewrite Hpc, list_lookup_insert_eq in Hy by lia. simplify_eq.
    apply (Hedges d Hd ltac:(lia) ltac:(lia) x y Hx). now rewrite Hpd.
Qed.

Lemma siftup_loop_spec heap endpos pos h1 p1 :
  endpos = length heap -> pos < length heap ->
  hole_inv lt heap pos ->
  siftup_loop lt heap endpos pos = (h1, p1) ->
  length h1 = length heap /\ p1 < length heap /\
  (forall v, sift_inv lt (<[p1 := v]> h1) p1) /\
  (forall v, <[p1 := v]> h1 ≡ₚ <[pos := v]> heap).
Proof using lt_asym.
  funelim (siftup_loop lt heap endpos pos); clear Heqcall;
    intros -> Hpos Hinv E.
  - injection E as <- <-. split; [done|]. split; [done|].
    split; [|done]. intros v. destruct Hinv as [Hedges _]. split.
    + intros i Hi Hip a b Ha Hb.
      rewrite list_lookup_insert_ne in Ha by done.
      apply lookup_lt_Some in Ha as Hlt.
      destruct (decide (parent_of i = pos)) as [Hpi|Hpi].
      { pose proof (parent_of_spec i Hi). lia. }
      rewrite list_lookup_insert_ne in Hb by done.
      apply (Hedges i Hi Hip Hpi a b Ha Hb).
    + intros _ c x y Hc Hpc Hx _.
      apply lookup_lt_Some in Hx. rewrite length_insert in Hx.
      pose proof (parent_of_spec c Hc). lia.
  - destruct (smaller_child_spec heap pos l) as (Hc & Hclen & _).
    pose proof (hole_inv_step heap pos child l Heq Hinv) as Hinv'.
    rewrite length_insert in H.
    destruct (H h1 p1 eq_refl Hclen Hinv' E) as (Hl1 & Hp1 & Hsift & Hperm).
    split; [done|]. split; [done|]. split; [done|].
    intros v. rewrite Hperm.
    rewrite <- (list_insert_insert_eq heap pos child v).
    apply insert_swap_Permutation.
    + now apply list_lookup_insert_eq.
    + rewrite list_lookup_insert_ne by lia. done.
  - destruct (smaller_child_spec heap pos l) as (_ & Hclen & _).
    apply lookup_ge_None in Heq. lia.
Qed.

Lemma is_heap_prefix (h : list A) x : is_heap lt (h ++ [x]) -> is_heap lt h.
Proof.
  intros Hh i Hi a b Ha Hb. apply (Hh i Hi a b); now apply lookup_app_l_Some.
Qed.

(** [heappush] keeps the invariant and adds exactly the item. *)
Lemma heappush_spec heap item :
  is_heap lt heap ->
  is_heap lt (heappush lt heap item) /\ heappush lt heap item ≡ₚ item :: heap.
Proof using lt_asym le_trans.
  intros Hheap. unfold heappush, _siftdown.
  rewrite length_app. simpl. replace (length heap + 1 - 1) with (length heap) by lia.
  rewrite list_lookup_middle by done.
  destruct (siftdown_loop lt (heap ++ [item]) 0 (length heap) item)
    as [h' p'] eqn:E.
  assert (<[length heap := item]> (heap ++ [item]) = heap ++ [item]) as Hid.
  { apply list_insert_id. now apply list_lookup_middle. }
  apply siftdown_loop_spec in E as [Hh Hperm].
  - split; [done|]. rewrite Hperm, Hid. now rewrite Permutation_app_comm.
  - rewrite length_app. simpl. lia.
  - rewrite Hid. split.
    + intros i Hi Hne a b Ha Hb.
      apply lookup_lt_Some in Ha as Hlt. rewrite length_app in Hlt. simpl in Hlt.
      pose proof (parent_of_lt i Hi).
      rewrite lookup_app_l in Ha, Hb by lia. apply (Hheap i Hi a b Ha Hb).
    + intros _ c x y Hc Hpc Hx _.
      apply lookup_lt_Some in Hx. rewrite length_app in Hx. simpl in Hx.
      pose proof (parent_of_lt c Hc). lia.
Qed.

Lemma siftup_root_spec h newitem :
  h !! 0 = Some newitem ->
  hole_inv lt h 0 ->
  is_heap lt (_siftup lt h 0) /\ _siftup lt h 0 ≡ₚ h.
Proof using lt_asym le_trans.
  intros H0 Hinv. unfold _siftup. rewrite H0.
  apply lookup_lt_Some in H0 as Hlen.
  destruct (siftup_loop lt h (length h) 0) as [h1 p1] eqn:E.
  apply siftup_loop_spec in E as (Hl1 & Hp1 & Hsift & Hperm); [|done..].
  unfold _siftdown. rewrite list_lookup_insert_eq by lia.
  destruct (siftdown_loop lt (<[p1 := newitem]> h1) 0 p1 newitem)
    as [h2 p2] eqn:E2.
  apply siftdown_loop_spec in E2 as [Hh Hp].
  - split; [done|]. rewrite Hp, list_insert_insert_eq, Hperm.
    now rewrite list_insert_id.
  - rewrite length_insert. lia.
  - rewrite list_insert_insert_eq. apply Hsift.
Qed.

Lemma list_pop_spec (l l' : list A) x :
  list_pop l = Some (l', x) -> l = l' ++ [x].
Proof.
  unfold list_pop. destruct (last l) as [y|] eqn:E; [|done].
  intros [= <- <-]. apply last_Some in E as [l'' ->].
  rewrite length_app. simpl.
  replace (length l'' + 1 - 1) with (length l'') by lia.
  now rewrite take_app_length.
Qed.

Lemma list_pop_None (l : list A) : list_pop l = None -> l = [].
Proof.
  unfold list_pop. destruct (last l) eqn:E; [done|]. intros _.
  now apply last_None in E.
Qed.

(** [heappop] keeps the invariant and removes exactly the item it
    returns, which is the root of the heap. *)
Lemma heappop_spec heap x heap' :
  is_heap lt heap -> heappop lt heap = Some (x, heap') ->
  heap !! 0 = Some x /\ is_heap lt heap' /\ heap ≡ₚ x :: heap'.
Proof using lt_asym le_trans.
  intros Hheap. unfold heappop.
  destruct (list_pop heap) as [[h lastelt]|] eqn:E; [|done].
  apply list_pop_spec in E as ->. apply is_heap_prefix in Hheap as Hh.
  destruct h as [|r t]; intros [= <- <-].
  - split; [done|]. split; [|done]. intros i Hi a b Ha. done.
  - destruct (siftup_root_spec (<[0 := lastelt]> (r :: t)) lastelt)
      as [Hh' Hp]; [done| |].
    + split; [|lia]. intros i Hi _ Hpi a b Ha Hb.
      rewrite list_lookup_insert_ne in Ha, Hb by lia.
      apply (Hh i Hi a b Ha Hb).
    + split; [done|]. split; [done|]. rewrite Hp. simpl.
      apply perm_skip. symmetry. apply Permutation_cons_append.
Qed.

Lemma heappop_is_Some heap : heap <> [] -> is_Some (heappop lt heap).
Proof.
  intros Hne. unfold heappop.
  destruct (list_pop heap) as [[h lastelt]|] eqn:E.
  - destruct h; eauto.
  - now apply list_pop_None in E.
Qed.

(** The root of a heap is a smallest item. *)
Lemma is_heap_root_min h r :
  is_heap lt h -> h !! 0 = Some r -> forall x, x ∈ h -> lt x r = false.
Proof using lt_asym le_trans.
  intros Hh Hr x Hx. apply list_elem_of_lookup in Hx as [i Hi].
  revert x Hi. induction (lt_wf i) as [i _ IH]. intros x Hi.
  destruct (decide (i = 0)) as [->|Hne].
  - simplify_eq. apply lt_irrefl.
  - pose proof (parent_of_lt i ltac:(lia)) as Hp.
    destruct (lookup_lt_is_Some_2 h (parent_of i)) as [y Hy].
    { apply lookup_lt_Some in Hi. lia. }
    apply (le_trans r y x); [now apply (IH _ Hp)|].
    apply (Hh i ltac:(lia) x y Hi Hy).
Qed.

End HeapFacts.

(* ================================================================== *)
(** * The priority queue *)
(* ================================================================== *)

Lemma entry_lt_asym a b : entry_lt a b = true -> entry_lt b a = false.
Proof. destruct a as [[? ?] ?], b as [[? ?] ?]. unfold entry_lt. lia. Qed.

Lemma entry_le_trans a b c :
  entry_lt b a = false -> entry_lt c b = false -> entry_lt c a = false.
Proof.
  destruct a as [[? ?] ?], b as [[? ?] ?], c as [[? ?] ?]. unfold entry_lt. lia.
Qed.

Lemma entry_le_msg_le m1 m2 :
  entry_lt (entry_of m2) (entry_of m1) = false -> msg_le m1 m2.
Proof. unfold entry_lt, entry_of, msg_le. lia. Qed.

(** Case analysis on the manual priority of [add_message]: absent, zero,
    or taken as it is. *)
Ltac add_message_cases mp :=
  unfold PriorityMessageQueue.add_message;
  let p := fresh "p" in
  destruct mp as [p|]; [destruct (p =? 0)%Z|]; done.

(** [get_next_message] changes nothing but the pending entries. *)
Ltac get_next_message_frame :=
  unfold PriorityMessageQueue.get_next_message;
  match goal with
  | |- context [PriorityMessageQueue.priority_queue ?s] =>
      destruct (PriorityMessageQueue.priority_queue s); [done|];
      destruct (heappop _ _) as [[[[? ?] ?] ?]|]; done
  end.

Section PriorityQueueFacts.
Context `{CharTables}.

Lemma heappush_length {A} (lt : A -> A -> bool) heap item :
  length (heappush lt heap item) = S (length heap).
Proof.
  unfold heappush, _siftdown. rewrite length_app. simpl.
  replace (length heap + 1 - 1) with (length heap) by lia.
  rewrite list_lookup_middle by done.
  destruct (siftdown_loop lt (heap ++ [item]) 0 (length heap) item)
    as [h' p'] eqn:E.
  apply siftdown_loop_length in E as [_ E].
  rewrite length_insert, E, length_app. simpl. lia.
Qed.

Lemma init_ok max_history_size :
  pending_ok (PriorityMessageQueue.init max_history_size).
Proof.
  repeat split; simpl; try constructor; try lia. intros i Hi x y Hx. done.
Qed.

Lemma add_message_counter now msg usr mp s :
  counter (PriorityMessageQueue.add_message now msg usr mp s).1
    = (PriorityMessageQueue.message_counter s + 1)%Z /\
  PriorityMessageQueue.message_counter
    (PriorityMessageQueue.add_message now msg usr mp s).2
    = (PriorityMessageQueue.message_counter s + 1)%Z.
Proof. add_message_cases mp. Qed.

Lemma add_message_queue now msg usr mp s :
  PriorityMessageQueue.priority_queue
    (PriorityMessageQueue.add_message now msg usr mp s).2
  = heappush entry_lt (PriorityMessageQueue.priority_queue s)
      (entry_of (PriorityMessageQueue.add_message now msg usr mp s).1).
Proof. add_message_cases mp. Qed.

Lemma add_message_history now msg usr mp s :
  PriorityMessageQueue.history
    (PriorityMessageQueue.add_message now msg usr mp s).2
  = CircularQueue.enqueue (PriorityMessageQueue.add_message now msg usr mp s).1
      (PriorityMessageQueue.history s).
Proof. add_message_cases mp. Qed.

Lemma add_message_ok now msg usr mp s :
  pending_ok s ->
  pending_ok (PriorityMessageQueue.add_message now msg usr mp s).2.
Proof.
  intros (Hheap & Hall & Hnd & Hc).
  destruct (add_message_counter now msg usr mp s) as [Hm Hs].
  pose proof (add_message_queue now msg usr mp s) as Hq.
  destruct (PriorityMessageQueue.add_message now msg usr mp s) as [m s'].
  simpl in *.
  destruct (heappush_spec entry_lt entry_lt_asym entry_le_trans
              (PriorityMessageQueue.priority_queue s) (entry_of m) Hheap)
    as [Hheap' Hperm].
  unfold pending_ok. rewrite Hq, Hs. split; [done|].
  split; [|split; [|lia]].
  - rewrite Hperm. constructor; [simpl; split; [done|lia]|].
    eapply Forall_impl; [exact Hall|]. simpl. intros e [? ?]. split; [done|lia].
  - rewrite Hperm. simpl. constructor; [|done].
    rewrite list_elem_of_fmap. intros (e & He & Hin).
    rewrite Forall_forall in Hall. destruct (Hall e Hin) as [Hee Hrange].
    rewrite Hee in He. simpl in He. lia.
Qed.

Lemma get_next_message_spec s :
  pending_ok s ->
  match PriorityMessageQueue.get_next_message s with
  | (None, s') => PriorityMessageQueue.priority_queue s = [] /\ s' = s
  | (Some m, s') =>
      pending_ok s' /\
      PriorityMessageQueue.priority_queue s
        ≡ₚ entry_of m :: PriorityMessageQueue.priority_queue s' /\
      (forall e, e ∈ PriorityMessageQueue.priority_queue s ->
         entry_lt e (entry_of m) = false) /\
      PriorityMessageQueue.history s' = PriorityMessageQueue.history s /\
      PriorityMessageQueue.message_counter s'
        = PriorityMessageQueue.message_counter s
  end.
Proof.
  intros (Hheap & Hall & Hnd & Hc). unfold PriorityMessageQueue.get_next_message.
  destruct (PriorityMessageQueue.priority_queue s) as [|e0 q] eqn:Hq; [done|].
  destruct (heappop_is_Some entry_lt (e0 :: q)) as [[x heap'] Hpop]; [done|].
  rewrite Hpop.
  destruct (heappop_spec entry_lt entry_lt_asym entry_le_trans _ _ _ Hheap Hpop)
    as (Hroot & Hheap' & Hperm).
  assert (x = entry_of x.2) as Hx.
  { rewrite Forall_forall in Hall. apply (Hall x). rewrite Hperm. left. }
  destruct x as [[p c] m]. unfold entry_of in Hx. simpl in Hx.
  injection Hx as -> ->. change (priority m, counter m, m) with (entry_of m) in *.
  simpl. split; [|split; [done|split; [|done]]].
  - unfold pending_ok. simpl. split; [done|].
    rewrite Hperm in Hall, Hnd. inversion Hall; subst. inversion Hnd; subst.
    done.
  - intros e He.
    apply (is_heap_root_min entry_lt entry_lt_asym entry_le_trans
             (e0 :: q) (entry_of m) Hheap Hroot e He).
Qed.

Lemma apply_op_ok op s : pending_ok s -> pending_ok (apply_op op s).2.
Proof.
  intros Hs. destruct op; simpl.
  - pose proof (add_message_ok now msg usr manual_priority s Hs).
    destruct (PriorityMessageQueue.add_message _ _ _ _ _). done.
  - pose proof (get_next_message_spec s Hs) as Hn.
    destruct (PriorityMessageQueue.get_next_message s) as [[m|] s']; simpl.
    + apply Hn.
    + destruct Hn as [_ ->]. done.
  - destruct Hs as (_ & _ & _ & Hc).
    repeat split; simpl; try constructor; try done.
  - repeat split; simpl; try constructor; try done.
Qed.

Lemma run_ok ops s : pending_ok s -> pending_ok (run ops s).2.
Proof.
  revert s. induction ops as [|op ops IH]; intros s Hs; simpl; [done|].
  pose proof (apply_op_ok op s Hs) as Hs'.
  destruct (apply_op op s) as [m s']. simpl in Hs'.
  specialize (IH s' Hs'). destruct (run ops s') as [ms s'']. done.
Qed.


End PriorityQueueFacts.


(** In every history the pending entries are the tuples of their
    messages, their counters are pairwise different and not above
    [message_counter]: two entries of one queue are never compared by
    their dictionaries, and neither is a new entry with a queued one. *)
Lemma pending_entries_ok `{CharTables} (max_history_size : nat)
    (ops : list operation) :
  pending_ok (run ops (PriorityMessageQueue.init max_history_size)).2.
Proof. apply run_ok, init_ok. Qed.

(** Two pending entries that agree on priority and counter are one and
    the same tuple, and the counter of the next admission is above every
    pending one. *)
Lemma pending_entries_never_tie `{CharTables} (max_history_size : nat)
    (ops : list operation) :
  let s := (run ops (PriorityMessageQueue.init max_history_size)).2 in
  (forall e1 e2,
     e1 ∈ PriorityMessageQueue.priority_queue s ->
     e2 ∈ PriorityMessageQueue.priority_queue s ->
     e1.1 = e2.1 -> e1 = e2) /\
  (forall e, e ∈ PriorityMessageQueue.priority_queue s ->
     (e.1.2 < PriorityMessageQueue.message_counter s + 1)%Z).
Proof.
  intros s. destruct (pending_entries_ok max_history_size ops)
    as (_ & Hall & Hnd & _). fold s in Hall, Hnd. clearbody s.
  rewrite Forall_forall in Hall. split.
  - intros e1 e2 H1 H2 He.
    apply list_elem_of_lookup in H1 as [i Hi], H2 as [j Hj].
    assert (i = j) as ->; [|congruence].
    apply (NoDup_lookup _ i j e1.1.2 Hnd); apply list_lookup_fmap_Some.
    + exists e1. done.
    + exists e2. split; [|done]. now rewrite He.
  - intros e He. destruct (Hall e He) as [Hee Hc]. rewrite Hee. simpl. lia.
Qed.

Section Counters.
Context `{CharTables}.

Lemma apply_op_counter op s :
  is_clear_all op = false ->
  match (apply_op op s).1 with
  | Some m =>
      counter m = (PriorityMessageQueue.message_counter s + 1)%Z /\
      PriorityMessageQueue.message_counter (apply_op op s).2
        = (PriorityMessageQueue.message_counter s + 1)%Z
  | None =>
      PriorityMessageQueue.message_counter (apply_op op s).2
        = PriorityMessageQueue.message_counter s
  end.
Proof.
  intros Hop. destruct op; simpl; try done.
  - pose proof (add_message_counter now msg usr manual_priority s).
    destruct (PriorityMessageQueue.add_message _ _ _ _ _). done.
  - get_next_message_frame.
Qed.

Lemma run_counters ops s :
  existsb is_clear_all ops = false ->
  StronglySorted Z.lt (map counter (run ops s).1) /\
  Forall (fun c => PriorityMessageQueue.message_counter s < c)%Z
    (map counter (run ops s).1).
Proof.
  revert s. induction ops as [|op ops IH]; intros s Hops; simpl.
  { split; constructor. }
  simpl in Hops. apply orb_false_elim in Hops as [Hop Hops].
  pose proof (apply_op_counter op s Hop) as Hc.
  destruct (apply_op op s) as [m s']. simpl in Hc.
  destruct (IH s' Hops) as [Hsorted Hall].
  destruct (run ops s') as [ms s'']. simpl in *.
  destruct m as [m|].
  - destruct Hc as [Hm Hs']. rewrite Hs' in Hall. simpl. split.
    + constructor; [done|]. eapply Forall_impl; [exact Hall|].
      simpl. intros. lia.
    + constructor; [lia|]. eapply Forall_impl; [exact Hall|].
      simpl. intros. lia.
  - rewrite Hc in Hall. done.
Qed.

Lemma run_counters_NoDup ops s :
  existsb is_clear_all ops = false -> NoDup (map counter (run ops s).1).
Proof.
  intros Hops. destruct (run_counters ops s Hops) as [Hsorted _].
  induction Hsorted as [|c cs Hs IH Hc]; constructor; [|done].
  intros Hin. rewrite Forall_forall in Hc. specialize (Hc c Hin). lia.
Qed.

End Counters.

(** C3 (as the code has it): in every sequence of operations without
    [clear_all], from any state of the queue, the counters that
    [add_message] assigns are strictly increasing in admission order, all
    above the counter of the initial state, and no value is assigned
    twice; [clear_all] puts the counter back to 0. *)
Theorem counters_increase_between_resets `{CharTables}
    (ops : list operation) (s : PriorityMessageQueue.t) :
  existsb is_clear_all ops = false ->
  StronglySorted Z.lt (map counter (run ops s).1) /\
  Forall (fun c => PriorityMessageQueue.message_counter s < c)%Z
    (map counter (run ops s).1) /\
  NoDup (map counter (run ops s).1) /\
  PriorityMessageQueue.message_counter
    (PriorityMessageQueue.clear_all s).2 = 0%Z.
Proof.
  intros Hops. destruct (run_counters ops s Hops) as [Hsorted Hall].
  split; [done|]. split; [done|]. split; [|done].
  now apply run_counters_NoDup.
Qed.

Lemma counters_increase_between_resets_witness :
  let ops := [AddMessage 0 (str "a") (str "u") None; GetNextMessage;
              AddMessage 1 (str "b") (str "u") (Some 2%Z)] in
  let s := PriorityMessageQueue.init 1000 in
  StronglySorted Z.lt (map counter (run ops s).1) /\
  Forall (fun c => PriorityMessageQueue.message_counter s < c)%Z
    (map counter (run ops s).1) /\
  NoDup (map counter (run ops s).1) /\
  PriorityMessageQueue.message_counter
    (PriorityMessageQueue.clear_all s).2 = 0%Z.
Proof.
  apply (counters_increase_between_resets
           [AddMessage 0 (str "a") (str "u") None; GetNextMessage;
            AddMessage 1 (str "b") (str "u") (Some 2%Z)]
           (PriorityMessageQueue.init 1000)).
  reflexivity.
Defined.

(** C3 fails as stated: after [clear_all] the next admission is given
    the counter 1 again, so two different messages carry the same
    sequence value. *)
Lemma counter_reused_after_clear_all :
  let ops := [AddMessage 0 (str "a") (str "u") None; ClearAll;
              AddMessage 1 (str "b") (str "u") None] in
  let added := (run ops (PriorityMessageQueue.init 1000)).1 in
  map text added = [str "a"; str "b"] /\
  map counter added = [1; 1]%Z /\
  ~ StronglySorted Z.lt (map counter added) /\
  ~ NoDup (map counter added).
Proof.
  intros ops added.
  assert (map counter added = [1; 1]%Z) as E by (vm_compute; reflexivity).
  split; [vm_compute; reflexivity|]. split; [done|]. rewrite E. split.
  - intros Hs. inversion Hs as [|? ? _ Hall]; subst.
    inversion Hall as [|? ? Hlt _]; subst. by apply Z.lt_irrefl in Hlt.
  - intros Hn. inversion Hn as [|? ? Hnin _]; subst. apply Hnin. left.
Qed.

(* ================================================================== *)
(** * The history buffer *)
(* ================================================================== *)

(** A bounded deque that holds the last [maxlen] items of [l] holds the
    last [maxlen] items of [l ++ [x]] after [x] is appended. *)
Lemma deque_append_last {A} (maxlen : nat) (l : list A) (x : A) :
  CircularQueue.deque_append maxlen (drop (length l - maxlen) l) x
  = drop (length (l ++ [x]) - maxlen) (l ++ [x]).
Proof.
  unfold CircularQueue.deque_append.
  rewrite !length_app, length_drop. simpl.
  destruct (decide (maxlen < length l - (length l - maxlen) + 1)) as [Hlt|Hge].
  - rewrite <- drop_app_le by lia. rewrite drop_drop. f_equal. lia.
  - replace (length l - maxlen) with 0 by lia.
    replace (length l + 1 - maxlen) with 0 by lia. done.
Qed.

Section HistoryFacts.
Context `{CharTables}.

Lemma apply_op_history op s (l : list message) :
  is_clear_all op = false ->
  CircularQueue.queue (PriorityMessageQueue.history s)
    = drop (length l - CircularQueue.max_size (PriorityMessageQueue.history s)) l ->
  let l' := match (apply_op op s).1 with Some m => l ++ [m] | None => l end in
  let h' := PriorityMessageQueue.history (apply_op op s).2 in
  CircularQueue.max_size h'
    = CircularQueue.max_size (PriorityMessageQueue.history s) /\
  CircularQueue.queue h' = drop (length l' - CircularQueue.max_size h') l'.
Proof.
  intros Hop Hq. destruct op; simpl; try done.
  - pose proof (add_message_history now msg usr manual_priority s) as Hh.
    destruct (PriorityMessageQueue.add_message _ _ _ _ _) as [m s'].
    simpl in *. rewrite Hh. simpl. split; [done|].
    rewrite Hq. apply deque_append_last.
  - get_next_message_frame.
Qed.

Lemma run_history ops s (l : list message) :
  existsb is_clear_all ops = false ->
  CircularQueue.queue (PriorityMessageQueue.history s)
    = drop (length l - CircularQueue.max_size (PriorityMessageQueue.history s)) l ->
  let l' := l ++ (run ops s).1 in
  let h' := PriorityMessageQueue.history (run ops s).2 in
  CircularQueue.max_size h'
    = CircularQueue.max_size (PriorityMessageQueue.history s) /\
  CircularQueue.queue h' = drop (length l' - CircularQueue.max_size h') l'.
Proof.
  revert s l. induction ops as [|op ops IH]; intros s l Hops Hq; simpl.
  { rewrite app_nil_r. done. }
  simpl in Hops. apply orb_false_elim in Hops as [Hop Hops].
  destruct (apply_op_history op s l Hop Hq) as [Hmax Hq'].
  destruct (apply_op op s) as [m s']. simpl in Hmax, Hq'.
  destruct (IH s' _ Hops Hq') as [Hmax' Hq''].
  destruct (run ops s') as [ms s'']. simpl in *.
  split; [congruence|]. rewrite Hq''. destruct m; [|done].
  now rewrite <- app_assoc.
Qed.

End HistoryFacts.

(** C5: for every sequence of admissions (interleaved with any other
    operation but [clear_all]) into a queue created with capacity
    [capacity], the history holds at most [capacity] entries, namely the
    last [capacity] admitted messages in admission order; after
    [capacity + k] admissions it holds exactly [capacity] entries, which
    are the admitted messages without the oldest [k], none of which is
    still present. *)
Theorem history_keeps_last_capacity `{CharTables}
    (capacity : nat) (ops : list operation) :
  existsb is_clear_all ops = false ->
  let added := (run ops (PriorityMessageQueue.init capacity)).1 in
  let snapshot :=
    PriorityMessageQueue.get_history
      (run ops (PriorityMessageQueue.init capacity)).2 in
  length snapshot <= capacity /\
  snapshot = drop (length added - capacity) added /\
  forall k, length added = capacity + k ->
    length snapshot = capacity /\
    snapshot = drop k added /\
    forall m, m ∈ take k added -> m ∉ snapshot.
Proof.
  intros Hops added snapshot.
  destruct (run_history ops (PriorityMessageQueue.init capacity) [] Hops)
    as [Hmax Hq]; [done|].
  simpl in Hmax, Hq. rewrite Hmax in Hq.
  assert (snapshot = drop (length added - capacity) added) as Hsnap by done.
  split; [rewrite Hsnap, length_drop; lia|]. split; [done|].
  intros k Hk. replace (length added - capacity) with k in Hsnap by lia.
  split; [rewrite Hsnap, length_drop; lia|]. split; [done|].
  intros m Hin Hin'. rewrite Hsnap in Hin'.
  pose proof (run_counters_NoDup ops
                (PriorityMessageQueue.init capacity) Hops) as Hnd.
  apply NoDup_fmap_1 in Hnd. fold added in Hnd.
  rewrite <- (take_drop k added) in Hnd.
  apply NoDup_app in Hnd as (_ & Hdisj & _). by apply (Hdisj m).
Qed.

Lemma history_keeps_last_capacity_witness :
  let ops := [AddMessage 0 (str "a") (str "u") None;
              AddMessage 1 (str "b") (str "u") None;
              AddMessage 2 (str "c") (str "u") None] in
  let added := (run ops (PriorityMessageQueue.init 2)).1 in
  let snapshot :=
    PriorityMessageQueue.get_history (run ops (PriorityMessageQueue.init 2)).2 in
  length snapshot <= 2 /\
  snapshot = drop (length added - 2) added /\
  forall k, length added = 2 + k ->
    length snapshot = 2 /\
    snapshot = drop k added /\
    forall m, m ∈ take k added -> m ∉ snapshot.
Proof.
  apply (history_keeps_last_capacity 2
           [AddMessage 0 (str "a") (str "u") None;
            AddMessage 1 (str "b") (str "u") None;
            AddMessage 2 (str "c") (str "u") None]).
  reflexivity.
Defined.

(* ================================================================== *)
(** * The batch queue *)
(* ================================================================== *)

Lemma flush_loop_spec {A} (max_batch_size : nat) (queue batch : list A) :
  BatchQueue.flush_loop max_batch_size queue batch
  = (batch ++ take (max_batch_size - length batch) queue,
     drop (max_batch_size - length batch) queue).
Proof.
  revert batch. induction queue as [|m queue IH]; intros batch.
  { simpl. now rewrite take_nil, drop_nil, app_nil_r. }
  cbn [BatchQueue.flush_loop].
  destruct (decide (length batch < max_batch_size)) as [Hlt|Hge].
  - rewrite IH, length_app. cbn [length].
    destruct (max_batch_size - length batch) as [|d] eqn:Hd; [lia|].
    replace (max_batch_size - (length batch + 1)) with d by lia.
    cbn [take drop]. now rewrite <- app_assoc.
  - replace (max_batch_size - length batch) with 0 by lia.
    cbn [take drop]. now rewrite app_nil_r.
Qed.

(** C6: with [min_batch_size <= max_batch_size], [flush] returns the
    empty batch and leaves the queue as it is when fewer than
    [min_batch_size] messages are queued; otherwise it returns between
    [min_batch_size] and [max_batch_size] messages, namely the oldest
    ones in order (as many as [max_batch_size] allows), and removes from
    the queue exactly the messages it returns. *)
Theorem flush_batch_bounds {A} (self : BatchQueue.t A) :
  BatchQueue.min_batch_size self <= BatchQueue.max_batch_size self ->
  let batch := (BatchQueue.flush self).1 in
  let self' := (BatchQueue.flush self).2 in
  (length (BatchQueue.queue self) < BatchQueue.min_batch_size self ->
   batch = [] /\ self' = self) /\
  (BatchQueue.min_batch_size self <= length (BatchQueue.queue self) ->
   BatchQueue.min_batch_size self <= length batch
     <= BatchQueue.max_batch_size self /\
   length batch
     = Nat.min (length (BatchQueue.queue self)) (BatchQueue.max_batch_size self) /\
   BatchQueue.queue self = batch ++ BatchQueue.queue self' /\
   BatchQueue.min_batch_size self' = BatchQueue.min_batch_size self /\
   BatchQueue.max_batch_size self' = BatchQueue.max_batch_size self).
Proof.
  intros Hle batch self'. subst batch self'. unfold BatchQueue.flush.
  destruct (decide (length (BatchQueue.queue self)
                    < BatchQueue.min_batch_size self)) as [Hlt|Hge].
  - split; [done|]. lia.
  - split; [lia|]. intros _. rewrite flush_loop_spec. simpl.
    rewrite Nat.sub_0_r, take_drop, length_take.
    repeat split; lia.
Qed.

Lemma flush_batch_bounds_witness :
  let self := {| BatchQueue.queue := [1; 2; 3; 4];
                 BatchQueue.min_batch_size := 2;
                 BatchQueue.max_batch_size := 3 |} in
  (BatchQueue.flush self).1 = [1; 2; 3] /\
  BatchQueue.queue (BatchQueue.flush self).2 = [4] /\
  (2 <= length (BatchQueue.flush self).1 <= 3).
Proof.
  pose proof (flush_batch_bounds
                {| BatchQueue.queue := [1; 2; 3; 4];
                   BatchQueue.min_batch_size := 2;
                   BatchQueue.max_batch_size := 3 |}) as Hf.
  simpl in Hf. specialize (Hf ltac:(lia)). destruct Hf as [_ Hf].
  specialize (Hf ltac:(lia)). destruct Hf as (Hb & _).
  split; [reflexivity|]. split; [reflexivity|]. exact Hb.
Defined.

(* ================================================================== *)
(** * The retry queue *)
(* ================================================================== *)

Section RetryFacts.
Context {A : Type}.

Lemma process_cases (now : Q) (self : RetryQueue.t A) :
  let r := (RetryQueue.process now self).1 in
  let self' := (RetryQueue.process now self).2 in
  RetryQueue.max_retries self' = RetryQueue.max_retries self /\
  ((r = None /\ self' = self /\
    forall m a d rest, RetryQueue.queue self = (m, a, d) :: rest ->
      ~ (d <= now)%Q) \/
   (exists m a d rest,
      RetryQueue.queue self = (m, a, d) :: rest /\
      RetryQueue.queue self' = rest /\
      (d <= now)%Q /\
      r = if decide (a < RetryQueue.max_retries self) then Some m else None)).
Proof.
  unfold RetryQueue.process, RetryQueue.get_ready_message.
  destruct (RetryQueue.queue self) as [|[[m a] d] rest] eqn:Hq; simpl.
  { split; [done|]. left. done. }
  unfold RetryQueue.time_reached.
  destruct (Qle_bool d now) eqn:Hd; simpl.
  - apply Qle_bool_iff in Hd.
    destruct (decide (a < RetryQueue.max_retries self)) as [Ha|Ha]; simpl;
      (split; [done|]); right; exists m, a, d, rest.
    + rewrite decide_True by done. done.
    + rewrite decide_False by done. done.
  - split; [done|]. left. split; [done|]. split; [done|].
    intros ? ? ? ? [= <- <- <- <-] Hle. apply Qle_bool_iff in Hle. congruence.
Qed.



End RetryFacts.


(* ================================================================== *)
(** * Priority detection *)
(* ================================================================== *)

(** C7: admitted without a manual priority, the text "this is
    urgent!!!" is URGENT (the urgent keyword wins over the three
    exclamation marks), "PLEASE REVIEW NOW" is HIGH, "hello @bob" is
    HIGH and "hi" is NORMAL, each with provenance "auto"; admitted with
    [manual_priority = 1], "hi" is URGENT with provenance "manual". *)
Theorem priority_detection_examples (now : Q) (usr : list ascii)
    (s : PriorityMessageQueue.t) :
  let add msg manual_priority :=
    (PriorityMessageQueue.add_message (H := latin1_tables)
       now msg usr manual_priority s).1 in
  (priority (add (str "this is urgent!!!") None) = 1%Z /\
   priority_name (add (str "this is urgent!!!") None) = str "URGENT" /\
   detection_method (add (str "this is urgent!!!") None) = str "auto") /\
  (priority (add (str "PLEASE REVIEW NOW") None) = 2%Z /\
   priority_name (add (str "PLEASE REVIEW NOW") None) = str "HIGH" /\
   detection_method (add (str "PLEASE REVIEW NOW") None) = str "auto") /\
  (priority (add (str "hello @bob") None) = 2%Z /\
   priority_name (add (str "hello @bob") None) = str "HIGH" /\
   detection_method (add (str "hello @bob") None) = str "auto") /\
  (priority (add (str "hi") None) = 3%Z /\
   priority_name (add (str "hi") None) = str "NORMAL" /\
   detection_method (add (str "hi") None) = str "auto") /\
  (priority (add (str "hi") (Some 1%Z)) = 1%Z /\
   priority_name (add (str "hi") (Some 1%Z)) = str "URGENT" /\
   detection_method (add (str "hi") (Some 1%Z)) = str "manual").
Proof.
  intros add. subst add. unfold PriorityMessageQueue.add_message.
  cbn [fst priority priority_name detection_method Z.eqb].
  assert (auto_detect_priority (H := latin1_tables) (str "this is urgent!!!")
          = 1%Z) as -> by (vm_compute; reflexivity).
  assert (auto_detect_priority (H := latin1_tables) (str "PLEASE REVIEW NOW")
          = 2%Z) as -> by (vm_compute; reflexivity).
  assert (auto_detect_priority (H := latin1_tables) (str "hello @bob")
          = 2%Z) as -> by (vm_compute; reflexivity).
  assert (auto_detect_priority (H := latin1_tables) (str "hi")
          = 3%Z) as -> by (vm_compute; reflexivity).
  repeat split.
Qed.

(** The rules that decide the four texts: "PLEASE REVIEW NOW" contains
    the keyword "review" once lower-cased and is also upper-case and
    longer than 5; "this is urgent!!!" also has three exclamation
    marks. *)
Lemma detection_rules_of_examples :
  contains (str "urgent") (strip (lower (str "this is urgent!!!"))) = true /\
  (3 <= count "!"%char (str "this is urgent!!!")) /\
  contains (str "review") (strip (lower (str "PLEASE REVIEW NOW"))) = true /\
  isupper (str "PLEASE REVIEW NOW") = true /\
  contains (str "@") (str "hello @bob") = true.
Proof. repeat split; vm_compute; reflexivity. Qed.

(* ================================================================== *)
(** * Validation *)
(* ================================================================== *)

Section ValidationFacts.
Context `{CharTables}.

Lemma validate_message_valid (msg : list ascii) :
  valid (validate_message msg) = false <->
  strip msg = [] \/ 2000 < length (strip msg).
Proof.
  unfold validate_message. destruct (strip msg) as [|c rest] eqn:E.
  - simpl. split; [now left|done].
  - destruct (decide (2000 < length (c :: rest))); simpl.
    + split; [now right|done].
    + split; [done|]. intros [?|?]; [done|]. exfalso. by apply n.
Qed.

Lemma re_sub_disallowed_all (s : list ascii) :
  Forall (fun c => allowed_in_username c = false) s ->
  re_sub_disallowed s = [].
Proof.
  unfold re_sub_disallowed. induction 1 as [|c s Hc _ IH]; simpl; [done|].
  now rewrite Hc.
Qed.

End ValidationFacts.

(** C10: a user name that is not empty after trimming and consists only
    of characters that are neither word characters nor dashes nor white
    space is sanitized to the empty name, not to "Anonymous": the
    placeholder is substituted before the disallowed characters are
    removed. *)
Theorem username_of_disallowed_characters_is_empty `{CharTables}
    (username : list ascii) :
  strip username <> [] ->
  Forall (fun c => allowed_in_username c = false) (strip username) ->
  validate_username username = [] /\ validate_username username <> str "Anonymous".
Proof.
  intros Hne Hall. assert (validate_username username = []) as E; [|by rewrite E].
  unfold validate_username. destruct (strip username) as [|c rest]; [done|].
  destruct (decide (50 < length (c :: rest))).
  - rewrite re_sub_disallowed_all; [done|]. now apply Forall_take.
  - now rewrite re_sub_disallowed_all.
Qed.

Lemma username_of_disallowed_characters_is_empty_witness :
  validate_username (H := latin1_tables) (str " !?#$ ") = [] /\
  validate_username (H := latin1_tables) (str " !?#$ ") <> str "Anonymous".
Proof.
  apply (username_of_disallowed_characters_is_empty (H := latin1_tables)
           (str " !?#$ ")).
  - vm_compute. discriminate.
  - vm_compute. repeat constructor.
Defined.

(** A name that is empty after trimming does get the placeholder. *)
Lemma username_blank_is_anonymous `{CharTables} (username : list ascii) :
  strip username = [] ->
  validate_username username
    = html_escape (re_sub_disallowed (str "Anonymous")).
Proof. intros E. unfold validate_username. now rewrite E. Qed.

Example username_blank_ascii :
  validate_username (H := latin1_tables) (str "   ") = str "Anonymous".
Proof. vm_compute. reflexivity. Qed.

(* ================================================================== *)
(** * The handlers *)
(* ================================================================== *)

Section HandlerFacts.
Context `{CharTables}.
Context (int_of_str : list ascii -> option Z).
Context (format_timestamp : Q -> list ascii).
Context (now : Q) (send : nat -> bool).

Lemma add_message_then_next msg usr mp s :
  exists m,
    (PriorityMessageQueue.get_next_message
       (PriorityMessageQueue.add_message now msg usr mp s).2).1 = Some m.
Proof.
  pose proof (add_message_queue now msg usr mp s) as Hq.
  destruct (PriorityMessageQueue.add_message now msg usr mp s) as [m0 s'].
  simpl in *. unfold PriorityMessageQueue.get_next_message.
  destruct (PriorityMessageQueue.priority_queue s') as [|e q] eqn:E.
  { apply (f_equal length) in Hq. rewrite heappush_length in Hq. done. }
  destruct (heappop_is_Some entry_lt (e :: q)) as [[[[p c] m] heap'] ->];
    [done|].
  eauto.
Qed.

Lemma process_retry_queue_loop_no_error rq log k :
  Forall (fun e => is_error_event e = false) log ->
  Forall (fun e => is_error_event e = false)
    (ChatSocketHandlers.process_retry_queue_loop now send rq log k).1.2.
Proof.
  funelim (ChatSocketHandlers.process_retry_queue_loop now send rq log k);
    try clear Heqcall; intros Hlog; simpl; try done.
  - apply H0. apply Forall_app. split; [done|]. repeat constructor.
  - now apply H0.
Qed.

(** Every item of the retry queue that the drain step leaves behind was
    in the queue before or has the retry count 0. *)
Lemma process_retry_queue_loop_counts rq log k :
  Forall (fun it : RetryQueue.item Wire.t => it.1.2 = 0) (RetryQueue.queue rq) ->
  Forall (fun it : RetryQueue.item Wire.t => it.1.2 = 0)
    (RetryQueue.queue
       (ChatSocketHandlers.process_retry_queue_loop now send rq log k).1.1).
Proof.
  funelim (ChatSocketHandlers.process_retry_queue_loop now send rq log k);
    try clear Heqcall; intros Hq; simpl.
  all: pose proof (process_cases now rq) as [_ Hp].
  all: match goal with E : RetryQueue.process _ _ = _ |- _ =>
         rewrite E in Hp; simpl in Hp end.
  all: assert (Forall (fun it : RetryQueue.item Wire.t => it.1.2 = 0)
                 (RetryQueue.queue rq')) as Hq'
         by (destruct Hp as [(_ & -> & _)|(? & ? & ? & ? & Hs & -> & _)];
             [done|rewrite Hs in Hq; now inversion Hq]).
  - done.
  - now apply H0.
  - apply H0. simpl. apply Forall_app. split; [done|]. repeat constructor.
Qed.

End HandlerFacts.

(** C9: a submission whose text is empty after trimming, or longer than
    2000 characters after trimming, is answered with a validation error
    to the sender, and the handlers' state is the one before the
    submission: priority queue, history, batch queue and retry queue
    are unchanged. *)
Theorem rejected_submission_changes_nothing `{CharTables}
    (int_of_str : list ascii -> option Z) (format_timestamp : Q -> list ascii)
    (now : Q) (send : nat -> bool)
    (data : request) (self : ChatSocketHandlers.t) :
  let raw_message := default (str "") (req_message data) in
  strip raw_message = [] \/ 2000 < length (strip raw_message) ->
  let out :=
    ChatSocketHandlers.on_send_message int_of_str format_timestamp now send
      data self in
  ChatSocketHandlers.state out = self /\
  ChatSocketHandlers.returned out = false /\
  ChatSocketHandlers.emitted out
    = [EmitError (str "validation_error")
         (if decide (strip raw_message = [])
          then str "Message cannot be empty"
          else str "Message too long (max 2000 characters)")].
Proof.
  intros raw_message Hbad out. subst out.
  unfold ChatSocketHandlers.on_send_message. fold raw_message.
  apply validate_message_valid in Hbad as Hv. rewrite Hv. simpl.
  split; [done|]. split; [done|]. f_equal. f_equal.
  unfold validate_message. destruct (strip raw_message) as [|c rest]; [done|].
  destruct Hbad as [?|Hlen]; [done|].
  rewrite decide_True by done. now rewrite decide_False.
Qed.

Lemma rejected_submission_changes_nothing_witness :
  let data := {| req_message := Some (str "   ");
                 req_user := Some (str "al");
                 req_priority := Some (PyInt 1) |} in
  let self := ChatSocketHandlers.init (PriorityMessageQueue.init 1000) in
  let out :=
    ChatSocketHandlers.on_send_message (H := latin1_tables)
      (fun _ => None) (fun _ => str "00:00:00") 0 (fun _ => true) data self in
  ChatSocketHandlers.state out = self /\
  ChatSocketHandlers.returned out = false /\
  ChatSocketHandlers.emitted out
    = [EmitError (str "validation_error") (str "Message cannot be empty")].
Proof.
  apply (rejected_submission_changes_nothing (H := latin1_tables)
           (fun _ => None) (fun _ => str "00:00:00") 0 (fun _ => true)
           {| req_message := Some (str "   ");
              req_user := Some (str "al");
              req_priority := Some (PyInt 1) |}
           (ChatSocketHandlers.init (PriorityMessageQueue.init 1000))).
  left. vm_compute. reflexivity.
Defined.

(** C8 fails as stated: [add_message] itself applies any manual priority
    other than 0, valid or not, with provenance "manual". *)
Lemma add_message_keeps_invalid_priority :
  let m := (PriorityMessageQueue.add_message (H := latin1_tables)
              0 (str "hi") (str "al") (Some 7%Z)
              (PriorityMessageQueue.init 1000)).1 in
  priority m = 7%Z /\
  detection_method m = str "manual" /\
  ~ (priority m = auto_detect_priority (H := latin1_tables) (str "hi") /\
     detection_method m = str "auto").
Proof.
  split; [reflexivity|]. split; [reflexivity|]. intros [Hp _].
  vm_compute in Hp. discriminate.
Qed.

(** C8 (as the code has it): the values that are not priority codes are
    discarded by [on_send_message], before [add_message] is called.  For
    every submission with a valid text whose ['priority'] value converts
    to an integer outside 1..4, or does not convert ([ValueError],
    [TypeError]), the message is admitted as by [add_message] without a
    manual priority: it has the priority of automatic detection and the
    provenance "auto"; the handler succeeds and emits no error. *)
Theorem invalid_priority_is_discarded_by_handler `{CharTables}
    (int_of_str : list ascii -> option Z) (format_timestamp : Q -> list ascii)
    (now : Q) (send : nat -> bool)
    (data : request) (self : ChatSocketHandlers.t) (v : pyvalue) :
  req_priority data = Some v ->
  invalid_priority int_of_str v ->
  let raw_message := default (str "") (req_message data) in
  let raw_user := default (str "Anonymous") (req_user data) in
  valid (validate_message raw_message) = true ->
  let clean_message := sanitized_message (validate_message raw_message) in
  let added :=
    PriorityMessageQueue.add_message now clean_message
      (validate_username raw_user) None
      (ChatSocketHandlers.message_system self) in
  let out :=
    ChatSocketHandlers.on_send_message int_of_str format_timestamp now send
      data self in
  priority added.1 = auto_detect_priority clean_message /\
  detection_method added.1 = str "auto" /\
  ChatSocketHandlers.message_system (ChatSocketHandlers.state out)
    = (PriorityMessageQueue.get_next_message added.2).2 /\
  ChatSocketHandlers.returned out = true /\
  Forall (fun e => is_error_event e = false) (ChatSocketHandlers.emitted out).
Proof.
  intros Hv Hinv raw_message raw_user Hvalid clean_message added out.
  split; [done|]. split; [done|]. subst out.
  unfold ChatSocketHandlers.on_send_message.
  fold raw_message raw_user. rewrite Hvalid. cbn [negb].
  assert (ChatSocketHandlers.priority_override int_of_str (req_priority data)
          = inl None) as ->.
  { rewrite Hv. unfold ChatSocketHandlers.priority_override.
    unfold invalid_priority in Hinv.
    destruct (ChatSocketHandlers.py_int int_of_str v) as [p| | |]; try done.
    destruct ((p =? 1)%Z || (p =? 2)%Z || (p =? 3)%Z || (p =? 4)%Z) eqn:E;
      [lia|done]. }
  fold clean_message. fold added.
  destruct (add_message_then_next now clean_message
              (validate_username raw_user) None
              (ChatSocketHandlers.message_system self)) as [next Hnext].
  fold added in Hnext.
  destruct added as [message_obj ms]. simpl in Hnext |- *.
  destruct (PriorityMessageQueue.get_next_message ms) as [r ms2].
  simpl in Hnext. subst r.
  destruct (BatchQueue.flush _) as [batch bq].
  set (start := match batch with
                | [] => (ChatSocketHandlers.retry_queue self, [], 0)
                | _ :: _ =>
                    if send 0
                    then (ChatSocketHandlers.retry_queue self,
                          [EmitBatch batch], 1)
                    else (ChatSocketHandlers.enqueue_all now batch
                            (ChatSocketHandlers.retry_queue self), [], 1)
                end).
  assert (Forall (fun e => is_error_event e = false) start.1.2) as Hstart.
  { subst start. destruct batch; [constructor|].
    destruct (send 0); repeat constructor. }
  destruct start as [[rq log] k]. unfold ChatSocketHandlers.process_retry_queue.
  pose proof (process_retry_queue_loop_no_error now send rq log k Hstart) as Hl.
  destruct (ChatSocketHandlers.process_retry_queue_loop now send rq log k)
    as [[rq' log'] k'].
  done.
Qed.

Lemma invalid_priority_is_discarded_by_handler_witness :
  let data := {| req_message := Some (str "hi");
                 req_user := Some (str "al");
                 req_priority := Some (PyInt 7) |} in
  let self := ChatSocketHandlers.init (PriorityMessageQueue.init 1000) in
  let added :=
    PriorityMessageQueue.add_message (H := latin1_tables) 0 (str "hi") (str "al")
      None (PriorityMessageQueue.init 1000) in
  let out :=
    ChatSocketHandlers.on_send_message (H := latin1_tables)
      (fun _ => None) (fun _ => str "00:00:00") 0 (fun _ => true) data self in
  priority added.1 = 3%Z /\
  detection_method added.1 = str "auto" /\
  ChatSocketHandlers.message_system (ChatSocketHandlers.state out)
    = (PriorityMessageQueue.get_next_message added.2).2 /\
  ChatSocketHandlers.returned out = true /\
  Forall (fun e => is_error_event e = false) (ChatSocketHandlers.emitted out).
Proof.
  apply (invalid_priority_is_discarded_by_handler (H := latin1_tables)
           (fun _ => None) (fun _ => str "00:00:00") 0 (fun _ => true)
           {| req_message := Some (str "hi");
              req_user := Some (str "al");
              req_priority := Some (PyInt 7) |}
           (ChatSocketHandlers.init (PriorityMessageQueue.init 1000))
           (PyInt 7)).
  - reflexivity.
  - cbv [invalid_priority ChatSocketHandlers.py_int]. lia.
  - vm_compute. reflexivity.
Defined.

(** C2 does not hold of the code: when the redelivery of a message taken
    from the retry queue fails, the drain step queues the message again
    with [enqueue(retry_msg)], that is with retry count 0 and the
    deadline [now + 2^0], whatever count [a] the item had; the loop then
    goes on with that queue. *)
Theorem failed_redelivery_requeues_with_count_zero
    (now : Q) (send : nat -> bool) (rq : RetryQueue.t Wire.t)
    (log : list event) (k : nat)
    (m : Wire.t) (a : nat) (d : Q) (rest : list (RetryQueue.item Wire.t)) :
  RetryQueue.queue rq = (m, a, d) :: rest ->
  (d <= now)%Q ->
  a < RetryQueue.max_retries rq ->
  send k = false ->
  ChatSocketHandlers.process_retry_queue now send rq log k
  = ChatSocketHandlers.process_retry_queue now send
      {| RetryQueue.queue := rest ++ [(m, 0, RetryQueue.backoff_deadline now 0)];
         RetryQueue.max_retries := RetryQueue.max_retries rq |}
      log (S k).
Proof.
  unfold ChatSocketHandlers.process_retry_queue.
  funelim (ChatSocketHandlers.process_retry_queue_loop now send rq log k);
    try clear Heqcall; intros Hq Hd Ha Hsend.
  all: assert (RetryQueue.process now rq
          = (Some m, {| RetryQueue.queue := rest;
                        RetryQueue.max_retries := RetryQueue.max_retries rq |}))
    as Hp by (unfold RetryQueue.process, RetryQueue.get_ready_message;
              rewrite Hq; unfold RetryQueue.time_reached;
              apply Qle_bool_iff in Hd; rewrite Hd; now rewrite decide_True).
  all: match goal with E : RetryQueue.process _ _ = _ |- _ =>
         rewrite E in Hp; injection Hp as ? ?; subst end.
  all: try congruence.
  reflexivity.
Qed.

Lemma failed_redelivery_requeues_with_count_zero_witness :
  let m := {| Wire.text := str "hi"; Wire.user := str "al";
              Wire.priority := 3; Wire.priority_name := str "NORMAL";
              Wire.timestamp := 0; Wire.formatted_time := str "00:00:00";
              Wire.detection_method := str "auto" |} in
  let rq := RetryQueue.enqueue 0 m 0 (RetryQueue.init 5) in
  RetryQueue.queue rq = [(m, 0, RetryQueue.backoff_deadline 0 0)] /\
  ChatSocketHandlers.process_retry_queue 1 (fun _ => false) rq [] 0
  = ({| RetryQueue.queue := [(m, 0, RetryQueue.backoff_deadline 1 0)];
        RetryQueue.max_retries := 5 |}, [], 1).
Proof.
  intros m rq. split; [reflexivity|].
  rewrite (failed_redelivery_requeues_with_count_zero 1 (fun _ => false)
             rq [] 0 m 0 (RetryQueue.backoff_deadline 0 0) []).
  - reflexivity.
  - reflexivity.
  - vm_compute. discriminate.
  - vm_compute. lia.
  - reflexivity.
Defined.

(** As a consequence, every item that the drain step leaves in the
    retry queue has the retry count 0 if the items before it had: the
    back-off of a message never grows and [max_retries] is never
    reached. *)
Lemma retry_counts_stay_zero (now : Q) (send : nat -> bool)
    (rq : RetryQueue.t Wire.t) (log : list event) (k : nat) :
  Forall (fun it : RetryQueue.item Wire.t => it.1.2 = 0) (RetryQueue.queue rq) ->
  Forall (fun it : RetryQueue.item Wire.t => it.1.2 = 0)
    (RetryQueue.queue
       (ChatSocketHandlers.process_retry_queue now send rq log k).1.1).
Proof. apply process_retry_queue_loop_counts. Qed.

(* ================================================================== *)
(** * More of the priority queue *)
(* ================================================================== *)

(** [heappop] returns the first item of the array, heap or not. *)
Lemma heappop_head {A} (lt : A -> A -> bool) heap x heap' :
  heappop lt heap = Some (x, heap') -> heap !! 0 = Some x.
Proof.
  unfold heappop. destruct (list_pop heap) as [[h lastelt]|] eqn:E; [|done].
  apply list_pop_spec in E as ->. destruct h as [|r t]; intros [= <- _]; done.
Qed.

(** X1: [peek_next_message] returns what the next [get_next_message]
    call returns, in every state of the queue: the message at the front
    of the array, or [None] when nothing is pending. *)
Theorem peek_is_next_message (s : PriorityMessageQueue.t) :
  PriorityMessageQueue.peek_next_message s
  = (PriorityMessageQueue.get_next_message s).1.
Proof.
  unfold PriorityMessageQueue.peek_next_message,
    PriorityMessageQueue.get_next_message.
  destruct (PriorityMessageQueue.priority_queue s) as [|e0 q]; [done|].
  destruct (heappop_is_Some entry_lt (e0 :: q)) as [[x heap'] Hpop]; [done|].
  rewrite Hpop. apply heappop_head in Hpop. simpl in Hpop.
  injection Hpop as ->. destruct x as [[p c] m]. done.
Qed.

Section AdmissionFacts.
Context `{CharTables}.

Lemma auto_detect_priority_range (msg : list ascii) :
  auto_detect_priority msg = 1%Z \/ auto_detect_priority msg = 2%Z \/
  auto_detect_priority msg = 3%Z.
Proof. unfold auto_detect_priority. repeat case_match; auto. Qed.

Lemma add_message_fields now msg usr mp s :
  let m := (PriorityMessageQueue.add_message now msg usr mp s).1 in
  text m = msg /\ user m = usr /\ timestamp m = now /\
  priority_name m = get_priority_name (priority m) /\
  match mp with
  | Some p =>
      if (p =? 0)%Z
      then priority m = auto_detect_priority msg /\
           detection_method m = str "auto"
      else priority m = p /\ detection_method m = str "manual"
  | None =>
      priority m = auto_detect_priority msg /\ detection_method m = str "auto"
  end.
Proof.
  unfold PriorityMessageQueue.add_message.
  destruct mp as [p|]; [destruct (p =? 0)%Z|]; done.
Qed.

End AdmissionFacts.

(** X2: the message object that [add_message] creates carries the text,
    user and clock reading it was given and the name of its priority;
    its provenance is "auto" or "manual"; an automatic priority is
    URGENT, HIGH or NORMAL, never LOW, and a manual one is the given
    value, which is not 0, whether or not it is a priority code (its
    name is then "NORMAL"). *)
Theorem add_message_provenance `{CharTables} (now : Q) (msg usr : list ascii)
    (manual_priority : option Z) (s : PriorityMessageQueue.t) :
  let m := (PriorityMessageQueue.add_message now msg usr manual_priority s).1 in
  text m = msg /\ user m = usr /\ timestamp m = now /\
  priority_name m = get_priority_name (priority m) /\
  ((detection_method m = str "auto" /\
    (priority m = 1 \/ priority m = 2 \/ priority m = 3)%Z /\
    (manual_priority = None \/ manual_priority = Some 0%Z)) \/
   (detection_method m = str "manual" /\
    manual_priority = Some (priority m) /\ priority m <> 0%Z /\
    (~ (1 <= priority m <= 4)%Z -> priority_name m = str "NORMAL"))).
Proof.
  intros m. destruct (add_message_fields now msg usr manual_priority s)
    as (Ht & Hu & Hts & Hn & Hp). fold m in Ht, Hu, Hts, Hn, Hp.
  split; [done|]. split; [done|]. split; [done|]. split; [done|].
  pose proof (auto_detect_priority_range msg) as Hr.
  destruct manual_priority as [p|]; [destruct (p =? 0)%Z eqn:E|].
  - destruct Hp as [-> ->]. left. split; [done|]. split; [done|]. right.
    f_equal. lia.
  - destruct Hp as [Hp ->]. right. split; [done|]. split; [by rewrite Hp|].
    split; [lia|]. intros Hout. rewrite Hn. unfold get_priority_name.
    repeat case_match; try done; lia.
  - destruct Hp as [-> ->]. left. split; [done|]. split; [done|]. by left.
Qed.

(** X3: in every history of the queue, the message just added is the
    one the next [get_next_message] call returns exactly when its
    priority code is strictly below that of every pending message: among
    equal priorities the older message goes first.  In any case the call
    returns a message that is ordered no later than the new one. *)
Theorem new_message_is_next_iff_most_urgent `{CharTables}
    (max_history_size : nat) (ops : list operation)
    (now : Q) (msg usr : list ascii) (manual_priority : option Z) :
  let s := (run ops (PriorityMessageQueue.init max_history_size)).2 in
  let added := PriorityMessageQueue.add_message now msg usr manual_priority s in
  let next := (PriorityMessageQueue.get_next_message added.2).1 in
  (exists m, next = Some m /\ msg_le m added.1) /\
  (next = Some added.1 <->
   forall e : entry, e ∈ PriorityMessageQueue.priority_queue s ->
     (priority added.1 < e.1.1)%Z).
Proof.
  intros s added next.
  assert (pending_ok s) as Hs by apply run_ok, init_ok.
  pose proof (add_message_ok now msg usr manual_priority s Hs) as Hs'.
  pose proof (add_message_queue now msg usr manual_priority s) as Hq.
  destruct (add_message_counter now msg usr manual_priority s) as [Hc _].
  fold added in Hs', Hq, Hc.
  destruct (heappush_spec entry_lt entry_lt_asym entry_le_trans
              (PriorityMessageQueue.priority_queue s) (entry_of added.1))
    as [_ Hperm]; [apply Hs|]. rewrite <- Hq in Hperm.
  pose proof (get_next_message_spec added.2 Hs') as Hn. subst next.
  destruct (PriorityMessageQueue.get_next_message added.2) as [[m|] s''];
    simpl.
  2:{ destruct Hn as [Hnil _]. rewrite Hnil in Hperm.
      by apply Permutation_nil_cons in Hperm. }
  destruct Hn as (_ & Hperm2 & Hmin & _).
  destruct Hs as (_ & Hall & _). rewrite Forall_forall in Hall.
  split.
  - exists m. split; [done|]. apply entry_le_msg_le, Hmin.
    rewrite Hperm. left.
  - split.
    + intros [= ->] e He. destruct (Hall e He) as [Hee Hrange].
      assert (entry_lt e (entry_of added.1) = false) as Hlt.
      { apply Hmin. rewrite Hperm. by right. }
      rewrite Hee in Hlt |- *. unfold entry_lt, entry_of in Hlt. simpl in *.
      lia.
    + intros Hless. f_equal.
      assert (entry_of m ∈ entry_of added.1
                :: PriorityMessageQueue.priority_queue s) as Hin.
      { rewrite <- Hperm, Hperm2. left. }
      apply elem_of_cons in Hin as [Heq|Hin]; [by injection Heq|].
      specialize (Hless _ Hin).
      assert (entry_lt (entry_of added.1) (entry_of m) = false) as Hlt.
      { apply Hmin. rewrite Hperm. left. }
      unfold entry_lt, entry_of in Hlt. simpl in *. lia.
Qed.

(* ================================================================== *)
(** * Counting by name *)
(* ================================================================== *)

Lemma dict_get_set (d : counts) (key key' : list ascii) (v default : nat) :
  dict_get (dict_set d key v) key' default
  = if decide (key = key') then v else dict_get d key' default.
Proof.
  induction d as [|[k w] d IH]; simpl.
  - destruct (decide (key = key')); done.
  - destruct (decide (k = key)) as [->|Hk]; simpl.
    + destruct (decide (key = key')); done.
    + destruct (decide (k = key')) as [->|Hk'].
      * rewrite decide_False by done. done.
      * apply IH.
Qed.

Lemma dict_set_keys (d : counts) (key : list ascii) (v : nat) :
  (dict_set d key v).*1
  = if decide (key ∈ d.*1) then d.*1 else d.*1 ++ [key].
Proof.
  induction d as [|[k w] d IH]; [done|]. cbn [dict_set].
  destruct (decide (k = key)) as [->|Hk]; rewrite !fmap_cons; cbn [fst].
  - rewrite decide_True by left. done.
  - rewrite IH. destruct (decide (key ∈ d.*1)) as [Hin|Hin].
    + rewrite decide_True by (by right). done.
    + rewrite decide_False; [done|]. intros [?|?]%elem_of_cons; done.
Qed.

Lemma dict_set_sum (d : counts) (key : list ascii) (v : nat) :
  sum_list (dict_set d key v).*2 + dict_get d key 0 = sum_list d.*2 + v.
Proof.
  induction d as [|[k w] d IH]; [simpl; lia|]. simpl in *.
  destruct (decide (k = key)) as [->|Hk]; simpl in *; unfold id, fmap in *;
    lia.
Qed.

Lemma dict_incr_sum (d : counts) (key : list ascii) :
  sum_list (dict_incr d key).*2 = S (sum_list d.*2).
Proof.
  unfold dict_incr.
  pose proof (dict_set_sum d key (dict_get d key 0 + 1)). lia.
Qed.

Section Counting.
Context {A : Type} (name : A -> list ascii).

(** The dictionary obtained by counting the names of [l] into [d]. *)
Lemma count_names_get (l : list A) (d : counts) (key : list ascii) :
  dict_get (foldl (fun d x => dict_incr d (name x)) d l) key 0
  = dict_get d key 0 + length (filter (fun x => name x = key) l).
Proof.
  revert d. induction l as [|x l IH]; intros d; simpl; [lia|].
  rewrite IH. unfold dict_incr at 1. rewrite dict_get_set, filter_cons.
  destruct (decide (name x = key)) as [->|Hne]; simpl; lia.
Qed.

Lemma count_names_sum (l : list A) (d : counts) :
  sum_list (foldl (fun d x => dict_incr d (name x)) d l).*2
  = sum_list d.*2 + length l.
Proof.
  revert d. induction l as [|x l IH]; intros d; simpl; [lia|].
  rewrite IH, dict_incr_sum. lia.
Qed.

Lemma count_names_keys (l : list A) (d : counts) :
  NoDup d.*1 ->
  NoDup (foldl (fun d x => dict_incr d (name x)) d l).*1 /\
  forall key, key ∈ (foldl (fun d x => dict_incr d (name x)) d l).*1 <->
    key ∈ d.*1 \/ key ∈ name <$> l.
Proof.
  revert d. induction l as [|x l IH]; intros d Hd; simpl.
  { split; [done|]. intros key. rewrite elem_of_nil. tauto. }
  assert (NoDup (dict_incr d (name x)).*1 /\
          forall key, key ∈ (dict_incr d (name x)).*1 <->
            key ∈ d.*1 \/ key = name x) as [Hd' Hk].
  { unfold dict_incr. rewrite dict_set_keys.
    destruct (decide (name x ∈ d.*1)) as [Hin|Hin].
    - split; [done|]. intros key. split; [tauto|]. intros [?| ->]; done.
    - split.
      + apply NoDup_app. split; [done|]. split; [|apply NoDup_singleton].
        intros y Hy ->%list_elem_of_singleton. done.
      + intros key. rewrite elem_of_app, list_elem_of_singleton. done. }
  destruct (IH _ Hd') as [Hnd Hkeys]. split; [done|].
  intros key. rewrite Hkeys, Hk, elem_of_cons. tauto.
Qed.

End Counting.

(** X4: the statistics of [get_queue_stats] count the pending messages
    only: [total_messages] is their number; the breakdown holds, for
    each name, the number of pending messages whose priority has this
    name (0 for a name that is absent), so that its values add up to
    [total_messages]; its keys are pairwise different and are names of
    pending priorities, a priority that is not a code being counted
    under "NORMAL". *)
Theorem queue_stats_count_pending (s : PriorityMessageQueue.t) :
  let stats := get_queue_stats s in
  let pending := PriorityMessageQueue.priority_queue s in
  total_messages stats = length pending /\
  history_size stats = length (PriorityMessageQueue.get_history s) /\
  (forall name,
     dict_get (priority_breakdown stats) name 0
     = length (filter (fun e : entry => get_priority_name e.1.1 = name)
                 pending)) /\
  sum_list (priority_breakdown stats).*2 = total_messages stats /\
  NoDup (priority_breakdown stats).*1 /\
  (forall name, name ∈ (priority_breakdown stats).*1 ->
     name ∈ [str "URGENT"; str "HIGH"; str "NORMAL"; str "LOW"] /\
     exists e : entry, e ∈ pending /\ get_priority_name e.1.1 = name) /\
  (forall e : entry, e ∈ pending -> ~ (1 <= e.1.1 <= 4)%Z ->
     0 < dict_get (priority_breakdown stats) (str "NORMAL") 0).
Proof.
  intros stats pending. split; [done|]. split; [done|].
  assert (forall name,
     dict_get (priority_breakdown stats) name 0
     = length (filter (fun e : entry => get_priority_name e.1.1 = name)
                 pending)) as Hget.
  { intros name. unfold stats, get_queue_stats. simpl.
    by rewrite (count_names_get (fun e : entry => get_priority_name e.1.1)). }
  split; [done|]. split.
  { unfold stats, get_queue_stats. simpl.
    by rewrite (count_names_sum (fun e : entry => get_priority_name e.1.1)). }
  destruct (count_names_keys (fun e : entry => get_priority_name e.1.1)
              pending []) as [Hnd Hkeys]; [constructor|].
  split; [done|]. split.
  - intros name Hin. apply Hkeys in Hin as [Hin|Hin]; [by apply elem_of_nil in Hin|].
    apply list_elem_of_fmap in Hin as (e & -> & He). split; [|eauto].
    unfold get_priority_name.
    repeat case_match; rewrite !elem_of_cons; intuition.
  - intros e He Hout. rewrite Hget.
    assert (e ∈ filter (fun e : entry => get_priority_name e.1.1 = str "NORMAL")
              pending) as Hin.
    { apply list_elem_of_filter. split; [|done]. unfold get_priority_name.
      repeat case_match; try done; lia. }
    destruct (filter _ pending); [by apply elem_of_nil in Hin|simpl; lia].
Qed.

Lemma dict_get_item (d : counts) (key : list ascii) (v default : nat) :
  NoDup d.*1 -> (key, v) ∈ d -> dict_get d key default = v.
Proof.
  induction d as [|[k w] d IH]; intros Hnd Hin; [by apply elem_of_nil in Hin|].
  rewrite fmap_cons in Hnd. apply NoDup_cons in Hnd as [Hk Hnd]. simpl.
  apply elem_of_cons in Hin as [[= <- <-]|Hin]; [by rewrite decide_True|].
  destruct (decide (k = key)) as [->|Hne]; [|by apply IH].
  exfalso. apply Hk. apply list_elem_of_fmap. by exists (key, v).
Qed.

(** [max_key_from] returns the key of the first item whose count no
    item exceeds. *)
Lemma max_key_from_spec (pre d : counts) (best : list ascii * nat) (i : nat) :
  pre !! i = Some best ->
  (forall j item, pre !! j = Some item ->
     item.2 <= best.2 /\ (j < i -> item.2 < best.2)) ->
  exists i' v,
    (pre ++ d) !! i' = Some (max_key_from best d, v) /\
    forall j item, (pre ++ d) !! j = Some item ->
      item.2 <= v /\ (j < i' -> item.2 < v).
Proof.
  revert pre best i. induction d as [|[k w] d IH]; intros pre best i Hi Hmax.
  - rewrite app_nil_r. exists i, best.2. split; [by destruct best|done].
  - cbn [max_key_from]. replace (pre ++ (k, w) :: d) with ((pre ++ [(k, w)]) ++ d)
      by (by rewrite <- app_assoc).
    destruct (decide (best.2 < w)) as [Hlt|Hge].
    + apply (IH _ _ (length pre)); [by apply list_lookup_middle|].
      intros j item Hj. apply lookup_app_Some in Hj as [Hj|[Hlen Hj]].
      * destruct (Hmax j item Hj) as [Hle _]. simpl. split; [lia|]. lia.
      * apply list_lookup_singleton_Some in Hj as [Hj <-]. simpl. split; lia.
    + apply (IH _ _ i); [by apply lookup_app_l_Some|].
      intros j item Hj. apply lookup_app_Some in Hj as [Hj|[Hlen Hj]].
      * by apply Hmax.
      * apply list_lookup_singleton_Some in Hj as [Hj <-]. simpl.
        apply lookup_lt_Some in Hi. split; lia.
Qed.

(** X5: [get_priority_stats] of the empty list has total 0, an empty
    breakdown and no key ['most_common_priority'].  Otherwise the total
    is the number of messages, the breakdown gives for every priority
    name the number of messages that carry it, and the most common
    priority is a name whose count no name exceeds; among several such
    names it is the one that occurs first in the list (the breakdown
    keeps the names in the order of their first occurrence). *)
Theorem priority_stats_most_common (messages : list message) :
  let stats := get_priority_stats messages in
  let occurrences name :=
    length (filter (fun m => priority_name m = name) messages) in
  total stats = length messages /\
  (forall name, dict_get (breakdown stats) name 0 = occurrences name) /\
  sum_list (breakdown stats).*2 = total stats /\
  NoDup (breakdown stats).*1 /\
  match messages with
  | [] => breakdown stats = [] /\ most_common_priority stats = None
  | _ :: _ =>
      exists name i,
        most_common_priority stats = Some (Some name) /\
        (breakdown stats).*1 !! i = Some name /\
        0 < occurrences name /\
        (forall other, occurrences other <= occurrences name) /\
        (forall j other, j < i -> (breakdown stats).*1 !! j = Some other ->
           occurrences other < occurrences name)
  end.
Proof.
  intros stats occurrences. destruct messages as [|m0 ms]; [simpl; repeat split; constructor|].
  set (messages := m0 :: ms) in *.
  set (d := foldl (fun d m => dict_incr d (priority_name m)) [] messages).
  assert (breakdown stats = d) as Hb by done.
  assert (forall name, dict_get d name 0 = occurrences name) as Hget.
  { intros name. unfold d. by rewrite (count_names_get priority_name). }
  destruct (count_names_keys priority_name messages []) as [Hnd Hkeys];
    [constructor|]. fold d in Hnd, Hkeys.
  assert (sum_list d.*2 = length messages) as Hsum.
  { unfold d. by rewrite (count_names_sum priority_name). }
  rewrite Hb. split; [done|]. split; [done|]. split; [done|]. split; [done|].
  assert (most_common_priority stats
          = Some (match d with
                  | [] => None
                  | item :: rest => Some (max_key_from item rest)
                  end)) as Hmc by done.
  rewrite Hmc. destruct d as [|item rest] eqn:Hd.
  { simpl in Hsum. done. }
  destruct (max_key_from_spec [item] rest item 0) as (i & v & Hi & Hmax);
    [done| |].
  { intros j it Hj. apply list_lookup_singleton_Some in Hj as [-> <-].
    split; lia. }
  simpl in Hi, Hmax. exists (max_key_from item rest), i.
  assert (occurrences (max_key_from item rest) = v) as Hv.
  { rewrite <- Hget. apply dict_get_item; [done|].
    by apply list_elem_of_lookup_2 in Hi. }
  assert (forall j other w, (item :: rest) !! j = Some (other, w) ->
            occurrences other = w) as Hocc.
  { intros j other w Hj. rewrite <- Hget. apply dict_get_item; [done|].
    by apply list_elem_of_lookup_2 in Hj. }
  split; [done|]. split; [by rewrite list_lookup_fmap, Hi|].
  assert (forall other, occurrences other <= v) as Hle.
  { intros other. destruct (decide (other ∈ (item :: rest).*1)) as [Hin|Hin].
    - apply list_elem_of_fmap in Hin as ([o w] & -> & Hin).
      apply list_elem_of_lookup in Hin as [j Hj].
      simpl. rewrite (Hocc _ _ _ Hj). by destruct (Hmax _ _ Hj).
    - assert (occurrences other = 0) as ->; [|lia].
      unfold occurrences.
      destruct (filter _ messages) as [|m ?] eqn:Hf; [done|].
      exfalso. apply Hin, Hkeys. right.
      assert (m ∈ filter (fun m => priority_name m = other) messages) as Hm
        by (rewrite Hf; left).
      apply list_elem_of_filter in Hm as [<- Hm].
      by apply list_elem_of_fmap_2. }
  rewrite Hv. split; [|split; [done|]].
  - specialize (Hle (priority_name m0)).
    assert (0 < occurrences (priority_name m0)); [|lia].
    unfold occurrences, messages. rewrite filter_cons_True by done. simpl. lia.
  - intros j other Hji Hj. rewrite list_lookup_fmap in Hj.
    destruct ((item :: rest) !! j) as [[o w]|] eqn:Hj'; [|done].
    injection Hj as <-. rewrite (Hocc _ _ _ Hj').
    by destruct (Hmax _ _ Hj') as [_ Hlt]; apply Hlt.
Qed.

(** X6: [create_system_message] fails (with [KeyError]) exactly for a
    priority that is not one of the codes 1 to 4, where
    [get_priority_name] answers "NORMAL"; for a code it builds a message
    from "SYSTEM" with the given text, priority and clock reading, the
    provenance "system", and the same name as [get_priority_name]. *)
Theorem create_system_message_needs_a_code (now : Q) (text : list ascii)
    (priority : Z) :
  (is_Some (create_system_message now text priority) <->
   (1 <= priority <= 4)%Z) /\
  (create_system_message now text priority = None ->
   get_priority_name priority = str "NORMAL") /\
  (forall sm, create_system_message now text priority = Some sm ->
     sys_text sm = text /\ sys_user sm = str "SYSTEM" /\
     sys_priority sm = priority /\ sys_timestamp sm = now /\
     sys_priority_name sm = get_priority_name priority /\
     sys_detection_method sm = str "system" /\ is_system sm = true).
Proof.
  unfold create_system_message, priority_name_of, get_priority_name.
  repeat case_match; simplify_eq; repeat split; intros;
    simplify_eq; try done; try lia; try by eexists.
  all: by destruct H as [? ?].
Qed.

(* ================================================================== *)
(** * The validators *)
(* ================================================================== *)

Lemma ascii_eqb_eq (a b : ascii) : ascii_eqb a b = true <-> a = b.
Proof.
  unfold ascii_eqb. rewrite N.eqb_eq. split; [|by intros ->].
  intros E. by rewrite <- (ascii_N_embedding a), <- (ascii_N_embedding b), E.
Qed.

Lemma html_escape_char_cases (c : ascii) :
  ((c ∈ html_special) /\
   exists d rest, html_escape_char c = "&"%char :: d :: rest /\
     Forall (fun x => x ∉ markup_characters) (d :: rest) /\
     length rest <= 4) \/
  ((c ∉ html_special) /\ html_escape_char c = [c]).
Proof.
  unfold html_escape_char.
  destruct (ascii_eqb c "&") eqn:E1;
    [apply ascii_eqb_eq in E1 as ->; left; split;
     [unfold html_special; rewrite !elem_of_cons; tauto|]; do 2 eexists;
     split; [reflexivity|]; split; [|simpl; lia];
     repeat constructor; unfold markup_characters; rewrite !elem_of_cons, elem_of_nil;
     intros Hx; intuition discriminate|].
  destruct (ascii_eqb c "<") eqn:E2;
    [apply ascii_eqb_eq in E2 as ->; left; split;
     [unfold html_special; rewrite !elem_of_cons; tauto|]; do 2 eexists;
     split; [reflexivity|]; split; [|simpl; lia];
     repeat constructor; unfold markup_characters; rewrite !elem_of_cons, elem_of_nil;
     intros Hx; intuition discriminate|].
  destruct (ascii_eqb c ">") eqn:E3;
    [apply ascii_eqb_eq in E3 as ->; left; split;
     [unfold html_special; rewrite !elem_of_cons; tauto|]; do 2 eexists;
     split; [reflexivity|]; split; [|simpl; lia];
     repeat constructor; unfold markup_characters; rewrite !elem_of_cons, elem_of_nil;
     intros Hx; intuition discriminate|].
  destruct (ascii_eqb c "034") eqn:E4;
    [apply ascii_eqb_eq in E4 as ->; left; split;
     [unfold html_special; rewrite !elem_of_cons; tauto|]; do 2 eexists;
     split; [reflexivity|]; split; [|simpl; lia];
     repeat constructor; unfold markup_characters; rewrite !elem_of_cons, elem_of_nil;
     intros Hx; intuition discriminate|].
  destruct (ascii_eqb c "'") eqn:E5;
    [apply ascii_eqb_eq in E5 as ->; left; split;
     [unfold html_special; rewrite !elem_of_cons; tauto|]; do 2 eexists;
     split; [reflexivity|]; split; [|simpl; lia];
     repeat constructor; unfold markup_characters; rewrite !elem_of_cons, elem_of_nil;
     intros Hx; intuition discriminate|].
  right. split; [|done].
  unfold html_special. rewrite !elem_of_cons, elem_of_nil.
  intros [->|[->|[->|[->|[->|[]]]]]]; discriminate.
Qed.

Lemma html_escape_cons (c : ascii) (s : list ascii) :
  html_escape (c :: s) = html_escape_char c ++ html_escape s.
Proof. done. Qed.

Lemma html_escape_no_markup (s : list ascii) :
  Forall (fun x => x ∉ markup_characters) (html_escape s).
Proof.
  induction s as [|c s IH]; [constructor|]. rewrite html_escape_cons.
  apply Forall_app. split; [|done].
  destruct (html_escape_char_cases c) as [(_ & d & rest & -> & Hm & _)|[Hc ->]].
  - constructor; [|done]. unfold markup_characters.
    rewrite !elem_of_cons, elem_of_nil. intros Hx; intuition discriminate.
  - constructor; [|constructor]. intros Hin. apply Hc.
    unfold markup_characters, html_special in *.
    rewrite !elem_of_cons in *. tauto.
Qed.

Lemma html_escape_length (s : list ascii) :
  length s <= length (html_escape s) <= 6 * length s.
Proof.
  induction s as [|c s IH]; [simpl; lia|]. rewrite html_escape_cons, length_app.
  cbn [length].
  destruct (html_escape_char_cases c) as [(_ & d & rest & -> & _ & Hl)|[_ ->]];
    cbn [length]; lia.
Qed.

Lemma html_escape_plain (s : list ascii) :
  Forall (fun c => c ∉ html_special) s -> html_escape s = s.
Proof.
  induction 1 as [|c s Hc _ IH]; [done|]. rewrite html_escape_cons, IH.
  by destruct (html_escape_char_cases c) as [[? _]|[_ ->]].
Qed.

Lemma html_escape_char_inj (c1 c2 : ascii) (r1 r2 : list ascii) :
  html_escape_char c1 ++ r1 = html_escape_char c2 ++ r2 ->
  c1 = c2 /\ r1 = r2.
Proof.
  unfold html_escape_char. intros E.
  destruct (ascii_eqb c1 "&") eqn:A1; [apply ascii_eqb_eq in A1 as ->|];
  [|destruct (ascii_eqb c1 "<") eqn:A2; [apply ascii_eqb_eq in A2 as ->|];
   [|destruct (ascii_eqb c1 ">") eqn:A3; [apply ascii_eqb_eq in A3 as ->|];
    [|destruct (ascii_eqb c1 "034") eqn:A4; [apply ascii_eqb_eq in A4 as ->|];
     [|destruct (ascii_eqb c1 "'") eqn:A5; [apply ascii_eqb_eq in A5 as ->|]]]]].
  all: destruct (ascii_eqb c2 "&") eqn:B1; [apply ascii_eqb_eq in B1 as ->|];
  [|destruct (ascii_eqb c2 "<") eqn:B2; [apply ascii_eqb_eq in B2 as ->|];
   [|destruct (ascii_eqb c2 ">") eqn:B3; [apply ascii_eqb_eq in B3 as ->|];
    [|destruct (ascii_eqb c2 "034") eqn:B4; [apply ascii_eqb_eq in B4 as ->|];
     [|destruct (ascii_eqb c2 "'") eqn:B5; [apply ascii_eqb_eq in B5 as ->|]]]]].
  all: cbn in E; try discriminate E.
  all: try (injection E as E; by subst).
  all: try (injection E as E1 E2; subst;
            first [by rewrite (proj2 (ascii_eqb_eq _ _) eq_refl) in A1
                  |by rewrite (proj2 (ascii_eqb_eq _ _) eq_refl) in B1
                  |done]).
Qed.

Lemma html_escape_inj (s1 s2 : list ascii) :
  html_escape s1 = html_escape s2 -> s1 = s2.
Proof.
  revert s2. induction s1 as [|c1 s1 IH]; intros [|c2 s2] E; [done| | |].
  - exfalso. pose proof (html_escape_length (c2 :: s2)) as Hl.
    rewrite <- E in Hl. simpl in Hl. lia.
  - exfalso. pose proof (html_escape_length (c1 :: s1)) as Hl.
    rewrite E in Hl. simpl in Hl. lia.
  - rewrite !html_escape_cons in E.
    apply html_escape_char_inj in E as [-> E]. by rewrite (IH _ E).
Qed.

(** X7: the text [validate_message] accepts is the escaped trimmed
    input: it is not empty, holds none of the characters <, >, double
    quote and apostrophe, is at least as long as the trimmed input and at
    most six times as long (so at most 6 * 2000 characters, although the
    limit of 2000 is checked before escaping), and equals the trimmed
    input when this has no character to escape. *)
Theorem accepted_message_is_escaped `{CharTables} (msg : list ascii) :
  valid (validate_message msg) = true ->
  let sanitized := sanitized_message (validate_message msg) in
  sanitized = html_escape (strip msg) /\
  sanitized <> [] /\
  Forall (fun c => c ∉ markup_characters) sanitized /\
  length (strip msg) <= length sanitized <= 6 * length (strip msg) /\
  length sanitized <= 6 * 2000 /\
  (Forall (fun c => c ∉ html_special) (strip msg) -> sanitized = strip msg).
Proof.
  intros Hv sanitized. subst sanitized. revert Hv. unfold validate_message.
  destruct (strip msg) as [|c rest] eqn:E; [done|].
  destruct (decide (2000 < length (c :: rest))) as [|Hlen]; [done|].
  intros _. cbn [sanitized_message].
  pose proof (html_escape_length (c :: rest)) as Hl.
  assert (length (c :: rest) <= 2000) as Hle.
  { destruct (le_lt_dec (length (c :: rest)) 2000); [done|]. exfalso. by apply Hlen. }
  split; [done|]. split.
  { intros E'. rewrite E' in Hl. cbn [length] in Hl. lia. }
  split; [apply html_escape_no_markup|]. split; [done|].
  split; [etrans; [apply Hl|]; by apply Nat.mul_le_mono_l|].
  apply html_escape_plain.
Qed.

Lemma accepted_message_is_escaped_witness :
  let msg := str "  <b>Tom & Jerry</b> " in
  let sanitized := sanitized_message (validate_message (H := latin1_tables) msg) in
  sanitized = html_escape (strip (H := latin1_tables) msg) /\
  sanitized <> [] /\
  Forall (fun c => c ∉ markup_characters) sanitized /\
  length (strip (H := latin1_tables) msg) <= length sanitized
    <= 6 * length (strip (H := latin1_tables) msg) /\
  length sanitized <= 6 * 2000 /\
  (Forall (fun c => c ∉ html_special) (strip (H := latin1_tables) msg) ->
   sanitized = strip (H := latin1_tables) msg).
Proof.
  apply (accepted_message_is_escaped (H := latin1_tables)
           (str "  <b>Tom & Jerry</b> ")).
  vm_compute. reflexivity.
Defined.

(** X8: escaping loses nothing: two accepted messages are sanitized to
    the same text exactly when they agree after trimming. *)
Theorem accepted_messages_differ_after_escaping `{CharTables}
    (msg1 msg2 : list ascii) :
  valid (validate_message msg1) = true ->
  valid (validate_message msg2) = true ->
  (sanitized_message (validate_message msg1)
   = sanitized_message (validate_message msg2)
   <-> strip msg1 = strip msg2).
Proof.
  unfold validate_message.
  destruct (strip msg1) as [|c1 r1] eqn:E1; [done|].
  destruct (strip msg2) as [|c2 r2] eqn:E2; [done|].
  destruct (decide (2000 < length (c1 :: r1))); [done|].
  destruct (decide (2000 < length (c2 :: r2))); [done|].
  intros _ _. cbn [sanitized_message]. split; [apply html_escape_inj|by intros ->].
Qed.

Lemma accepted_messages_differ_after_escaping_witness :
  sanitized_message (validate_message (H := latin1_tables) (str " a<b"))
  = sanitized_message (validate_message (H := latin1_tables) (str "a<b  "))
  <-> strip (H := latin1_tables) (str " a<b")
      = strip (H := latin1_tables) (str "a<b  ").
Proof.
  apply (accepted_messages_differ_after_escaping (H := latin1_tables)
           (str " a<b") (str "a<b  ")); vm_compute; reflexivity.
Defined.

(** X9: when no character that [html.escape] replaces is a word
    character, a dash or white space (as in Python's tables), the name
    [validate_username] returns is what is left of the first 50
    characters of the trimmed name (or of "Anonymous") when the
    disallowed characters are deleted: it has at most 50 characters,
    all of them allowed, in the order they had in the name, and is not
    changed by the escaping. *)
Theorem sanitized_username_shape `{CharTables} (username : list ascii) :
  Forall (fun c => allowed_in_username c = false) html_special ->
  let sanitized := validate_username username in
  sanitized = re_sub_disallowed (take 50 (name_or_anonymous username)) /\
  length sanitized <= 50 /\
  Forall (fun c => allowed_in_username c = true) sanitized /\
  sublist sanitized (name_or_anonymous username).
Proof.
  intros Hspecial sanitized.
  assert (sanitized
          = html_escape (re_sub_disallowed (take 50 (name_or_anonymous username))))
    as E.
  { subst sanitized. unfold validate_username, name_or_anonymous.
    destruct (strip username) as [|c rest].
    - destruct (decide _) as [Hl|_]; [simpl in Hl; lia|done].
    - destruct (decide (50 < length (c :: rest))) as [_|Hl]; [done|].
      rewrite take_ge; [done|].
      destruct (le_lt_dec (length (c :: rest)) 50); [done|]. exfalso. by apply Hl. }
  set (name := name_or_anonymous username) in *.
  assert (Forall (fun c => allowed_in_username c = true)
            (re_sub_disallowed (take 50 name))) as Hall.
  { unfold re_sub_disallowed. apply Forall_forall. intros c Hc.
    apply list_elem_of_In, filter_In in Hc. tauto. }
  rewrite html_escape_plain in E.
  2:{ eapply Forall_impl; [exact Hall|]. intros c Hc Hin.
      rewrite Forall_forall in Hspecial. specialize (Hspecial c Hin).
      by rewrite Hc in Hspecial. }
  rewrite E. split; [done|].
  assert (sublist (re_sub_disallowed (take 50 name)) (take 50 name)) as Hsub.
  { unfold re_sub_disallowed. generalize (take 50 name). intros l.
    induction l as [|c l IH]; simpl; [constructor|].
    destruct (allowed_in_username c); by constructor. }
  split.
  { apply sublist_length in Hsub. rewrite length_take in Hsub. lia. }
  split; [done|]. etrans; [exact Hsub|]. apply sublist_take.
Qed.

Lemma sanitized_username_shape_witness :
  let username := str " Bob <script> " in
  let sanitized := validate_username (H := latin1_tables) username in
  sanitized
  = re_sub_disallowed (H := latin1_tables)
      (take 50 (name_or_anonymous (H := latin1_tables) username)) /\
  length sanitized <= 50 /\
  Forall (fun c => allowed_in_username (H := latin1_tables) c = true) sanitized /\
  sublist sanitized (name_or_anonymous (H := latin1_tables) username).
Proof.
  apply (sanitized_username_shape (H := latin1_tables) (str " Bob <script> ")).
  repeat constructor.
Defined.

(* ================================================================== *)
(** * The other queues *)
(* ================================================================== *)

Lemma last_drop_lt {A} (l : list A) (k : nat) :
  k < length l -> last (drop k l) = last l.
Proof.
  intros Hk. rewrite !last_lookup, length_drop, lookup_drop. f_equal. lia.
Qed.

Lemma run_circular_spec {A} (ops : list (circular_op A))
    (self : CircularQueue.t A) (recent : list A) :
  CircularQueue.queue self
    = drop (length recent - CircularQueue.max_size self) recent ->
  let recent' :=
    foldl (fun recent op =>
             match op with
             | CircularEnqueue message => recent ++ [message]
             | CircularClear => []
             end) recent ops in
  CircularQueue.max_size (run_circular ops self) = CircularQueue.max_size self /\
  CircularQueue.queue (run_circular ops self)
    = drop (length recent' - CircularQueue.max_size self) recent'.
Proof.
  revert self recent. induction ops as [|[m|] ops IH]; intros self recent Hq;
    [done| |].
  - cbn [foldl run_circular].
    specialize (IH (CircularQueue.enqueue m self) (recent ++ [m])).
    cbn [CircularQueue.enqueue CircularQueue.max_size CircularQueue.queue] in IH.
    apply IH. rewrite Hq. apply deque_append_last.
  - cbn [foldl run_circular].
    specialize (IH (CircularQueue.clear self).2 []).
    cbn [CircularQueue.clear CircularQueue.max_size CircularQueue.queue snd] in IH.
    by apply IH.
Qed.

(** X10: a circular queue created with a capacity and then used through
    [enqueue] and [clear] holds the last [capacity] of the messages
    enqueued since the last [clear], oldest first; [latest] is the last
    of them, and nothing when the capacity is 0 (then every message is
    dropped at once); [clear] reports the number of messages held and
    leaves an empty queue of the same capacity. *)
Theorem circular_queue_holds_latest {A} (capacity : nat)
    (ops : list (circular_op A)) :
  let self := run_circular ops (CircularQueue.init capacity) in
  let recent := since_last_clear ops in
  CircularQueue.get_all self = drop (length recent - capacity) recent /\
  length (CircularQueue.get_all self) = Nat.min (length recent) capacity /\
  CircularQueue.latest self
    = (if decide (capacity = 0) then None else last recent) /\
  (CircularQueue.clear self).1 = Nat.min (length recent) capacity /\
  CircularQueue.get_all (CircularQueue.clear self).2 = [] /\
  CircularQueue.latest (CircularQueue.clear self).2 = None /\
  CircularQueue.max_size (CircularQueue.clear self).2 = capacity.
Proof.
  intros self recent.
  destruct (run_circular_spec ops (CircularQueue.init capacity) []) as [Hm Hq];
    [done|].
  fold self in Hm, Hq. cbn [CircularQueue.init CircularQueue.max_size] in Hm, Hq.
  change (foldl _ [] ops) with recent in Hq.
  unfold CircularQueue.get_all, CircularQueue.latest, CircularQueue.clear.
  cbn [fst snd CircularQueue.queue CircularQueue.max_size].
  rewrite Hq, length_drop. split; [done|]. split; [lia|].
  split; [|split; [lia|done]].
  destruct (decide (capacity = 0)) as [->|Hc].
  - rewrite Nat.sub_0_r, drop_all. done.
  - destruct (decide (length recent = 0)) as [E|E].
    + apply length_zero_iff_nil in E. by rewrite E.
    + apply last_drop_lt. lia.
Qed.

Lemma batch_flush_split {A} (self : BatchQueue.t A) :
  BatchQueue.queue self
    = (BatchQueue.flush self).1 ++ BatchQueue.queue (BatchQueue.flush self).2 /\
  BatchQueue.min_batch_size (BatchQueue.flush self).2
    = BatchQueue.min_batch_size self /\
  BatchQueue.max_batch_size (BatchQueue.flush self).2
    = BatchQueue.max_batch_size self /\
  ((BatchQueue.flush self).1 = [] \/
   (BatchQueue.min_batch_size self <= length (BatchQueue.queue self) /\
    length (BatchQueue.flush self).1
      = Nat.min (length (BatchQueue.queue self)) (BatchQueue.max_batch_size self))).
Proof.
  unfold BatchQueue.flush.
  destruct (decide (length (BatchQueue.queue self)
                    < BatchQueue.min_batch_size self)) as [Hlt|Hge];
    [simpl; auto|].
  rewrite flush_loop_spec. cbn [length fst snd BatchQueue.queue
    BatchQueue.min_batch_size BatchQueue.max_batch_size app].
  rewrite Nat.sub_0_r, take_drop, length_take.
  split; [done|]. split; [done|]. split; [done|]. right. lia.
Qed.

(** X11: a batch queue neither loses, duplicates nor reorders messages:
    after any history of [enqueue], [flush] and [force_flush] calls, the
    returned batches, one after the other, followed by what is still
    queued are the messages queued at the start followed by the enqueued
    ones.  The thresholds never change.  A batch that [flush] returns
    has at most [max_batch_size] messages and, when the thresholds are
    in order, none or at least [min_batch_size]; [force_flush] does not
    look at the thresholds. *)
Theorem batch_queue_conserves_messages {A} (ops : list (batch_op A))
    (self : BatchQueue.t A) :
  let batches := (run_batch ops self).1 in
  let final := (run_batch ops self).2 in
  concat batches.*2 ++ BatchQueue.queue final
    = BatchQueue.queue self ++ batch_enqueued ops /\
  BatchQueue.min_batch_size final = BatchQueue.min_batch_size self /\
  BatchQueue.max_batch_size final = BatchQueue.max_batch_size self /\
  Forall (fun fb : bool * list A =>
            fb.1 = false ->
            length fb.2 <= BatchQueue.max_batch_size self /\
            (BatchQueue.min_batch_size self <= BatchQueue.max_batch_size self ->
             fb.2 = [] \/ BatchQueue.min_batch_size self <= length fb.2))
    batches.
Proof.
  revert self. induction ops as [|[m| |] ops IH]; intros self.
  - simpl. by rewrite app_nil_r.
  - cbn [run_batch batch_enqueued omap list_omap].
    destruct (IH (BatchQueue.enqueue m self)) as (Hc & Hmin & Hmax & Hb).
    cbn [BatchQueue.enqueue BatchQueue.queue BatchQueue.min_batch_size
         BatchQueue.max_batch_size] in Hc, Hmin, Hmax, Hb.
    split; [|done]. rewrite Hc. by rewrite <- app_assoc.
  - cbn [run_batch batch_enqueued omap list_omap].
    destruct (batch_flush_split self) as (Hs & Hmin' & Hmax' & Hlen).
    destruct (BatchQueue.flush self) as [batch self'].
    destruct (IH self') as (Hc & Hmin & Hmax & Hb).
    destruct (run_batch ops self') as [batches final].
    cbn [fst snd] in *. rewrite fmap_cons. cbn [concat snd].
    rewrite Hmin' in Hmin, Hb. rewrite Hmax' in Hmax, Hb.
    split; [by rewrite <- app_assoc, Hc, app_assoc, <- Hs|].
    split; [done|]. split; [done|]. constructor; [|done].
    intros _. cbn [snd]. destruct Hlen as [->|[Hge ->]]; [simpl; split; [lia|auto]|].
    split; [lia|]. intros Hle. right. lia.
  - cbn [run_batch batch_enqueued omap list_omap BatchQueue.force_flush].
    specialize (IH {| BatchQueue.queue := [];
                      BatchQueue.min_batch_size := BatchQueue.min_batch_size self;
                      BatchQueue.max_batch_size := BatchQueue.max_batch_size self |}).
    destruct (run_batch ops _) as [batches final].
    destruct IH as (Hc & Hmin & Hmax & Hb).
    cbn [fst snd BatchQueue.queue BatchQueue.min_batch_size
         BatchQueue.max_batch_size app] in *. rewrite fmap_cons. cbn [concat snd].
    split; [by rewrite <- app_assoc, Hc|].
    split; [done|]. split; [done|]. by constructor.
Qed.

Section RetryDrain.
Context {A : Type}.

(** X12: [process] serves the queue strictly from the front.  Called
    [n] times at one clock reading, it takes the first [n] items of the
    longest prefix of items whose time has passed, and returns the
    messages of those among them that have retries left, in order; the
    others are consumed without a result.  Items behind the first item
    whose time has not passed stay queued, also when their own time has
    passed. *)
Theorem process_serves_the_due_prefix (now : Q) (n : nat)
    (self : RetryQueue.t A) :
  let due :=
    takewhile (fun it : RetryQueue.item A => RetryQueue.time_reached now it.2)
      (RetryQueue.queue self) in
  let log := (run_retry (replicate n (Process now)) self).1 in
  let final := (run_retry (replicate n (Process now)) self).2 in
  length log = n /\
  omap taken log = take n due /\
  omap result log
  = (fun it : RetryQueue.item A => it.1.1)
      <$> filter (fun it : RetryQueue.item A =>
                    it.1.2 < RetryQueue.max_retries self) (take n due) /\
  RetryQueue.queue final
    = drop (Nat.min n (length due)) (RetryQueue.queue self) /\
  RetryQueue.max_retries final = RetryQueue.max_retries self.
Proof.
  revert self. induction n as [|n IH]; intros self; [simpl; by rewrite take_0|].
  cbn [replicate run_retry].
  unfold RetryQueue.process, RetryQueue.get_ready_message.
  destruct self as [[|[[m a] d] rest] mx].
  - cbn [RetryQueue.queue RetryQueue.max_retries takewhile].
    specialize (IH {| RetryQueue.queue := []; RetryQueue.max_retries := mx |}).
    destruct (run_retry (replicate n (Process now)) _) as [log final].
    cbn [RetryQueue.queue RetryQueue.max_retries takewhile fst snd length] in *.
    destruct IH as (Hl & Ht & Hr & Hq & Hm).
    rewrite decide_False by lia. cbn [omap list_omap taken result].
    change (list_omap _ _ taken log) with (omap taken log).
    change (list_omap _ _ result log) with (omap result log).
    rewrite take_nil in *. rewrite drop_nil in *. by rewrite Hl, Ht, Hr, Hq.
  - cbn [RetryQueue.queue RetryQueue.max_retries takewhile snd].
    destruct (RetryQueue.time_reached now d) eqn:Hd.
    + specialize (IH {| RetryQueue.queue := rest; RetryQueue.max_retries := mx |}).
      cbn [RetryQueue.queue RetryQueue.max_retries] in IH.
      destruct IH as (Hl & Ht & Hr & Hq & Hm).
      destruct (decide (a < mx)) as [Ha|Ha].
      all: cbn [RetryQueue.queue RetryQueue.max_retries].
      all: destruct (run_retry (replicate n (Process now)) _) as [log final].
      all: cbn [fst snd length RetryQueue.queue head take Nat.min drop] in *.
      all: rewrite decide_True by lia.
      all: cbn [omap list_omap taken result].
      all: change (list_omap _ _ taken log) with (omap taken log).
      all: change (list_omap _ _ result log) with (omap result log).
      all: rewrite Hl, Ht, Hr, Hq, Hm.
      * rewrite filter_cons_True by done. done.
      * rewrite filter_cons_False by done. done.
    + specialize (IH {| RetryQueue.queue := (m, a, d) :: rest;
                        RetryQueue.max_retries := mx |}).
      cbn [RetryQueue.queue RetryQueue.max_retries takewhile snd] in IH.
      rewrite Hd in IH.
      destruct (run_retry (replicate n (Process now)) _) as [log final].
      cbn [fst snd length RetryQueue.queue] in *.
      destruct IH as (Hl & Ht & Hr & Hq & Hm).
      rewrite decide_False by lia. cbn [omap list_omap taken result].
      change (list_omap _ _ taken log) with (omap taken log).
      change (list_omap _ _ result log) with (omap result log).
      rewrite take_nil in *. rewrite Nat.min_0_r in *.
      by rewrite Hl, Ht, Hr, Hq.
Qed.

End RetryDrain.

Lemma run_session_spec (ops : list session_op) (self : SessionQueue.t) :
  length (SessionQueue.queue self) <= SessionQueue.maxlen self ->
  let r := run_session ops self in
  SessionQueue.maxlen (session_final r) = SessionQueue.maxlen self /\
  length (SessionQueue.queue (session_final r)) <= SessionQueue.maxlen self /\
  Forall (fun ev => SessionQueue.status ev = str "pending") (created r) /\
  exists served,
    delivered (processed r) = mark_processed <$> served /\
    sublist (served ++ SessionQueue.queue (session_final r))
      (SessionQueue.queue self ++ created r) /\
    (SessionClear ∉ ops ->
     length (SessionQueue.queue self ++ created r) <= SessionQueue.maxlen self ->
     served ++ SessionQueue.queue (session_final r)
       = SessionQueue.queue self ++ created r).
Proof.
  revert self. induction ops as [|[now usr ty| |] ops IH]; intros self Hlen.
  - simpl. split; [done|]. split; [done|]. split; [constructor|].
    exists []. simpl. by rewrite app_nil_r.
  - cbn [run_session SessionQueue.enqueue].
    set (ev := {| SessionQueue.user := usr; SessionQueue.event_type := ty;
                  SessionQueue.timestamp := now;
                  SessionQueue.status := str "pending" |}).
    set (q' := CircularQueue.deque_append (SessionQueue.maxlen self)
                 (SessionQueue.queue self) ev).
    assert (length q' <= SessionQueue.maxlen self /\
            sublist q' (SessionQueue.queue self ++ [ev]) /\
            (length (SessionQueue.queue self ++ [ev]) <= SessionQueue.maxlen self ->
             q' = SessionQueue.queue self ++ [ev])) as (Hl' & Hsub' & Hex').
    { subst q'. unfold CircularQueue.deque_append.
      destruct (decide _) as [Hlt|Hge].
      - rewrite length_drop. rewrite length_app in *. cbn [length] in *.
        split; [lia|]. split; [apply sublist_drop|]. lia.
      - split; [lia|]. split; [done|]. done. }
    specialize (IH {| SessionQueue.queue := q';
                      SessionQueue.maxlen := SessionQueue.maxlen self |} Hl').
    cbn [SessionQueue.queue SessionQueue.maxlen] in IH.
    destruct IH as (Hm & Hl & Hp & served & Hd & Hsub & Hex).
    cbn [created processed session_final].
    split; [done|]. split; [done|]. split; [by constructor|].
    exists served. split; [done|].
    replace (SessionQueue.queue self ++ ev :: created _)
      with ((SessionQueue.queue self ++ [ev]) ++ created
              (run_session ops {| SessionQueue.queue := q';
                                  SessionQueue.maxlen := SessionQueue.maxlen self |}))
      by (by rewrite <- app_assoc).
    split.
    + etrans; [exact Hsub|]. by apply sublist_app.
    + intros Hnc Hle. rewrite Hex.
      * rewrite Hex'; [done|]. rewrite length_app in Hle. lia.
      * intros Hin. apply Hnc. by right.
      * rewrite length_app in *. apply sublist_length in Hsub'. lia.
  - cbn [run_session]. unfold SessionQueue.dequeue.
    destruct (SessionQueue.queue self) as [|ev rest] eqn:Hq.
    + destruct (IH self) as (Hm & Hl & Hp & served & Hd & Hsub & Hex);
        [by rewrite Hq|].
      rewrite Hq in Hsub, Hex.
      cbn [created processed session_final].
      split; [done|]. split; [done|]. split; [done|].
      exists served. split; [done|]. split; [done|].
      intros Hnc Hle. apply Hex; [|done]. intros Hin. apply Hnc. by right.
    + cbn [length] in Hlen.
      destruct (IH {| SessionQueue.queue := rest;
                      SessionQueue.maxlen := SessionQueue.maxlen self |})
        as (Hm & Hl & Hp & served & Hd & Hsub & Hex);
        [cbn [SessionQueue.queue SessionQueue.maxlen]; lia|].
      cbn [SessionQueue.queue SessionQueue.maxlen] in *.
      cbn [created processed session_final].
      split; [done|]. split; [done|]. split; [done|].
      exists (ev :: served). split; [|split].
      * unfold delivered in *. cbn [omap list_omap id fmap list_fmap].
        change (list_omap _ _ id ?l) with (omap id l). rewrite Hd. done.
      * cbn [app]. by apply sublist_skip.
      * intros Hnc Hle. cbn [app]. f_equal. apply Hex.
        -- intros Hin. apply Hnc. by right.
        -- cbn [app length] in Hle. lia.
  - cbn [run_session SessionQueue.clear snd].
    destruct (IH {| SessionQueue.queue := [];
                    SessionQueue.maxlen := SessionQueue.maxlen self |})
      as (Hm & Hl & Hp & served & Hd & Hsub & Hex);
      [cbn [SessionQueue.queue length]; lia|].
    cbn [SessionQueue.queue SessionQueue.maxlen app] in *.
    split; [done|]. split; [done|]. split; [done|].
    exists served. split; [done|]. split.
    + by apply sublist_inserts_l.
    + intros Hnc. exfalso. apply Hnc. by left.
Qed.

(** X13: a session queue created with a size never holds more than that
    many events.  Every event [enqueue] creates is pending; what
    [dequeue] returns are created events marked as processed, in the
    order of their creation, each at most once, and the events still
    queued were created after them: served and queued events together
    are the created ones without those that [clear] or the size limit
    removed.  When [clear] is not called and no more events are created
    than the size allows, no event is removed. *)
Theorem session_queue_is_bounded_fifo (max_size : nat) (ops : list session_op) :
  let r := run_session ops (SessionQueue.init max_size) in
  SessionQueue.size (session_final r) <= max_size /\
  Forall (fun ev => SessionQueue.status ev = str "pending") (created r) /\
  Forall (fun ev => SessionQueue.status ev = str "pending")
    (SessionQueue.queue (session_final r)) /\
  SessionQueue.peek (session_final r)
    = head (SessionQueue.queue (session_final r)) /\
  (SessionQueue.dequeue (session_final r)).1
    = mark_processed <$> SessionQueue.peek (session_final r) /\
  exists served,
    delivered (processed r) = mark_processed <$> served /\
    sublist (served ++ SessionQueue.queue (session_final r)) (created r) /\
    (SessionClear ∉ ops -> length (created r) <= max_size ->
     served ++ SessionQueue.queue (session_final r) = created r).
Proof.
  intros r.
  destruct (run_session_spec ops (SessionQueue.init max_size))
    as (Hm & Hl & Hp & served & Hd & Hsub & Hex); [simpl; lia|].
  fold r in Hm, Hl, Hp, Hd, Hsub, Hex.
  cbn [SessionQueue.init SessionQueue.queue SessionQueue.maxlen app] in *.
  split; [done|]. split; [done|]. split.
  { apply Forall_forall. intros ev Hev. rewrite Forall_forall in Hp. apply Hp.
    eapply elem_of_sublist; [|exact Hsub]. apply elem_of_app. by right. }
  split; [done|]. split.
  { unfold SessionQueue.dequeue, SessionQueue.peek.
    by destruct (SessionQueue.queue (session_final r)). }
  by exists served.
Qed.

(* ================================================================== *)
(** * The drain of the retry queue *)
(* ================================================================== *)

Lemma backoff_not_reached (now : Q) (a : nat) :
  RetryQueue.time_reached now (RetryQueue.backoff_deadline now a) = false.
Proof.
  apply not_true_is_false. unfold RetryQueue.time_reached.
  rewrite Qle_bool_iff. unfold RetryQueue.backoff_deadline.
  intros Hle.
  assert (now + inject_Z (2 ^ Z.of_nat a) <= now + 0)%Q as Hle'
    by (by rewrite Qplus_0_r).
  apply Qplus_le_r in Hle'. revert Hle'. unfold Qle. simpl.
  pose proof (Z.pow_pos_nonneg 2 (Z.of_nat a)). lia.
Qed.

Lemma takewhile_app_false {A} (p : A -> bool) (l : list A) (x : A) :
  p x = false -> takewhile p (l ++ [x]) = takewhile p l.
Proof.
  intros Hx. induction l as [|y l IH]; simpl; [by rewrite Hx|].
  by rewrite IH.
Qed.

Lemma takewhile_length {A} (p : A -> bool) (l : list A) :
  length (takewhile p l) <= length l.
Proof. induction l as [|y l IH]; simpl; [done|]. destruct (p y); simpl; lia. Qed.

Lemma takewhile_drop {A} (p : A -> bool) (l : list A) :
  takewhile p l ++ drop (length (takewhile p l)) l = l.
Proof.
  induction l as [|y l IH]; simpl; [done|].
  destruct (p y); simpl; [by rewrite IH|done].
Qed.

Lemma takewhile_stop {A} (p : A -> bool) (l : list A) (x : A) :
  head (drop (length (takewhile p l)) l) = Some x -> p x = false.
Proof.
  induction l as [|y l IH]; simpl; [done|].
  destruct (p y) eqn:E; simpl; [done|]. by intros [= <-].
Qed.

Lemma after_stop_app (now : Q) (a : nat) (m : Wire.t)
    (rest : list (RetryQueue.item Wire.t)) :
  after_stop now (rest ++ [(m, a, RetryQueue.backoff_deadline now a)])
  = after_stop now rest ++ [(m, a, RetryQueue.backoff_deadline now a)].
Proof.
  destruct rest as [|it rest]; simpl.
  - by rewrite backoff_not_reached.
  - by destruct (RetryQueue.time_reached now it.2).
Qed.

Section Drain.
Context (now : Q) (send : nat -> bool).

Lemma process_retry_queue_loop_closed_form (rq : RetryQueue.t Wire.t)
    (log : list event) (k : nat) :
  ChatSocketHandlers.process_retry_queue_loop now send rq log k
  = ({| RetryQueue.queue :=
          after_stop now
            (drop (length (takewhile (retry_ready now (RetryQueue.max_retries rq))
                             (RetryQueue.queue rq)))
               (RetryQueue.queue rq))
          ++ requeued now send k
               (takewhile (retry_ready now (RetryQueue.max_retries rq))
                  (RetryQueue.queue rq));
        RetryQueue.max_retries := RetryQueue.max_retries rq |},
     log ++ (EmitMessage
               <$> resent send k
                     (takewhile (retry_ready now (RetryQueue.max_retries rq))
                        (RetryQueue.queue rq))),
     k + length (takewhile (retry_ready now (RetryQueue.max_retries rq))
                   (RetryQueue.queue rq))).
Proof.
  funelim (ChatSocketHandlers.process_retry_queue_loop now send rq log k);
    try clear Heqcall.
  all: match goal with E : RetryQueue.process _ _ = _ |- _ =>
         pose proof E as Hp; revert Hp end.
  all: unfold RetryQueue.process, RetryQueue.get_ready_message.
  all: destruct rq as [[|[[m a] d] rest] mx];
    cbn [RetryQueue.queue RetryQueue.max_retries] in *.
  all: try (intros [= <-]; simpl; by rewrite app_nil_r, Nat.add_0_r).
  all: try done.
  all: cbn [takewhile].
  all: destruct (RetryQueue.time_reached now d) eqn:Hd;
    destruct (decide (a < mx)) as [Ha|Ha]; intros E; simplify_eq.
  all: match goal with
       | Hd : RetryQueue.time_reached now _ = _
         |- context [retry_ready now ?mx' (?m', ?a', ?d')] =>
           first
             [assert (retry_ready now mx' (m', a', d') = true) as Hr
                by (unfold retry_ready; cbn [fst snd]; rewrite Hd;
                    by rewrite bool_decide_eq_true_2)
             |assert (retry_ready now mx' (m', a', d') = false) as Hr
                by (unfold retry_ready; cbn [fst snd]; rewrite Hd;
                    first [done|by rewrite bool_decide_eq_false_2])];
           rewrite !Hr
       end.
  all: cbn [length drop after_stop fst snd requeued resent fmap list_fmap].
  all: rewrite ?Hd, ?app_nil_r, ?Nat.add_0_r; try done.
  - match goal with
    | IH : ChatSocketHandlers.process_retry_queue_loop _ _ _ _ _ = _ |- _ =>
        rewrite IH end.
    cbn [RetryQueue.queue RetryQueue.max_retries].
    rewrite Heq. cbn [fst]. rewrite <- app_assoc. cbn [app].
    rewrite ?fmap_cons. f_equal; lia.
  - match goal with
    | IH : ChatSocketHandlers.process_retry_queue_loop _ _ _ _ _ = _ |- _ =>
        rewrite IH end.
    cbn [RetryQueue.queue RetryQueue.max_retries RetryQueue.enqueue].
    rewrite Heq. cbn [fst].
    rewrite takewhile_app_false
      by (unfold retry_ready; cbn [snd]; by rewrite backoff_not_reached).
    rewrite drop_app_le by apply takewhile_length.
    rewrite after_stop_app, <- app_assoc. cbn [app].
    rewrite ?fmap_cons. f_equal; lia.
Qed.

End Drain.

(** X14: the drain step in closed form.  At clock reading [now] it
    serves the longest prefix of the retry queue made of items whose
    time has passed and that have retries left, one broadcast each, in
    order: a message whose broadcast goes through is emitted as
    [new_message], the others are queued again behind everything else
    with retry count 0 and the deadline [now + 1].  The drain stops at
    the first item that cannot be served, and removes it when its time
    has passed (it has no retries left); the items behind it are kept
    for a later drain, whether their time has passed or not. *)
Theorem retry_drain_closed_form (now : Q) (send : nat -> bool)
    (rq : RetryQueue.t Wire.t) (log : list event) (k : nat) :
  let ready :=
    takewhile (retry_ready now (RetryQueue.max_retries rq))
      (RetryQueue.queue rq) in
  let rest := drop (length ready) (RetryQueue.queue rq) in
  ChatSocketHandlers.process_retry_queue now send rq log k
  = ({| RetryQueue.queue := after_stop now rest ++ requeued now send k ready;
        RetryQueue.max_retries := RetryQueue.max_retries rq |},
     log ++ (EmitMessage <$> resent send k ready),
     k + length ready) /\
  RetryQueue.queue rq = ready ++ rest /\
  Forall (fun it => retry_ready now (RetryQueue.max_retries rq) it = true) ready /\
  (forall it, head rest = Some it ->
     retry_ready now (RetryQueue.max_retries rq) it = false) /\
  Forall (fun it : RetryQueue.item Wire.t =>
            RetryQueue.time_reached now it.2 = false)
    (requeued now send k ready).
Proof.
  intros ready rest. split; [apply process_retry_queue_loop_closed_form|].
  split; [subst rest ready; by rewrite takewhile_drop|].
  split; [|split].
  - subst ready. induction (RetryQueue.queue rq) as [|it q IH]; simpl; [done|].
    destruct (retry_ready _ _ it) eqn:E; by constructor.
  - intros it. apply takewhile_stop.
  - generalize k. induction ready as [|it r IH]; intros k'; simpl; [done|].
    destruct (send k'); [done|]. constructor; [|done].
    apply backoff_not_reached.
Qed.

(* ================================================================== *)
(** * Submissions *)
(* ================================================================== *)

Section SubmissionFacts.
Context `{CharTables}.
Context (int_of_str : list ascii -> option Z).
Context (format_timestamp : Q -> list ascii).
Context (now : Q) (send : nat -> bool).

Lemma priority_override_cases (manual_priority : option pyvalue) :
  (exists mp,
     ChatSocketHandlers.priority_override int_of_str manual_priority = inl mp /\
     forall v, manual_priority = Some v ->
       ChatSocketHandlers.py_int int_of_str v <> OverflowError) \/
  (exists v r,
     manual_priority = Some v /\
     ChatSocketHandlers.py_int int_of_str v = OverflowError /\
     ChatSocketHandlers.priority_override int_of_str manual_priority = inr r).
Proof.
  unfold ChatSocketHandlers.priority_override.
  destruct manual_priority as [v|]; [|left; by eexists].
  destruct (ChatSocketHandlers.py_int int_of_str v) as [p| | |] eqn:E.
  - left. destruct ((p =? 1)%Z || (p =? 2)%Z || (p =? 3)%Z || (p =? 4)%Z);
      eexists; (split; [done|]); intros ? [= <-]; by rewrite E.
  - left. eexists. split; [done|]. intros ? [= <-]. by rewrite E.
  - left. eexists. split; [done|]. intros ? [= <-]. by rewrite E.
  - right. by exists v, OverflowError.
Qed.

(** The three ways [on_send_message] ends. *)
Lemma on_send_message_cases (data : request) (self : ChatSocketHandlers.t) :
  let raw_message := default (str "") (req_message data) in
  let raw_user := default (str "Anonymous") (req_user data) in
  let out :=
    ChatSocketHandlers.on_send_message int_of_str format_timestamp now send
      data self in
  (valid (validate_message raw_message) = false /\
   out = {| ChatSocketHandlers.returned := false;
            ChatSocketHandlers.emitted :=
              [EmitError (str "validation_error")
                 (error (validate_message raw_message))];
            ChatSocketHandlers.state := self |}) \/
  (valid (validate_message raw_message) = true /\
   (exists v, req_priority data = Some v /\
      ChatSocketHandlers.py_int int_of_str v = OverflowError) /\
   out = {| ChatSocketHandlers.returned := false;
            ChatSocketHandlers.emitted :=
              [EmitError (str "processing_error")
                 (str "Failed to process message")];
            ChatSocketHandlers.state := self |}) \/
  (valid (validate_message raw_message) = true /\
   exists mp next ms,
     ChatSocketHandlers.priority_override int_of_str (req_priority data)
       = inl mp /\
     PriorityMessageQueue.get_next_message
       (PriorityMessageQueue.add_message now
          (sanitized_message (validate_message raw_message))
          (validate_username raw_user) mp
          (ChatSocketHandlers.message_system self)).2
     = (Some next, ms) /\
     let flushed :=
       BatchQueue.flush
         (BatchQueue.enqueue
            (ChatSocketHandlers.format_message_for_client format_timestamp next)
            (ChatSocketHandlers.batch_queue self)) in
     let start :=
       match flushed.1 with
       | [] => (ChatSocketHandlers.retry_queue self, [], 0)
       | _ :: _ =>
           if send 0
           then (ChatSocketHandlers.retry_queue self, [EmitBatch flushed.1], 1)
           else (ChatSocketHandlers.enqueue_all now flushed.1
                   (ChatSocketHandlers.retry_queue self), [], 1)
       end in
     let drained :=
       ChatSocketHandlers.process_retry_queue now send
         start.1.1 start.1.2 start.2 in
     out = {| ChatSocketHandlers.returned := true;
              ChatSocketHandlers.emitted := drained.1.2;
              ChatSocketHandlers.state :=
                {| ChatSocketHandlers.message_system := ms;
                   ChatSocketHandlers.batch_queue := flushed.2;
                   ChatSocketHandlers.retry_queue := drained.1.1 |} |}).
Proof.
  intros raw_message raw_user out. subst out.
  unfold ChatSocketHandlers.on_send_message. fold raw_message raw_user.
  destruct (valid (validate_message raw_message)) eqn:Hv; [|by left].
  right. cbn [negb].
  destruct (priority_override_cases (req_priority data))
    as [(mp & -> & _)|(v & r & Hp & Hi & ->)]; [right|left; eauto].
  split; [done|].
  destruct (add_message_then_next now
              (sanitized_message (validate_message raw_message))
              (validate_username raw_user) mp
              (ChatSocketHandlers.message_system self)) as [next Hnext].
  destruct (PriorityMessageQueue.add_message now _ _ mp _) as [added ms0]
    eqn:Ha.
  cbn [snd] in *.
  destruct (PriorityMessageQueue.get_next_message ms0) as [r ms] eqn:Hg.
  cbn [fst] in Hnext. subst r.
  exists mp, next, ms. rewrite Ha. split; [done|]. split; [done|].
  destruct (BatchQueue.flush _) as [batch bq]. cbn [fst snd].
  destruct batch as [|b batch]; [|destruct (send 0)]; cbn [fst snd].
  all: by destruct (ChatSocketHandlers.process_retry_queue _ _ _ _ _)
         as [[rq log] k].
Qed.

End SubmissionFacts.


Lemma sent_messages_app (l1 l2 : list event) :
  sent_messages (l1 ++ l2) = sent_messages l1 ++ sent_messages l2.
Proof. unfold sent_messages. apply flat_map_app. Qed.

Lemma sent_messages_resent (l : list Wire.t) :
  sent_messages (EmitMessage <$> l) = l.
Proof. induction l as [|m l IH]; [done|]. simpl. by rewrite <- IH at 2. Qed.

Lemma no_error_app (l1 l2 : list event) :
  Forall (fun e => is_error_event e = false) l1 ->
  Forall (fun e => is_error_event e = false) l2 ->
  Forall (fun e => is_error_event e = false) (l1 ++ l2).
Proof. intros. by apply Forall_app. Qed.

Lemma resent_requeued (now : Q) (send : nat -> bool) (k : nat)
    (ready : list (RetryQueue.item Wire.t)) :
  resent send k ready
    ++ ((fun it : RetryQueue.item Wire.t => it.1.1)
          <$> requeued now send k ready)
  ≡ₚ (fun it : RetryQueue.item Wire.t => it.1.1) <$> ready.
Proof.
  revert k. induction ready as [|it ready IH]; intros k; [done|].
  cbn [resent requeued]. destruct (send k).
  - rewrite fmap_cons. cbn [app]. by rewrite IH.
  - rewrite !fmap_cons. cbn [fst]. rewrite <- Permutation_middle. by rewrite IH.
Qed.

Lemma requeued_counts (now : Q) (send : nat -> bool) (k : nat)
    (ready : list (RetryQueue.item Wire.t)) :
  Forall (fun it : RetryQueue.item Wire.t => it.1.2 = 0)
    (requeued now send k ready).
Proof.
  revert k. induction ready as [|it ready IH]; intros k; [done|].
  cbn [requeued]. destruct (send k); [done|]. by constructor.
Qed.

(** When every queued item has retries left, the drain removes no message
    without sending it. *)
Lemma drain_conserves (now : Q) (send : nat -> bool)
    (rq : RetryQueue.t Wire.t) (log : list event) (k : nat) :
  0 < RetryQueue.max_retries rq ->
  Forall (fun it : RetryQueue.item Wire.t =>
            it.1.2 < RetryQueue.max_retries rq) (RetryQueue.queue rq) ->
  let drained := ChatSocketHandlers.process_retry_queue now send rq log k in
  sent_messages drained.1.2 ++ queued_for_retry drained.1.1
    ≡ₚ sent_messages log ++ queued_for_retry rq /\
  RetryQueue.max_retries drained.1.1 = RetryQueue.max_retries rq /\
  Forall (fun it : RetryQueue.item Wire.t =>
            it.1.2 < RetryQueue.max_retries rq)
    (RetryQueue.queue drained.1.1).
Proof.
  intros Hmax Hall drained. subst drained.
  unfold ChatSocketHandlers.process_retry_queue.
  rewrite process_retry_queue_loop_closed_form. cbn [fst snd].
  set (ready := takewhile _ _).
  set (rest := drop (length ready) (RetryQueue.queue rq)).
  assert (RetryQueue.queue rq = ready ++ rest) as Hq
    by (subst rest ready; by rewrite takewhile_drop).
  assert (after_stop now rest = rest) as ->.
  { pose proof (takewhile_stop (retry_ready now (RetryQueue.max_retries rq))
                  (RetryQueue.queue rq)) as Hstop.
    fold ready in Hstop. fold rest in Hstop.
    destruct rest as [|it rest']; [done|].
    specialize (Hstop it eq_refl). unfold retry_ready in Hstop.
    rewrite Hq in Hall. apply Forall_app in Hall as [_ Hall].
    apply Forall_cons in Hall as [Hit _].
    rewrite (bool_decide_eq_true_2 _ Hit), andb_true_r in Hstop.
    cbn [after_stop]. by rewrite Hstop. }
  unfold queued_for_retry. cbn [RetryQueue.queue RetryQueue.max_retries].
  split; [|split; [done|]].
  - rewrite sent_messages_app, sent_messages_resent, Hq, !fmap_app.
    rewrite <- (resent_requeued now send k ready).
    rewrite <- !app_assoc. do 2 apply Permutation_app_head.
    apply Permutation_app_comm.
  - apply Forall_app. split.
    + rewrite Hq in Hall. by apply Forall_app in Hall as [_ Hall].
    + eapply Forall_impl; [apply requeued_counts|]. intros it ->. done.
Qed.

Lemma enqueue_all_spec (now : Q) (batch : list Wire.t)
    (rq : RetryQueue.t Wire.t) :
  RetryQueue.queue (ChatSocketHandlers.enqueue_all now batch rq)
    = RetryQueue.queue rq
        ++ ((fun m => (m, 0, RetryQueue.backoff_deadline now 0)) <$> batch) /\
  RetryQueue.max_retries (ChatSocketHandlers.enqueue_all now batch rq)
    = RetryQueue.max_retries rq.
Proof.
  unfold ChatSocketHandlers.enqueue_all. revert rq.
  induction batch as [|m batch IH]; intros rq; simpl; [by rewrite app_nil_r|].
  destruct (IH (RetryQueue.enqueue now m 0 rq)) as [-> ->]. simpl.
  by rewrite <- app_assoc.
Qed.

Section Submissions.
Context `{CharTables}.
Context (int_of_str : list ascii -> option Z).
Context (format_timestamp : Q -> list ascii).
Context (now : Q) (send : nat -> bool).


(** Lines 131-145 of [on_send_message]: the batch queue takes the
    message, a batch is released or not, broadcast or handed to the retry
    queue, and the retry queue is drained. *)
Lemma pipeline_conserves (fmt : Wire.t) (bq : BatchQueue.t Wire.t)
    (rq : RetryQueue.t Wire.t) :
  0 < RetryQueue.max_retries rq ->
  Forall (fun it : RetryQueue.item Wire.t => it.1.2 < RetryQueue.max_retries rq)
    (RetryQueue.queue rq) ->
  let flushed := BatchQueue.flush (BatchQueue.enqueue fmt bq) in
  let start :=
    match flushed.1 with
    | [] => (rq, [], 0)
    | _ :: _ =>
        if send 0 then (rq, [EmitBatch flushed.1], 1)
        else (ChatSocketHandlers.enqueue_all now flushed.1 rq, [], 1)
    end in
  let drained :=
    ChatSocketHandlers.process_retry_queue now send
      start.1.1 start.1.2 start.2 in
  sent_messages drained.1.2 ++ BatchQueue.queue flushed.2
    ++ queued_for_retry drained.1.1
  ≡ₚ BatchQueue.queue bq ++ fmt :: queued_for_retry rq /\
  RetryQueue.max_retries drained.1.1 = RetryQueue.max_retries rq /\
  Forall (fun it : RetryQueue.item Wire.t => it.1.2 < RetryQueue.max_retries rq)
    (RetryQueue.queue drained.1.1).
Proof.
  intros Hmax Hall flushed start drained.
  destruct (batch_flush_split (BatchQueue.enqueue fmt bq)) as (Hs & _).
  cbn [BatchQueue.enqueue BatchQueue.queue] in Hs. fold flushed in Hs.
  assert (RetryQueue.max_retries start.1.1 = RetryQueue.max_retries rq /\
          Forall (fun it : RetryQueue.item Wire.t =>
                    it.1.2 < RetryQueue.max_retries rq)
            (RetryQueue.queue start.1.1) /\
          sent_messages start.1.2 ++ queued_for_retry start.1.1
            ≡ₚ flushed.1 ++ queued_for_retry rq) as (Hm0 & Hall0 & Hperm0).
  { subst start. destruct flushed.1 as [|b batch] eqn:Hb; [done|].
    destruct (send 0); cbn [fst snd].
    - split; [done|]. split; [done|]. cbn [sent_messages flat_map].
      by rewrite app_nil_r.
    - destruct (enqueue_all_spec now (b :: batch) rq) as [Hq Hm].
      split; [done|]. unfold queued_for_retry. rewrite Hq. split.
      + apply Forall_app. split; [done|]. apply Forall_fmap.
        apply Forall_forall. intros m _. done.
      + cbn [sent_messages flat_map app]. rewrite fmap_app.
        rewrite <- list_fmap_compose. cbn [compose fst].
        rewrite list_fmap_id. apply Permutation_app_comm. }
  destruct (drain_conserves now send start.1.1 start.1.2 start.2)
    as (Hperm & Hm & Hall'); [by rewrite Hm0|by rewrite Hm0|].
  fold drained in Hperm, Hm, Hall'. rewrite Hm0 in Hm, Hall'.
  split; [|done].
  rewrite (Permutation_app_comm (BatchQueue.queue flushed.2)).
  rewrite app_assoc, Hperm, Hperm0.
  rewrite (Permutation_app_comm _ (BatchQueue.queue flushed.2)).
  rewrite app_assoc.
  rewrite (Permutation_app_comm (BatchQueue.queue flushed.2)).
  rewrite <- Hs. rewrite <- app_assoc. done.
Qed.


End Submissions.


(* ================================================================== *)
(** * The server *)
(* ================================================================== *)

Section ServerFacts.
Context `{CharTables}.
Context (int_of_str : list ascii -> option Z).
Context (format_timestamp : Q -> list ascii).

Lemma is_heap_nil {A} (lt : A -> A -> bool) : is_heap lt [].
Proof. intros i _ x y Hx. done. Qed.

(** With nothing pending, the message just added is the next one. *)
Lemma empty_heap_roundtrip now msg usr mp s :
  PriorityMessageQueue.priority_queue s = [] ->
  let a := PriorityMessageQueue.add_message now msg usr mp s in
  PriorityMessageQueue.get_next_message a.2
  = (Some a.1,
     {| PriorityMessageQueue.priority_queue := [];
        PriorityMessageQueue.history :=
          CircularQueue.enqueue a.1 (PriorityMessageQueue.history s);
        PriorityMessageQueue.message_counter :=
          (PriorityMessageQueue.message_counter s + 1)%Z |}).
Proof.
  intros Hq a.
  pose proof (add_message_queue now msg usr mp s) as Hpush. fold a in Hpush.
  pose proof (add_message_history now msg usr mp s) as Hh. fold a in Hh.
  destruct (add_message_counter now msg usr mp s) as [_ Hc]. fold a in Hc.
  rewrite Hq in Hpush.
  destruct (heappush_spec entry_lt entry_lt_asym entry_le_trans [] (entry_of a.1)
              (is_heap_nil entry_lt)) as [Hheap Hperm].
  rewrite <- Hpush in Hheap, Hperm.
  apply Permutation_singleton_r in Hperm.
  unfold PriorityMessageQueue.get_next_message. rewrite Hperm.
  destruct (heappop_is_Some entry_lt [entry_of a.1]) as [[x heap'] Hpop]; [done|].
  rewrite Hperm in Hheap.
  destruct (heappop_spec entry_lt entry_lt_asym entry_le_trans _ _ _ Hheap Hpop)
    as (Hx & _ & Hp).
  injection Hx as <-. apply Permutation_cons_inv, Permutation_nil_l in Hp.
  subst heap'. rewrite Hpop. unfold entry_of. by rewrite Hh, Hc.
Qed.

Lemma broadcast_system_message_spec (now : Q) (send : nat -> bool)
    (msg : list ascii) (priority : Z) (self : ChatSocketHandlers.t) :
  let added :=
    PriorityMessageQueue.add_message now msg (str "SYSTEM") (Some priority)
      (ChatSocketHandlers.message_system self) in
  let r :=
    Server.broadcast_system_message format_timestamp now send msg priority
      self in
  exists next,
    PriorityMessageQueue.get_next_message added.2
      = (Some next, ChatSocketHandlers.message_system r.2) /\
    r.1 = (if send 0
           then [EmitBatch
                   (BatchQueue.queue (ChatSocketHandlers.batch_queue self)
                      ++ [ChatSocketHandlers.format_message_for_client
                            format_timestamp next])]
           else []) /\
    BatchQueue.queue (ChatSocketHandlers.batch_queue r.2) = [] /\
    BatchQueue.min_batch_size (ChatSocketHandlers.batch_queue r.2)
      = BatchQueue.min_batch_size (ChatSocketHandlers.batch_queue self) /\
    BatchQueue.max_batch_size (ChatSocketHandlers.batch_queue r.2)
      = BatchQueue.max_batch_size (ChatSocketHandlers.batch_queue self) /\
    ChatSocketHandlers.retry_queue r.2 = ChatSocketHandlers.retry_queue self.
Proof.
  intros added r.
  destruct (add_message_then_next now msg (str "SYSTEM") (Some priority)
              (ChatSocketHandlers.message_system self)) as [next Hnext].
  fold added in Hnext. exists next. subst r.
  unfold Server.broadcast_system_message. fold added.
  destruct added as [m ms0]. cbn [snd] in *.
  destruct (PriorityMessageQueue.get_next_message ms0) as [r ms].
  cbn [fst] in Hnext. subst r. by cbn.
Qed.

(** X17: [broadcast_system_message] admits the text as it is (it is
    not sanitized) as a message of "SYSTEM" whose provenance is "manual"
    or "auto", not "system", takes the next message off the priority
    queue, and releases the whole batch queue with it, however few or
    many messages it holds.  When the broadcast fails nothing is emitted
    and the released messages are in no queue any more: the retry queue
    is as before. *)
Theorem system_broadcast_flushes_everything (now : Q) (send : nat -> bool)
    (msg : list ascii) (priority : Z) (self : ChatSocketHandlers.t) :
  let added :=
    PriorityMessageQueue.add_message now msg (str "SYSTEM") (Some priority)
      (ChatSocketHandlers.message_system self) in
  let r :=
    Server.broadcast_system_message format_timestamp now send msg priority
      self in
  text added.1 = msg /\
  user added.1 = str "SYSTEM" /\
  detection_method added.1
    = (if (priority =? 0)%Z then str "auto" else str "manual") /\
  exists next,
    PriorityMessageQueue.get_next_message added.2
      = (Some next, ChatSocketHandlers.message_system r.2) /\
    r.1 = (if send 0
           then [EmitBatch
                   (BatchQueue.queue (ChatSocketHandlers.batch_queue self)
                      ++ [ChatSocketHandlers.format_message_for_client
                            format_timestamp next])]
           else []) /\
    BatchQueue.queue (ChatSocketHandlers.batch_queue r.2) = [] /\
    BatchQueue.min_batch_size (ChatSocketHandlers.batch_queue r.2)
      = BatchQueue.min_batch_size (ChatSocketHandlers.batch_queue self) /\
    BatchQueue.max_batch_size (ChatSocketHandlers.batch_queue r.2)
      = BatchQueue.max_batch_size (ChatSocketHandlers.batch_queue self) /\
    ChatSocketHandlers.retry_queue r.2 = ChatSocketHandlers.retry_queue self.
Proof.
  intros added r.
  destruct (add_message_fields now msg (str "SYSTEM") (Some priority)
              (ChatSocketHandlers.message_system self)) as (Ht & Hu & _ & _ & Hd).
  fold added in Ht, Hu, Hd. split; [done|]. split; [done|]. split.
  { by destruct (priority =? 0)%Z; destruct Hd. }
  apply broadcast_system_message_spec.
Qed.

Lemma deque_append_bound {A} (maxlen : nat) (q : list A) (x : A) :
  length q <= maxlen ->
  length (CircularQueue.deque_append maxlen q x) <= maxlen.
Proof.
  intros Hl. unfold CircularQueue.deque_append.
  destruct (decide _) as [Hlt|Hge]; [|lia].
  rewrite length_drop, length_app. simpl. lia.
Qed.

Lemma process_retry_queue_max_retries now send rq log k :
  RetryQueue.max_retries
    (ChatSocketHandlers.process_retry_queue now send rq log k).1.1
  = RetryQueue.max_retries rq.
Proof.
  unfold ChatSocketHandlers.process_retry_queue.
  by rewrite process_retry_queue_loop_closed_form.
Qed.

Lemma process_retry_queue_batches now send rq log k batch :
  EmitBatch batch
    ∈ (ChatSocketHandlers.process_retry_queue now send rq log k).1.2 ->
  EmitBatch batch ∈ log.
Proof.
  unfold ChatSocketHandlers.process_retry_queue.
  rewrite process_retry_queue_loop_closed_form. cbn [fst snd].
  intros [Hin|Hin]%elem_of_app; [done|].
  by apply list_elem_of_fmap in Hin as (m & Hm & _).
Qed.

(** What [flush] does in the server, where batches of five are released. *)
Lemma server_flush (bq : BatchQueue.t Wire.t) (m : Wire.t) :
  BatchQueue.min_batch_size bq = 5 ->
  BatchQueue.max_batch_size bq = 50 ->
  length (BatchQueue.queue bq) < 5 ->
  let flushed := BatchQueue.flush (BatchQueue.enqueue m bq) in
  BatchQueue.min_batch_size flushed.2 = 5 /\
  BatchQueue.max_batch_size flushed.2 = 50 /\
  length (BatchQueue.queue flushed.2) < 5 /\
  (flushed.1 = [] \/ length flushed.1 = 5) /\
  flushed.1 ++ BatchQueue.queue flushed.2 = BatchQueue.queue bq ++ [m].
Proof.
  intros Hmin Hmax Hlen flushed.
  destruct (batch_flush_split (BatchQueue.enqueue m bq))
    as (Hs & Hmin' & Hmax' & Hb).
  fold flushed in Hs, Hmin', Hmax', Hb.
  cbn [BatchQueue.enqueue BatchQueue.queue BatchQueue.min_batch_size
       BatchQueue.max_batch_size] in *.
  rewrite Hmin in *. rewrite Hmax in *.
  apply (f_equal length) in Hs as Hl. rewrite !length_app in Hl.
  cbn [length] in Hl.
  split; [done|]. split; [done|].
  destruct Hb as [Hb|[Hge Hb]].
  - split; [|split; [by left|done]].
    rewrite Hb in Hs, Hl. cbn [length app] in *.
    destruct (decide (length (BatchQueue.queue flushed.2) < 5)); [done|].
    exfalso. revert Hb. unfold flushed, BatchQueue.flush.
    cbn [BatchQueue.enqueue BatchQueue.queue BatchQueue.min_batch_size
         BatchQueue.max_batch_size].
    rewrite Hmin, Hmax. rewrite decide_False by (rewrite length_app; simpl; lia).
    rewrite flush_loop_spec. cbn [fst length app]. rewrite Nat.sub_0_r.
    intros Hnil. apply (f_equal length) in Hnil.
    rewrite length_take, length_app in Hnil. cbn [length] in Hnil. lia.
  - split; [lia|]. split; [right; lia|done].
Qed.



Lemma get_queue_stats_nothing_pending (ms : PriorityMessageQueue.t) :
  PriorityMessageQueue.priority_queue ms = [] ->
  total_messages (get_queue_stats ms) = 0 /\
  priority_breakdown (get_queue_stats ms) = [] /\
  history_size (get_queue_stats ms)
    = length (CircularQueue.queue (PriorityMessageQueue.history ms)).
Proof. unfold get_queue_stats. intros ->. done. Qed.

(** Every call keeps the server steady, and emits what is expected. *)
Lemma step_steady (c : Server.call) (s : Server.t) :
  steady s ->
  steady (Server.step int_of_str format_timestamp c s).2 /\
  Forall expected_output (Server.step int_of_str format_timestamp c s).1.
Proof.
  intros (Hq & Hhm & Hhl & Hmin & Hmax & Hbl & Hmr & Hrc & Hsm & Hsl).
  destruct (get_queue_stats_nothing_pending _ Hq) as (Ht & Hb & Hs).
  destruct c as [now|now|now send data| |now send msg priority].
  - cbn [Server.step Server.on_connect SessionQueue.enqueue fst snd].
    split.
    + unfold steady. cbn [Server.handlers Server.session_queue
        SessionQueue.maxlen SessionQueue.queue].
      split_and!; try done. rewrite Hsm. by apply deque_append_bound.
    + apply Forall_app. split.
      * apply Forall_forall. intros o Ho.
        apply list_elem_of_In, in_map_iff in Ho as (m & <- & _). done.
      * constructor; [|done]. cbn [expected_output].
        rewrite Ht, Hb, Hs. done.
  - cbn [Server.step Server.on_disconnect SessionQueue.enqueue fst snd].
    split; [|done].
    unfold steady. cbn [Server.handlers Server.session_queue
      SessionQueue.maxlen SessionQueue.queue].
    split_and!; try done. rewrite Hsm. by apply deque_append_bound.
  - cbn [Server.step fst snd].
    destruct (on_send_message_cases int_of_str format_timestamp now send data
                (Server.handlers s))
      as [[Hv ->]|[(Hv & Hov & ->)|(Hv & mp & next & ms & Hmp & Hnext & ->)]].
    + cbn [ChatSocketHandlers.state ChatSocketHandlers.emitted map].
      split; [|by repeat constructor].
      unfold steady. cbn [Server.handlers Server.session_queue]. done.
    + cbn [ChatSocketHandlers.state ChatSocketHandlers.emitted map].
      split; [|by repeat constructor].
      unfold steady. cbn [Server.handlers Server.session_queue]. done.
    + rewrite empty_heap_roundtrip in Hnext by done.
      injection Hnext as <- <-.
      set (fmt := ChatSocketHandlers.format_message_for_client _ _).
      destruct (server_flush (ChatSocketHandlers.batch_queue (Server.handlers s))
                  fmt Hmin Hmax Hbl) as (Hmin' & Hmax' & Hbl' & Hb5 & Hsplit).
      set (flushed := BatchQueue.flush _) in *.
      set (start := match flushed.1 with
                    | [] => _
                    | _ :: _ => _
                    end).
      assert (RetryQueue.max_retries start.1.1 = 5 /\
              Forall (fun it : RetryQueue.item Wire.t => it.1.2 = 0)
                (RetryQueue.queue start.1.1) /\
              (forall batch, EmitBatch batch ∈ start.1.2 -> length batch = 5))
        as (Hm0 & Hc0 & Hb0).
      { subst start. destruct flushed.1 as [|b batch] eqn:Hfb.
        - split; [done|]. split; [done|]. intros ? Hin.
          by apply elem_of_nil in Hin.
        - destruct Hb5 as [?|Hb5]; [done|].
          destruct (send 0); cbn [fst snd].
          + split; [done|]. split; [done|]. intros ? Hin.
            apply list_elem_of_singleton in Hin. by injection Hin as ->.
          + destruct (enqueue_all_spec now (b :: batch)
                        (ChatSocketHandlers.retry_queue (Server.handlers s)))
              as [-> ->].
            split; [done|]. split.
            * apply Forall_app. split; [done|]. apply Forall_fmap.
              by apply Forall_forall.
            * intros ? Hin. by apply elem_of_nil in Hin. }
      cbn [ChatSocketHandlers.state ChatSocketHandlers.emitted]. split.
      * unfold steady. cbn [Server.handlers Server.session_queue
          ChatSocketHandlers.message_system ChatSocketHandlers.batch_queue
          ChatSocketHandlers.retry_queue PriorityMessageQueue.priority_queue
          PriorityMessageQueue.history CircularQueue.enqueue
          CircularQueue.max_size CircularQueue.queue].
        split; [done|]. split; [done|].
        split; [rewrite Hhm; by apply deque_append_bound|].
        split; [done|]. split; [done|]. split; [done|].
        split; [by rewrite process_retry_queue_max_retries|].
        split; [by apply process_retry_queue_loop_counts|]. done.
      * apply Forall_forall. intros o Ho.
        apply list_elem_of_In, in_map_iff in Ho as (e & <- & He).
        apply list_elem_of_In in He.
        destruct e as [| batch |]; [done| |done].
        apply process_retry_queue_batches, Hb0 in He.
        cbn [expected_output]. lia.
  - cbn [Server.step Server.on_get_stats fst snd]. split; [done|].
    constructor; [|done]. cbn [expected_output message_stats batch_queue_size
      session_queue_size]. rewrite Ht, Hb, Hs.
    unfold BatchQueue.size, SessionQueue.size. done.
  - cbn [Server.step].
    destruct (broadcast_system_message_spec now send msg priority
                (Server.handlers s))
      as (next & Hnext & Hev & Hbq & Hmin' & Hmax' & Hrq).
    rewrite empty_heap_roundtrip in Hnext by done.
    destruct (Server.broadcast_system_message _ _ _ _ _ _) as [evs h].
    cbn [fst snd] in *. injection Hnext as <- Hms. split.
    + unfold steady. cbn [Server.handlers Server.session_queue].
      rewrite <- Hms, Hbq, Hmin', Hmax', Hrq.
      cbn [PriorityMessageQueue.priority_queue PriorityMessageQueue.history
           CircularQueue.enqueue CircularQueue.max_size CircularQueue.queue
           length].
      split; [done|]. split; [done|].
      split; [rewrite Hhm; by apply deque_append_bound|].
      split; [done|]. split; [done|]. split; [lia|]. done.
    + rewrite Hev. destruct (send 0); [|done].
      constructor; [|done]. cbn [expected_output].
      rewrite length_app. cbn [length]. lia.
Qed.

Lemma run_steady (calls : list Server.call) (s : Server.t) :
  steady s ->
  steady (Server.run int_of_str format_timestamp calls s).2 /\
  Forall expected_output (Server.run int_of_str format_timestamp calls s).1.
Proof.
  revert s. induction calls as [|c calls IH]; intros s Hs; [done|].
  cbn [Server.run]. destruct (step_steady c s Hs) as [Hs' Ho].
  destruct (Server.step _ _ c s) as [out s']. cbn [fst snd] in *.
  destruct (IH s' Hs') as [Hs'' Ho'].
  destruct (Server.run _ _ calls s') as [outs s'']. cbn [fst snd] in *.
  split; [done|]. by apply Forall_app.
Qed.

Lemma init_steady : steady Server.init.
Proof. unfold steady. cbn. repeat split; try done; lia. Qed.

End ServerFacts.

(** X18: between two calls the server is steady, whatever calls came
    before: no message is pending in the priority queue, fewer than five
    messages wait in the batch queue, every item of the retry queue has
    the retry count 0 (of five allowed), and the history and the session
    queue hold at most 1000 entries.  So the message that a handler
    takes off the priority queue is the one it has just added, whatever
    its priority: the priority queue never changes the order of
    delivery. *)
Theorem server_is_steady `{CharTables}
    (int_of_str : list ascii -> option Z) (format_timestamp : Q -> list ascii)
    (calls : list Server.call) :
  let s := (Server.run int_of_str format_timestamp calls Server.init).2 in
  let ms := ChatSocketHandlers.message_system (Server.handlers s) in
  steady s /\
  forall now msg usr manual_priority,
    let added :=
      PriorityMessageQueue.add_message now msg usr manual_priority ms in
    (PriorityMessageQueue.get_next_message added.2).1 = Some added.1 /\
    PriorityMessageQueue.priority_queue
      (PriorityMessageQueue.get_next_message added.2).2 = [].
Proof.
  intros s ms.
  destruct (run_steady int_of_str format_timestamp calls Server.init init_steady)
    as [Hs _].
  fold s in Hs. split; [done|]. intros now msg usr mp added.
  destruct Hs as (Hq & _). subst added.
  by rewrite (empty_heap_roundtrip now msg usr mp ms Hq).
Qed.

(** X19: what the server emits, whatever calls came before: a batch
    ([new_message_batch]) holds between one and five messages, and the
    statistics sent on [connect] and on [get_stats] report no pending
    message and an empty breakdown by priority, a history of at most
    1000 messages, a batch queue of fewer than five messages and a
    session queue of at most 1000 events. *)
Theorem server_outputs_are_expected `{CharTables}
    (int_of_str : list ascii -> option Z) (format_timestamp : Q -> list ascii)
    (calls : list Server.call) :
  let outs := (Server.run int_of_str format_timestamp calls Server.init).1 in
  (forall batch, Pipeline (EmitBatch batch) ∈ outs -> 1 <= length batch <= 5) /\
  (forall stats, ClientStats stats ∈ outs ->
     total_messages stats = 0 /\ priority_breakdown stats = [] /\
     history_size stats <= 1000) /\
  (forall stats, ClientDetailedStats stats ∈ outs ->
     total_messages (message_stats stats) = 0 /\
     priority_breakdown (message_stats stats) = [] /\
     history_size (message_stats stats) <= 1000 /\
     batch_queue_size stats < 5 /\
     session_queue_size stats <= 1000).
Proof.
  intros outs.
  destruct (run_steady int_of_str format_timestamp calls Server.init init_steady)
    as [_ Ho].
  fold outs in Ho. rewrite Forall_forall in Ho.
  split; [|split]; intros x Hx; exact (Ho _ Hx).
Qed.

Section ServerRuns.
Context `{CharTables}.
Context (int_of_str : list ascii -> option Z).
Context (format_timestamp : Q -> list ascii).







Lemma run_session_log (calls : list Server.call) (s : Server.t)
    (log : list SessionQueue.event) :
  SessionQueue.maxlen (Server.session_queue s) = 1000 ->
  SessionQueue.queue (Server.session_queue s)
    = drop (length log - 1000) log ->
  let s' := (Server.run int_of_str format_timestamp calls s).2 in
  let log' := log ++ session_events calls in
  SessionQueue.queue (Server.session_queue s')
    = drop (length log' - 1000) log'.
Proof.
  revert s log. induction calls as [|c calls IH]; intros s log Hm Hq.
  { cbn. by rewrite app_nil_r. }
  cbn [Server.run].
  assert (let s1 := (Server.step int_of_str format_timestamp c s).2 in
          let log1 := log ++ session_events [c] in
          SessionQueue.maxlen (Server.session_queue s1) = 1000 /\
          SessionQueue.queue (Server.session_queue s1)
            = drop (length log1 - 1000) log1) as [Hm1 Hq1].
  { destruct c as [now|now|now send data| |now send msg priority].
    - cbn [Server.step Server.on_connect SessionQueue.enqueue fst snd
           Server.session_queue SessionQueue.maxlen SessionQueue.queue
           session_events omap list_omap].
      split; [done|]. rewrite Hm, Hq. apply deque_append_last.
    - cbn [Server.step Server.on_disconnect SessionQueue.enqueue fst snd
           Server.session_queue SessionQueue.maxlen SessionQueue.queue
           session_events omap list_omap].
      split; [done|]. rewrite Hm, Hq. apply deque_append_last.
    - cbn. by rewrite app_nil_r.
    - cbn. by rewrite app_nil_r.
    - cbn [Server.step]. destruct (Server.broadcast_system_message _ _ _ _ _ _).
      cbn. by rewrite app_nil_r. }
  destruct (Server.step _ _ c s) as [out s1]. cbn [fst snd] in *.
  specialize (IH s1 _ Hm1 Hq1).
  destruct (Server.run _ _ calls s1) as [outs s2]. cbn [fst snd] in *.
  rewrite IH. unfold session_events. cbn [omap list_omap].
  change (list_omap _ _ ?f ?l) with (omap f l).
  rewrite <- !app_assoc.
  by destruct c.
Qed.

End ServerRuns.



(** X21: the server only ever adds to the session queue: after any
    calls it holds the last 1000 of the "login" and "logout" events of
    "Anonymous" that the [connect] and [disconnect] calls created, in
    their order, all still pending. *)
Theorem server_session_queue_keeps_last_events `{CharTables}
    (int_of_str : list ascii -> option Z) (format_timestamp : Q -> list ascii)
    (calls : list Server.call) :
  let s := (Server.run int_of_str format_timestamp calls Server.init).2 in
  let log := session_events calls in
  SessionQueue.queue (Server.session_queue s) = drop (length log - 1000) log /\
  SessionQueue.size (Server.session_queue s) = Nat.min (length log) 1000 /\
  Forall (fun ev => SessionQueue.status ev = str "pending" /\
                    SessionQueue.user ev = str "Anonymous")
    (SessionQueue.queue (Server.session_queue s)).
Proof.
  intros s log.
  pose proof (run_session_log int_of_str format_timestamp calls Server.init []
                eq_refl eq_refl) as Hq.
  fold s in Hq. cbn [app] in Hq. fold log in Hq.
  split; [done|]. unfold SessionQueue.size. rewrite Hq, length_drop.
  split; [lia|]. apply Forall_drop. subst log. clear Hq s.
  unfold session_events. induction calls as [|c calls IH]; [done|]. cbn [omap list_omap].
  change (list_omap _ _ ?f ?l) with (omap f l).
  destruct c; try done; by constructor.
Qed.



(* ================================================================== *)
(** * Keywords *)
(* ================================================================== *)

Lemma ascii_eqb_refl (a : ascii) : ascii_eqb a a = true.
Proof. unfold ascii_eqb. apply N.eqb_refl. Qed.

Lemma startswith_app (p s : list ascii) : startswith p (p ++ s) = true.
Proof. induction p as [|a p IH]; [done|]. simpl. by rewrite ascii_eqb_refl. Qed.

Lemma contains_app (p a b : list ascii) : contains p (a ++ p ++ b) = true.
Proof.
  induction a as [|x a IH].
  - destruct p as [|c p]; [by destruct b|].
    cbn [app contains]. change (c :: p ++ b) with ((c :: p) ++ b).
    by rewrite startswith_app.
  - cbn [app contains]. rewrite IH. apply orb_true_r.
Qed.

Lemma dropwhile_app_stop (p : ascii -> bool) (a r : list ascii) (c : ascii) :
  p c = false -> dropwhile p (a ++ c :: r) = dropwhile p a ++ c :: r.
Proof.
  intros Hc. induction a as [|x a IH]; simpl; [by rewrite Hc|].
  by destruct (p x).
Qed.

Section KeywordFacts.
Context `{CharTables}.

(** Trimming keeps a stretch of characters that are not white space. *)
Lemma strip_keeps (a k b : list ascii) :
  k <> [] -> Forall (fun c => isspace c = false) k ->
  exists a' b', strip (a ++ k ++ b) = a' ++ k ++ b'.
Proof.
  intros Hne Hk. unfold strip, lstrip, rstrip.
  destruct k as [|c k']; [done|]. apply Forall_cons in Hk as Hck.
  destruct Hck as [Hc _].
  cbn [app]. rewrite dropwhile_app_stop by done.
  set (a' := dropwhile isspace a). change (c :: k' ++ b) with ((c :: k') ++ b).
  set (k := c :: k') in *.
  rewrite !rev_app_distr.
  destruct (rev k) as [|d r'] eqn:Hr.
  { apply (f_equal length) in Hr. rewrite length_rev in Hr. done. }
  assert (isspace d = false) as Hd.
  { rewrite Forall_forall in Hk. apply Hk. apply list_elem_of_In, in_rev.
    rewrite Hr. by left. }
  rewrite <- app_assoc. cbn [app]. rewrite dropwhile_app_stop by done.
  exists a', (rev (dropwhile isspace (rev b))).
  change (d :: r' ++ rev a') with ((d :: r') ++ rev a'). rewrite <- Hr.
  by rewrite !rev_app_distr, !rev_involutive, <- app_assoc.
Qed.

Lemma lower_app (a b : list ascii) : lower (a ++ b) = lower a ++ lower b.
Proof. unfold lower. apply map_app. Qed.

Lemma keyword_found (keywords : list (list ascii))
    (keyword found pre post : list ascii) :
  keyword ∈ keywords -> keyword <> [] ->
  lower found = keyword ->
  Forall (fun c => isspace c = false) keyword ->
  existsb (fun keyword =>
             contains keyword (strip (lower (pre ++ found ++ post))))
    keywords = true.
Proof.
  intros Hin Hne Hl Hsp. apply existsb_exists. exists keyword.
  split; [by apply list_elem_of_In|].
  rewrite !lower_app, Hl.
  destruct (strip_keeps (lower pre) keyword (lower post) Hne Hsp)
    as (a' & b' & ->).
  apply contains_app.
Qed.

End KeywordFacts.

(** X23: a keyword counts wherever it occurs, in any letter case and
    also inside a longer word.  A text that holds, between any two
    texts, a text whose lower-cased form is one of the urgent keywords
    is detected as URGENT, whatever else it holds; one that holds a high
    priority keyword in this way is detected as HIGH, or as URGENT.
    (The keyword must be free of white space as the character tables
    have it, which holds of Python's.) *)
Theorem keyword_counts_anywhere `{CharTables}
    (keyword found pre post : list ascii) :
  lower found = keyword ->
  Forall (fun c => isspace c = false) keyword ->
  (keyword ∈ URGENT_KEYWORDS ->
   auto_detect_priority (pre ++ found ++ post) = 1%Z) /\
  (keyword ∈ HIGH_KEYWORDS ->
   auto_detect_priority (pre ++ found ++ post) = 1%Z \/
   auto_detect_priority (pre ++ found ++ post) = 2%Z).
Proof.
  intros Hl Hsp. split; intros Hin.
  - assert (keyword <> []) as Hne.
    { intros ->. revert Hin. unfold URGENT_KEYWORDS.
      rewrite !elem_of_cons, elem_of_nil. intuition discriminate. }
    unfold auto_detect_priority.
    by rewrite (keyword_found URGENT_KEYWORDS keyword found pre post).
  - assert (keyword <> []) as Hne.
    { intros ->. revert Hin. unfold HIGH_KEYWORDS.
      rewrite !elem_of_cons, elem_of_nil. intuition discriminate. }
    unfold auto_detect_priority.
    rewrite (keyword_found HIGH_KEYWORDS keyword found pre post) by done.
    destruct (existsb _ URGENT_KEYWORDS); auto.
Qed.

Lemma keyword_counts_anywhere_witness :
  (str "bug" ∈ URGENT_KEYWORDS ->
   auto_detect_priority (H := latin1_tables)
     (str "we are DE" ++ str "BUG" ++ str "GING it") = 1%Z) /\
  (str "bug" ∈ HIGH_KEYWORDS ->
   auto_detect_priority (H := latin1_tables)
     (str "we are DE" ++ str "BUG" ++ str "GING it") = 1%Z \/
   auto_detect_priority (H := latin1_tables)
     (str "we are DE" ++ str "BUG" ++ str "GING it") = 2%Z).
Proof.
  apply (keyword_counts_anywhere (H := latin1_tables)
           (str "bug") (str "BUG") (str "we are DE") (str "GING it")).
  - vm_compute. reflexivity.
  - repeat constructor.
Defined.

(* ================================================================== *)
(** * What reaches the clients *)
(* ================================================================== *)

Lemma messages_of_pipeline (evs : list event) :
  flat_map messages_of (map Pipeline evs) = sent_messages evs.
Proof.
  induction evs as [|e evs IH]; [done|]. cbn [map flat_map messages_of].
  rewrite IH. change (e :: evs) with ([e] ++ evs).
  by rewrite sent_messages_app.
Qed.

Section Sanitized.
Context `{CharTables}.
Context (int_of_str : list ascii -> option Z).
Context (format_timestamp : Q -> list ascii).

Lemma validate_message_sanitized (msg : list ascii) :
  valid (validate_message msg) = true ->
  markup_free (sanitized_message (validate_message msg)) /\
  sanitized_message (validate_message msg) <> [].
Proof.
  unfold validate_message. destruct (strip msg) as [|c rest]; [done|].
  destruct (decide _); [done|]. intros _. cbn [sanitized_message].
  split; [apply html_escape_no_markup|].
  intros E. pose proof (html_escape_length (c :: rest)) as Hl.
  rewrite E in Hl. cbn [length] in Hl. lia.
Qed.

Lemma validate_username_markup_free (username : list ascii) :
  markup_free (validate_username username).
Proof. unfold validate_username. apply html_escape_no_markup. Qed.

Lemma format_sanitized (m : message) :
  sanitized m ->
  sanitized_payload
    (ChatSocketHandlers.format_message_for_client format_timestamp m).
Proof. done. Qed.

(** The server is steady and holds sanitized messages only. *)
Lemma step_sanitized (c : Server.call) (s : Server.t) :
  let h s := Server.handlers s in
  let holds s :=
    Forall sanitized
      (CircularQueue.queue
         (PriorityMessageQueue.history (ChatSocketHandlers.message_system (h s))))
    /\ Forall sanitized_payload
         (BatchQueue.queue (ChatSocketHandlers.batch_queue (h s)))
    /\ Forall sanitized_payload
         (queued_for_retry (ChatSocketHandlers.retry_queue (h s))) in
  client_call c -> steady s -> holds s ->
  let r := Server.step int_of_str format_timestamp c s in
  holds r.2 /\ Forall sanitized_payload (flat_map messages_of r.1).
Proof.
  intros h holds Hc Hs (Hh & Hb & Hr) r. subst r holds h. cbv beta in *.
  destruct Hs as (Hq & Hhm & Hhl & Hmin & Hmax & Hbl & Hmr & Hrc & Hsm & Hsl).
  destruct c as [now|now|now send data| |now send msg priority]; [| | | |done].
  - cbn [Server.step Server.on_connect SessionQueue.enqueue fst snd
      Server.handlers].
    split; [done|]. rewrite flat_map_app. apply Forall_app. split; [|done].
    unfold CircularQueue.get_all. clear Hhl.
    induction Hh as [|m l Hm _ IH]; [done|]. cbn [map flat_map messages_of app].
    constructor; [by apply format_sanitized|done].
  - cbn. by split.
  - cbn [Server.step fst snd Server.handlers].
    destruct (on_send_message_cases int_of_str format_timestamp now send data
                (Server.handlers s))
      as [[Hv ->]|[(Hv & Hov & ->)|(Hv & mp & next & ms & Hmp & Hnext & ->)]].
    + cbn. by split.
    + cbn. by split.
    + rewrite empty_heap_roundtrip in Hnext by done.
      injection Hnext as <- <-.
      set (raw_message := default (str "") (req_message data)) in *.
      set (raw_user := default (str "Anonymous") (req_user data)) in *.
      destruct (add_message_fields now
                  (sanitized_message (validate_message raw_message))
                  (validate_username raw_user) mp
                  (ChatSocketHandlers.message_system (Server.handlers s)))
        as (Ht & Hu & _).
      set (added := (PriorityMessageQueue.add_message now _ _ mp _).1) in *.
      assert (sanitized added) as Ha.
      { destruct (validate_message_sanitized raw_message Hv) as [Hm Hne].
        unfold sanitized. rewrite Ht, Hu.
        split; [done|]. split; [apply validate_username_markup_free|done]. }
      destruct (pipeline_conserves now send
                  (ChatSocketHandlers.format_message_for_client
                     format_timestamp added)
                  (ChatSocketHandlers.batch_queue (Server.handlers s))
                  (ChatSocketHandlers.retry_queue (Server.handlers s)))
        as (Hperm & _); [lia| |].
      { eapply Forall_impl; [exact Hrc|]. intros it ->. lia. }
      cbv zeta in Hperm.
      cbn [ChatSocketHandlers.state ChatSocketHandlers.emitted
           ChatSocketHandlers.message_system ChatSocketHandlers.batch_queue
           ChatSocketHandlers.retry_queue PriorityMessageQueue.history
           CircularQueue.enqueue CircularQueue.queue].
      rewrite messages_of_pipeline.
      assert (Forall sanitized_payload
                (BatchQueue.queue
                   (ChatSocketHandlers.batch_queue (Server.handlers s))
                 ++ ChatSocketHandlers.format_message_for_client
                      format_timestamp added
                 :: queued_for_retry
                      (ChatSocketHandlers.retry_queue (Server.handlers s))))
        as Hall.
      { apply Forall_app. split; [done|].
        constructor; [by apply format_sanitized|done]. }
      rewrite <- Hperm in Hall.
      apply Forall_app in Hall as [Hsent Hall].
      apply Forall_app in Hall as [Hb' Hr'].
      split; [|done]. split; [|done].
      unfold CircularQueue.deque_append. destruct (decide _).
      * apply Forall_drop, Forall_app. split; [done|]. by constructor.
      * apply Forall_app. split; [done|]. by constructor.
  - cbn. by split.
Qed.

Lemma run_sanitized (calls : list Server.call) (s : Server.t) :
  let h s := Server.handlers s in
  let holds s :=
    Forall sanitized
      (CircularQueue.queue
         (PriorityMessageQueue.history (ChatSocketHandlers.message_system (h s))))
    /\ Forall sanitized_payload
         (BatchQueue.queue (ChatSocketHandlers.batch_queue (h s)))
    /\ Forall sanitized_payload
         (queued_for_retry (ChatSocketHandlers.retry_queue (h s))) in
  Forall client_call calls -> steady s -> holds s ->
  let r := Server.run int_of_str format_timestamp calls s in
  holds r.2 /\ Forall sanitized_payload (flat_map messages_of r.1).
Proof.
  intros h holds. revert s.
  induction calls as [|c calls IH]; intros s Hc Hs Hh r; [by split|].
  apply Forall_cons in Hc as [Hc Hcs].
  destruct (step_sanitized c s Hc Hs Hh) as [Hh1 Ho1].
  destruct (step_steady int_of_str format_timestamp c s Hs) as [Hs1 _].
  subst r. cbn [Server.run].
  destruct (Server.step _ _ c s) as [out s1]. cbn [fst snd] in *.
  destruct (IH s1 Hcs Hs1 Hh1) as [Hh2 Ho2].
  destruct (Server.run _ _ calls s1) as [outs s2]. cbn [fst snd] in *.
  split; [done|]. rewrite flat_map_app. by apply Forall_app.
Qed.

End Sanitized.

(** X24: what the clients are sent is sanitized.  As long as the calls
    come from clients (no system broadcast, whose text is taken as it
    is), every message that the server emits, in a batch, alone after a
    retry, or when it replays the history to a new connection, has a
    text that is not empty and a text and a user name without the
    characters <, >, double quote and apostrophe; so has every message
    of the history. *)
Theorem clients_receive_sanitized_messages `{CharTables}
    (int_of_str : list ascii -> option Z) (format_timestamp : Q -> list ascii)
    (calls : list Server.call) :
  Forall client_call calls ->
  let r := Server.run int_of_str format_timestamp calls Server.init in
  Forall sanitized_payload (flat_map messages_of r.1) /\
  Forall sanitized
    (PriorityMessageQueue.get_history
       (ChatSocketHandlers.message_system (Server.handlers r.2))).
Proof.
  intros Hc r.
  destruct (run_sanitized int_of_str format_timestamp calls Server.init Hc
              init_steady) as [(Hh & _) Ho]; [by cbn|].
  by split.
Qed.

Lemma clients_receive_sanitized_messages_witness :
  let calls :=
    [Server.SendMessage 1 (fun _ => true)
       {| req_message := Some (str "<b>hi</b>");
          req_user := Some (str "al");
          req_priority := None |};
     Server.Connect 2] in
  let r :=
    Server.run (H := latin1_tables) (fun _ => None) (fun _ => str "00:00:00")
      calls Server.init in
  Forall sanitized_payload (flat_map messages_of r.1) /\
  Forall sanitized
    (PriorityMessageQueue.get_history
       (ChatSocketHandlers.message_system (Server.handlers r.2))).
Proof.
  apply (clients_receive_sanitized_messages (H := latin1_tables)
           (fun _ => None) (fun _ => str "00:00:00")
           [Server.SendMessage 1 (fun _ => true)
              {| req_message := Some (str "<b>hi</b>");
                 req_user := Some (str "al");
                 req_priority := None |};
            Server.Connect 2]).
  repeat constructor.
Defined.
